(** * PyramidKV cache compression: [PyramidKVCluster.update_kv]

    A shallow embedding of [minference/modules/pyramidkv.py] and the
    properties of its capacity schedule, importance scores, smoothing and
    index selection.

    Python integers are [Z]; [//] is floor division, which is [Z.div], and
    raises on a zero divisor.  Tensors of rank 4 are nested lists indexed
    (batch, head, position, head_dim).  Tensor elements live in an abstract
    scalar type: the floating-point operations of torch are the fields of the
    class [Scalar], and every theorem holds for all instances of it. *)

From Stdlib Require Import List ZArith Lia String Bool Arith QArith Qround.
From Stdlib Require Import Sorting.Sorted Sorting.Permutation.
Import ListNotations.
Local Open Scope Z_scope.

(** ** Exceptions and the result monad *)

Inductive exn : Type :=
| AssertionError
| ZeroDivisionError
| TypeError
| ValueError
| RuntimeError.

Definition result (A : Type) : Type := (exn + A)%type.

Definition ret {A : Type} (a : A) : result A := inr a.
Definition raise {A : Type} (e : exn) : result A := inl e.
Definition bind {A B : Type} (m : result A) (f : A -> result B) : result B :=
  match m with
  | inl e => inl e
  | inr a => f a
  end.

Notation "'do' x <- m ; k" := (bind m (fun x => k))
  (at level 10, x name, m at level 100, k at level 200).

Definition assert (b : bool) : result unit :=
  if b then ret tt else raise AssertionError.

(** [a // b] *)
Definition floordiv (a b : Z) : result Z :=
  if b =? 0 then raise ZeroDivisionError else ret (a / b).

Fixpoint mapM {A B : Type} (f : A -> result B) (l : list A) : result (list B) :=
  match l with
  | [] => ret []
  | x :: xs => do y <- f x; do ys <- mapM f xs; ret (y :: ys)
  end.

(** ** Python sequences *)

Definition len {A : Type} (l : list A) : Z := Z.of_nat (List.length l).

(** How Python clamps a slice bound [i] against a sequence of length [n]. *)
Definition slice_bound (n i : Z) : Z :=
  if i <? 0 then Z.max 0 (n + i) else Z.min n i.

(** [l[start:]] *)
Definition slice_from {A : Type} (start : Z) (l : list A) : list A :=
  skipn (Z.to_nat (slice_bound (len l) start)) l.

(** [l[:stop]] *)
Definition slice_to {A : Type} (stop : Z) (l : list A) : list A :=
  firstn (Z.to_nat (slice_bound (len l) stop)) l.

(** [torch.arange(n)] *)
Definition arange (n : Z) : list Z := map Z.of_nat (seq 0 (Z.to_nat n)).

Fixpoint map2 {A B C : Type} (f : A -> B -> C) (l1 : list A) (l2 : list B) : list C :=
  match l1, l2 with
  | x :: xs, y :: ys => f x y :: map2 f xs ys
  | _, _ => []
  end.

(** Consecutive groups of [n] elements, as [view(.., k, n, ..)] forms them. *)
Fixpoint chunks {A : Type} (fuel n : nat) (l : list A) : list (list A) :=
  match fuel with
  | O => []
  | S fuel' => firstn n l :: chunks fuel' n (skipn n l)
  end.

(** ** Scalars *)

Class Scalar (F : Type) : Type := {
  fzero : F;
  fneg_inf : F;             (* float("-inf"), the padding of max_pool1d *)
  finfo_min : F;            (* torch.finfo(dtype).min *)
  fadd : F -> F -> F;
  fsub : F -> F -> F;
  fmul : F -> F -> F;
  fdiv : F -> F -> F;
  fexp : F -> F;
  fsqrt : F -> F;           (* math.sqrt *)
  fltb : F -> F -> bool;    (* a < b *)
  of_int : Z -> F;          (* an integer used as a float *)
  to_float32 : F -> F;      (* .to(torch.float32) *)
  to_dtype : F -> F         (* .to(query_states.dtype) *)
}.

(** ** Tensors *)

Abbreviation Matrix F := (list (list F)) (only parsing).
Abbreviation Tensor3 F := (list (list (list F))) (only parsing).
Abbreviation Tensor4 F := (list (list (list (list F)))) (only parsing).

(** [t.shape], read off the first entry along each axis; a nested list does
    not record the axes below an empty one, which read as 0. *)
Definition shape4 {F : Type} (t : Tensor4 F) : Z * Z * Z * Z :=
  (len t, len (hd [] t), len (hd [] (hd [] t)), len (hd [] (hd [] (hd [] t)))).

(** [t] is a rectangular array of shape [(b, h, s, d)]. *)
Definition has_shape4 {F : Type} (b h s d : Z) (t : Tensor4 F) : bool :=
  (len t =? b) &&
  forallb (fun x => (len x =? h) &&
    forallb (fun y => (len y =? s) &&
      forallb (fun z => len z =? d) y) x) t.

(** [t[:, :, start:, :]] and [t[:, :, :stop, :]] *)
Definition seq_from {F : Type} (start : Z) (t : Tensor4 F) : Tensor4 F :=
  map (map (slice_from start)) t.
Definition seq_to {F : Type} (stop : Z) (t : Tensor4 F) : Tensor4 F :=
  map (map (slice_to stop)) t.

(** Every (batch, head) entry of [t] has [n] positions. *)
Definition all_seq_len {F : Type} (n : Z) (t : Tensor4 F) : Prop :=
  Forall (Forall (fun s => len s = n)) t.

(** Every (batch, head) entry of [t] has at most [n] positions. *)
Definition all_seq_le {F : Type} (n : Z) (t : Tensor4 F) : Prop :=
  Forall (Forall (fun s => len s <= n)) t.

(** The tensor of shape [(b, h, q, d)] that holds [x] everywhere. *)
Definition constant {F : Type} (x : F) (b h q d : nat) : Tensor4 F :=
  repeat (repeat (repeat (repeat x d) q) h) b.

(** ** Configuration *)

Record PyramidKVCluster : Type := {
  layer_idx : option Z;
  num_hidden_layers : Z;
  beta : Z;
  window_size : Z;
  max_capacity_prompt : Z;
  kernel_size : Z;
  pooling : string;
  n_rep : option Z
}.

(** [__init__], with its assertion. *)
Definition init (num_hidden_layers window_size max_capacity_prompt kernel_size : Z)
    (pooling : string) (beta : Z) (layer_idx n_rep : option Z)
    : result PyramidKVCluster :=
  do _ <- assert (0 <? max_capacity_prompt - window_size);
  ret {| layer_idx := layer_idx; num_hidden_layers := num_hidden_layers;
         beta := beta; window_size := window_size;
         max_capacity_prompt := max_capacity_prompt;
         kernel_size := kernel_size; pooling := pooling; n_rep := n_rep |}.

(** [reset]: replaces five fields, keeps [layer_idx], [num_hidden_layers], [beta]. *)
Definition reset (self : PyramidKVCluster) (window_size max_capacity_prompt kernel_size : Z)
    (pooling : string) (n_rep : option Z) : result PyramidKVCluster :=
  do _ <- assert (0 <? max_capacity_prompt - window_size);
  ret {| layer_idx := layer_idx self; num_hidden_layers := num_hidden_layers self;
         beta := beta self; window_size := window_size;
         max_capacity_prompt := max_capacity_prompt;
         kernel_size := kernel_size; pooling := pooling; n_rep := n_rep |}.

(** The pooling kinds that [update_kv] knows. *)
Definition supported (self : PyramidKVCluster) : Prop :=
  pooling self = "avgpool"%string \/ pooling self = "maxpool"%string.

(** ** The capacity schedule (lines 76-86 of [update_kv]) *)

Definition current_max_capacity (self : PyramidKVCluster) (capacity_override : option Z) : Z :=
  match capacity_override with
  | Some c => c
  | None => max_capacity_prompt self
  end.

Record Schedule : Type := {
  min_num : Z;
  max_num : Z;
  steps : Z;
  layer_budget : Z      (* the local [max_capacity_prompt] of line 86 *)
}.

Definition schedule (self : PyramidKVCluster) (cmc q_len : Z) : result Schedule :=
  let w := window_size self in
  do min_num0 <- floordiv (cmc - w) (beta self);
  let max_num0 := (cmc - w) * 2 - min_num0 in
  let '(max_num1, min_num1) :=
    if max_num0 >=? q_len - w
    then (q_len - w, (cmc - w) * 2 - (q_len - w))
    else (max_num0, min_num0) in
  do steps <- floordiv (max_num1 - min_num1) (num_hidden_layers self - 1);
  do idx <- match layer_idx self with
            | Some i => ret i
            | None => raise TypeError      (* None * steps *)
            end;
  ret {| min_num := min_num1; max_num := max_num1; steps := steps;
         layer_budget := max_num1 - idx * steps |}.

(** ** The numeric kernel *)

Section Kernel.

Context {F : Type} {SF : Scalar F}.

(** Reductions run left to right from zero; torch leaves the order open. *)
Definition fsum (l : list F) : F := fold_left fadd l fzero.

Definition fmax (a b : F) : F := if fltb a b then b else a.

Definition dot (u v : list F) : F := fsum (map2 fmul u v).

(** [torch.matmul(q, k.transpose(2, 3))] on one head: entry (i, j) is
    the product of row i of [q] with row j of [k]. *)
Definition matmul_nt (q k : Matrix F) : Matrix F :=
  map (fun qi => map (fun kj => dot qi kj) k) q.

(** Lines 100-106: [mask] is [finfo.min] everywhere, then zero wherever
    [mask_cond < (mask_cond + 1).view(w, 1)], the row index being that
    of the view. *)
Definition causal_mask (w : Z) : Matrix F :=
  let mask_cond := arange w in
  map (fun i1 => map (fun j => if j <? i1 then fzero else finfo_min) mask_cond)
      (map (fun i => i + 1) mask_cond).

(** Lines 110-112: [attn_weights[:, :, -w:, -w:] += attention_mask]. *)
Definition add_mask (w : Z) (mask aw : Matrix F) : Matrix F :=
  slice_to (- w) aw ++
  map2 (fun row mrow => slice_to (- w) row ++ map2 fadd (slice_from (- w) row) mrow)
       (slice_from (- w) aw) mask.

(** [softmax(row, dim=-1, dtype=torch.float32).to(query_states.dtype)] *)
Definition softmax (row : list F) : list F :=
  let x := map to_float32 row in
  let m := fold_left fmax x fneg_inf in
  let e := map (fun a => fexp (fsub a m)) x in
  let s := fsum e in
  map (fun a => to_dtype (fdiv a s)) e.

(** [rows.sum(dim=-2)] *)
Definition sum_rows (rows : Matrix F) : list F :=
  fold_left (map2 fadd) rows (repeat fzero (List.length (hd [] rows))).

(** Lines 117-119: [attn_weights[:, :, -w:, :-w].sum(dim=-2)]. *)
Definition attn_sum (w : Z) (aw : Matrix F) : list F :=
  sum_rows (map (slice_to (- w)) (slice_from (- w) aw)).

(** Lines 97-119 on one query head [q] and the key head [k] it attends to. *)
Definition head_scores (w head_dim : Z) (q k : Matrix F) : list F :=
  let scale := fsqrt (of_int head_dim) in
  let attn_weights :=
    map (map (fun x => fdiv x scale)) (matmul_nt (slice_from (- w) q) k) in
  let attn_weights := add_mask w (causal_mask w) attn_weights in
  let attn_weights := map softmax attn_weights in
  attn_sum w attn_weights.

(** *** Pooling ([torch.nn.functional]) *)

(** Length of the output for stride 1. *)
Definition pool_out_len (l ks pad : Z) : Z := l + 2 * pad - ks + 1.

(** What torch checks before pooling: a positive kernel, a padding of at most
    half of it, a non-empty input and a non-empty output. *)
Definition pool_check (l ks pad : Z) : bool :=
  (0 <? ks) && (0 <=? pad) && (2 * pad <=? ks) && (0 <? l) &&
  (0 <? pool_out_len l ks pad).

(** The input with [pad] padding cells on each side; a padding cell is [None]. *)
Definition padded (x : list F) (pad : Z) : list (option F) :=
  repeat None (Z.to_nat pad) ++ map Some x ++ repeat None (Z.to_nat pad).

(** The pooling windows, one per output position. *)
Definition windows (x : list F) (ks pad : Z) : list (list (option F)) :=
  map (fun p => firstn (Z.to_nat ks) (skipn p (padded x pad)))
      (seq 0 (Z.to_nat (pool_out_len (len x) ks pad))).

(** The cells of a window that lie inside the input. *)
Fixpoint in_range (win : list (option F)) : list F :=
  match win with
  | [] => []
  | Some a :: r => a :: in_range r
  | None :: r => in_range r
  end.

(** [F.avg_pool1d(x, kernel_size=ks, padding=pad, stride=1)]: the sum of the
    cells inside the input, divided by the kernel size when
    [count_include_pad] holds and by the number of those cells otherwise. *)
Definition avg_pool1d (count_include_pad : bool) (ks pad : Z) (x : list F)
    : result (list F) :=
  if negb (pool_check (len x) ks pad) then raise RuntimeError else
  ret (map (fun win =>
              let divide_factor :=
                if count_include_pad then ks else len (in_range win) in
              fdiv (fsum (in_range win)) (of_int divide_factor))
           (windows x ks pad)).

(** [F.max_pool1d(x, kernel_size=ks, padding=pad, stride=1)]: padding cells
    never win, the running maximum starts from minus infinity. *)
Definition max_pool1d (ks pad : Z) (x : list F) : result (list F) :=
  if negb (pool_check (len x) ks pad) then raise RuntimeError else
  ret (map (fun win => fold_left fmax (in_range win) fneg_inf) (windows x ks pad)).

(** Lines 121-136: the pooling chosen by [self.pooling]; torch's defaults
    [ceil_mode=False], [count_include_pad=True] are in force. *)
Definition pool_scores (self : PyramidKVCluster) : result (list F -> result (list F)) :=
  if String.eqb (pooling self) "avgpool" then
    ret (avg_pool1d true (kernel_size self) (kernel_size self / 2))
  else if String.eqb (pooling self) "maxpool" then
    ret (max_pool1d (kernel_size self) (kernel_size self / 2))
  else raise ValueError.

(** Lines 138-143: [attn_cache.view(bsz, num_kv_heads, n_rep, l).mean(dim=2)]
    for one batch element. *)
Definition mean_over_rep (num_kv_heads rep : Z) (heads : Matrix F) : Matrix F :=
  map (fun group => map (fun x => fdiv x (of_int rep)) (sum_rows group))
      (chunks (Z.to_nat num_kv_heads) (Z.to_nat rep) heads).

(** Modelled from the spec: [repeat_kv] of [minference/modules/quest.py], which
    is not among the sources.  Every key/value head is replicated [n] times, the
    copies staying next to each other, so that query head [h] reads key head
    [h / n]. *)
Definition repeat_kv (t : Tensor4 F) (n : Z) : Tensor4 F :=
  map (fun heads => flat_map (fun h => repeat h (Z.to_nat n)) heads) t.

(** *** Selection *)

(** The entry with the largest score among [c :: cs] and the others, in their
    order; of equal scores the earliest wins. *)
Fixpoint extract_max (c : nat * F) (cs : list (nat * F)) : (nat * F) * list (nat * F) :=
  match cs with
  | [] => (c, [])
  | c' :: cs' =>
      let '(m, rest) := extract_max c' cs' in
      if fltb (snd c) (snd m) then (m, c :: rest) else (c, m :: rest)
  end.

Fixpoint select (k : nat) (cs : list (nat * F)) : list nat :=
  match k, cs with
  | S k', c :: cs' =>
      let '(m, rest) := extract_max c cs' in fst m :: select k' rest
  | _, _ => []
  end.

(** [x.topk(k, dim=-1).indices]: positions of the [k] largest entries, largest
    first. *)
Definition topk (k : Z) (x : list F) : result (list nat) :=
  if (k <? 0) || (len x <? k) then raise RuntimeError else
  ret (select (Z.to_nat k) (combine (seq 0 (List.length x)) x)).

Fixpoint insert (i : nat) (l : list nat) : list nat :=
  match l with
  | [] => [i]
  | j :: r => if (i <=? j)%nat then i :: l else j :: insert i r
  end.

(** [indices.sort(dim=-1)[0]] *)
Definition sort (l : list nat) : list nat := fold_right insert [] l.

(** [past.gather(dim=2, index=indices.unsqueeze(-1).expand(.., head_dim))]
    on one head: row [i] of the result is row [indices[i]] of [past]. *)
Definition gather (past : Matrix F) (indices : list nat) : result (Matrix F) :=
  mapM (fun i => match nth_error past i with
                 | Some row => ret row
                 | None => raise RuntimeError
                 end) indices.

End Kernel.

(** ** The orchestrator *)

Section UpdateKV.

Context {F : Type} {SF : Scalar F}.

(** [t.shape[-2]] *)
Definition seq_len (t : Tensor4 F) : Z := len (hd [] (hd [] t)).

Definition rep_factor (self : PyramidKVCluster) : Z :=
  match n_rep self with
  | Some r => r
  | None => 1
  end.

(** torch raises a [RuntimeError] when the operands of [matmul], of the in-place
    addition of the mask, or of [view] do not fit.  They fit when the keys are
    (bsz, num_kv_heads, q_len, head_dim), the queries have [n_rep] heads for
    each key head, and the window is a positive number of positions that the
    sequence can hold.  Broadcasting of a batch or head axis of size one is left
    out: such operands count as not fitting. *)
Definition scores_fit (self : PyramidKVCluster) (bsz num_kv_heads q_len head_dim : Z)
    (key_states query_states : Tensor4 F) : bool :=
  (1 <=? rep_factor self) &&
  has_shape4 bsz num_kv_heads q_len head_dim key_states &&
  has_shape4 bsz (num_kv_heads * rep_factor self) q_len head_dim query_states &&
  (0 <? window_size self) && (window_size self <=? q_len).

(** Lines 92-143 and, word for word again, 171-221: the smoothed importance of
    every historical position, per batch element and key/value head. *)
Definition attn_cache (self : PyramidKVCluster) (bsz num_kv_heads q_len head_dim : Z)
    (key_states query_states : Tensor4 F) : result (Tensor3 F) :=
  if negb (scores_fit self bsz num_kv_heads q_len head_dim key_states query_states)
  then raise RuntimeError else
  let key_states_for_calculation :=
    match n_rep self with
    | None => key_states
    | Some r => repeat_kv key_states r
    end in
  let attn_weights_sum :=
    map2 (map2 (head_scores (window_size self) head_dim))
         query_states key_states_for_calculation in
  do pool <- pool_scores self;
  do pooled <- mapM (mapM pool) attn_weights_sum;
  ret (match n_rep self with
       | None => pooled
       | Some r => map (mean_over_rep num_kv_heads r) pooled
       end).

(** Lines 149-155 / 227-233: [attn_cache.topk(min(budget, shape[-1]))]. *)
Definition topk_indices (budget : Z) (cache : Tensor3 F) : result (list (list (list nat))) :=
  mapM (mapM (topk (Z.min budget (len (hd [] (hd [] cache)))))) cache.

(** Lines 159-168 / 237-246 for one of the two caches: gather the selected
    historical positions, then append the window.  [gather] and [cat] raise a
    [RuntimeError] unless the cache has the batch and head counts of the index
    and vectors of [head_dim] entries. *)
Definition gather_fit (head_dim : Z) (states : Tensor4 F) (indices : list (list (list nat)))
    : bool :=
  (List.length indices =? List.length states)%nat &&
  forallb (fun p => (List.length (snd p) =? List.length (fst p))%nat)
          (combine states indices) &&
  forallb (forallb (forallb (fun row => len row =? head_dim))) states.

Definition gather_cat (w head_dim : Z) (states : Tensor4 F) (indices : list (list (list nat)))
    : result (Tensor4 F) :=
  if negb (gather_fit head_dim states indices) then raise RuntimeError else
  do past_compress <-
    mapM (fun p => mapM (fun q => gather (slice_to (- w) (fst q)) (snd q))
                        (combine (fst p) (snd p)))
         (combine states indices);
  ret (map2 (map2 (@app (list F))) past_compress (seq_from (- w) states)).

(** Lines 149-168 / 227-246. *)
Definition compress (w head_dim budget : Z) (cache : Tensor3 F)
    (key_states value_states : Tensor4 F) : result (Tensor4 F * Tensor4 F) :=
  do indices <- topk_indices budget cache;
  let indices := map (map sort) indices in
  do key_states' <- gather_cat w head_dim key_states indices;
  do value_states' <- gather_cat w head_dim value_states indices;
  ret (key_states', value_states').

(** [update_kv].  Its arguments [attention_mask] and [num_key_value_groups] are
    never read (the first is overwritten at line 108) and are left out.  The
    schedule of lines 78-86 is computed first, whatever the regime. *)
Definition update_kv (self : PyramidKVCluster)
    (key_states query_states value_states : Tensor4 F) (capacity_override : option Z)
    : result (Tensor4 F * Tensor4 F) :=
  do _ <- assert (seq_len key_states =? seq_len query_states);
  let '(bsz, num_kv_heads, q_len, head_dim) :=
    match n_rep self with
    | None => shape4 query_states
    | Some _ => shape4 key_states
    end in
  let w := window_size self in
  let k_cur := seq_from (- w) key_states in
  let v_cur := seq_from (- w) value_states in
  let cmc := current_max_capacity self capacity_override in
  do sched <- schedule self cmc q_len;
  if q_len <? cmc then
    ret (key_states, value_states)
  else if q_len <? (cmc - w) * 2 then
    do cache <- attn_cache self bsz num_kv_heads q_len head_dim key_states query_states;
    if cmc <=? w then ret (k_cur, v_cur)
    else compress w head_dim (cmc - w) cache key_states value_states
  else
    do cache <- attn_cache self bsz num_kv_heads q_len head_dim key_states query_states;
    if cmc <=? w then ret (seq_from (- w) key_states, seq_from (- w) value_states)
    else compress w head_dim (layer_budget sched) cache key_states value_states.

End UpdateKV.

(** The instance of the cluster that serves layer [i]. *)
Definition at_layer (self : PyramidKVCluster) (i : Z) : PyramidKVCluster :=
  {| layer_idx := Some i; num_hidden_layers := num_hidden_layers self;
     beta := beta self; window_size := window_size self;
     max_capacity_prompt := max_capacity_prompt self;
     kernel_size := kernel_size self; pooling := pooling self; n_rep := n_rep self |}.

(** A two-layer cluster with a window of one position and a capacity of three,
    serving layer [l]. *)
Definition small (l : Z) : PyramidKVCluster :=
  {| layer_idx := Some l; num_hidden_layers := 2; beta := 2; window_size := 1;
     max_capacity_prompt := 3; kernel_size := 3; pooling := "avgpool";
     n_rep := None |}.

(** The scenario of the specification: four layers, [beta = 20], a window of 64
    and a capacity of 320, with the kernel and pooling that [__init__] defaults
    to, serving layer [l]. *)
Definition scenario (l : Z) : PyramidKVCluster :=
  {| layer_idx := Some l; num_hidden_layers := 4; beta := 20; window_size := 64;
     max_capacity_prompt := 320; kernel_size := 5; pooling := "avgpool";
     n_rep := None |}.

(** The small cluster of a network with a single layer. *)
Definition one_layer : PyramidKVCluster :=
  {| layer_idx := Some 0; num_hidden_layers := 1; beta := 2; window_size := 1;
     max_capacity_prompt := 3; kernel_size := 3; pooling := "avgpool";
     n_rep := None |}.

(** The small cluster with a pooling kind that [update_kv] does not know. *)
Definition sum_pooled : PyramidKVCluster :=
  {| layer_idx := Some 0; num_hidden_layers := 2; beta := 2; window_size := 1;
     max_capacity_prompt := 3; kernel_size := 3; pooling := "sumpool";
     n_rep := None |}.

(** The small cluster with [beta = 0]. *)
Definition beta_zero : PyramidKVCluster :=
  {| layer_idx := Some 0; num_hidden_layers := 2; beta := 0; window_size := 1;
     max_capacity_prompt := 3; kernel_size := 3; pooling := "avgpool";
     n_rep := None |}.

(** The small cluster as [__init__] builds it when no [layer_idx] is given. *)
Definition unset_layer : PyramidKVCluster :=
  {| layer_idx := None; num_hidden_layers := 2; beta := 2; window_size := 1;
     max_capacity_prompt := 3; kernel_size := 3; pooling := "avgpool";
     n_rep := None |}.

(** The small cluster with max pooling. *)
Definition max_pooled : PyramidKVCluster :=
  {| layer_idx := Some 0; num_hidden_layers := 2; beta := 2; window_size := 1;
     max_capacity_prompt := 3; kernel_size := 3; pooling := "maxpool";
     n_rep := None |}.

(** The small cluster with a kernel of two. *)
Definition even_kernel : PyramidKVCluster :=
  {| layer_idx := Some 0; num_hidden_layers := 2; beta := 2; window_size := 1;
     max_capacity_prompt := 3; kernel_size := 2; pooling := "avgpool";
     n_rep := None |}.

(** The small cluster with two query heads for every key/value head. *)
Definition grouped : PyramidKVCluster :=
  {| layer_idx := Some 0; num_hidden_layers := 2; beta := 2; window_size := 1;
     max_capacity_prompt := 3; kernel_size := 3; pooling := "avgpool";
     n_rep := Some 2 |}.

(** ** Regimes *)

Inductive Regime : Type :=
| PASSTHROUGH
| MODERATE
| AGGRESSIVE.

(** The branch of lines 89-170 that a call takes. *)
Definition regime (self : PyramidKVCluster) (cmc q_len : Z) : Regime :=
  if q_len <? cmc then PASSTHROUGH
  else if q_len <? (cmc - window_size self) * 2 then MODERATE
  else AGGRESSIVE.

(** The number of historical positions that a compressing regime asks for. *)
Definition budget (r : Regime) (self : PyramidKVCluster) (cmc : Z) (sched : Schedule) : Z :=
  match r with
  | AGGRESSIVE => layer_budget sched
  | _ => cmc - window_size self
  end.

(** ** Rational scalars, to run the embedding on concrete caches *)

Module RatScalar.

Definition qltb (a b : Q) : bool := negb (Qle_bool b a).

(** Exact rational arithmetic; the exponential is [2 ^ floor x] and the square
    root that of the integer part, enough to rank small examples. *)
#[export] Instance rat_scalar : Scalar Q := {|
  fzero := 0%Q;
  fneg_inf := inject_Z (- 128);
  finfo_min := inject_Z (- 64);
  fadd := fun a b => Qred (a + b)%Q;
  fsub := fun a b => Qred (a - b)%Q;
  fmul := fun a b => Qred (a * b)%Q;
  fdiv := fun a b => Qred (a / b)%Q;
  fexp := fun x => Qred (Qpower 2 (Qfloor x));
  fsqrt := fun x => inject_Z (Z.sqrt (Qfloor x));
  fltb := qltb;
  of_int := inject_Z;
  to_float32 := fun x => x;
  to_dtype := fun x => x
|}.

(** The largest finite float32, [torch.finfo(torch.float32).max]; the lowest
    is its opposite. *)
Definition float32_max : Z := 2 ^ 128 - 2 ^ 104.

(** The same arithmetic with the range of float32: [finfo_min] is the lowest
    finite float32, and minus infinity is a number below it. *)
Definition float32_range : Scalar Q := {|
  fzero := 0%Q;
  fneg_inf := inject_Z (- 2 ^ 129);
  finfo_min := inject_Z (- float32_max);
  fadd := fun a b => Qred (a + b)%Q;
  fsub := fun a b => Qred (a - b)%Q;
  fmul := fun a b => Qred (a * b)%Q;
  fdiv := fun a b => Qred (a / b)%Q;
  fexp := fun x => Qred (Qpower 2 (Qfloor x));
  fsqrt := fun x => inject_Z (Z.sqrt (Qfloor x));
  fltb := qltb;
  of_int := inject_Z;
  to_float32 := fun x => x;
  to_dtype := fun x => x
|}.

(** A cache of one batch element and one head whose positions hold the
    one-entry vectors of [zs]. *)
Definition column (zs : list Z) : Tensor4 Q :=
  [[map (fun z => [inject_Z z]) zs]].

(** The cache whose position [p] holds the vector [[f p]]. *)
Definition cache1 (f : Z -> Z) (q_len : Z) : Tensor4 Q :=
  column (map f (arange q_len)).

(** Five positions: keys 0, 3, 1, 4, 2, the same query everywhere, and values
    that name their position. *)
Definition keys5 : Tensor4 Q := cache1 (fun p => (p * 3) mod 5) 5.
Definition queries5 : Tensor4 Q := cache1 (fun _ => 1) 5.
Definition values5 : Tensor4 Q := cache1 (fun p => 10 * p) 5.

End RatScalar.

(** ** The scores as the specification words them *)

Section SpecScores.

Context {F : Type} {SF : Scalar F}.

(** The sum of [f 0], ..., [f (n - 1)], taken from zero in this order. *)
Definition total (n : nat) (f : nat -> F) : F :=
  fold_left (fun acc t => fadd acc (f t)) (seq 0 n) fzero.

(** The dot product of two vectors: the sum of the products of their entries,
    position by position. *)
Definition inner (u v : list F) : F :=
  total (Nat.min (List.length u) (List.length v))
        (fun t => fmul (nth t u fzero) (nth t v fzero)).

(** The scaled dot product of query position [i] and key position [j]. *)
Definition logit (head_dim : Z) (q k : Matrix F) (i j : nat) : F :=
  fdiv (inner (nth i q []) (nth j k [])) (fsqrt (of_int head_dim)).

(** The largest of [x 0], ..., [x (n - 1)], minus infinity for no entry. *)
Definition row_max (n : nat) (x : nat -> F) : F :=
  fold_left (fun m t => if fltb m (x t) then x t else m) (seq 0 n) fneg_inf.

(** Entry [j] of the softmax of the row [x 0], ..., [x (n - 1)]: the row is
    taken to float32, every entry has the largest one subtracted, and the
    exponential of entry [j] is divided by the sum of the exponentials of all
    entries; the quotient is taken back to the dtype of the queries. *)
Definition softmax_entry (n : nat) (x : nat -> F) (j : nat) : F :=
  let y := fun t => to_float32 (x t) in
  let m := row_max n y in
  to_dtype (fdiv (fexp (fsub (y j) m)) (total n (fun t => fexp (fsub (y t) m)))).

(** Entry [j] of the score row of the [i]-th window query.  A historical key
    has nothing added.  A window key has zero added when it is not later than
    the query, and the lowest finite value of the dtype otherwise. *)
Definition masked_logit (w head_dim : Z) (q k : Matrix F) (i j : nat) : F :=
  let hist := (List.length k - Z.to_nat w)%nat in
  let s := logit head_dim q k (hist + i) j in
  if (j <? hist)%nat then s
  else if (j - hist <=? i)%nat then fadd s fzero
  else fadd s finfo_min.

(** The softmax mass that the window rows give to historical position [h]. *)
Definition window_mass (w head_dim : Z) (q k : Matrix F) (h : nat) : F :=
  total (Z.to_nat w)
        (fun i => softmax_entry (List.length k) (masked_logit w head_dim q k i) h).

(** The same row with the window keys later than the query masked to minus
    infinity, written [None]. *)
Definition infinite_mask_logit (w head_dim : Z) (q k : Matrix F) (i j : nat)
    : option F :=
  let hist := (List.length k - Z.to_nat w)%nat in
  if ((j <? hist) || (j - hist <=? i))%nat
  then Some (logit head_dim q k (hist + i) j)
  else None.

(** The exponential, zero at minus infinity. *)
Definition exp_or_zero (x : option F) : F :=
  match x with
  | Some a => fexp a
  | None => fzero
  end.

(** Entry [j] of the softmax of a row that may hold minus infinity: the
    exponential of the entry over the sum of the exponentials of the row. *)
Definition softmax_infinite (n : nat) (x : nat -> option F) (j : nat) : F :=
  fdiv (exp_or_zero (x j)) (total n (fun t => exp_or_zero (x t))).

(** The softmax mass of historical position [h] under a mask of minus
    infinity. *)
Definition infinite_mask_mass (w head_dim : Z) (q k : Matrix F) (h : nat) : F :=
  total (Z.to_nat w)
        (fun i => softmax_infinite (List.length k)
                    (infinite_mask_logit w head_dim q k i) h).

(** Position [j] is within [r] of position [p]. *)
Definition near (r p j : nat) : bool := ((p <=? j + r) && (j <=? p + r))%nat.

(** The raw scores within [ks // 2] of [p], summed and divided by [ks]. *)
Definition padded_average (ks : Z) (x : list F) (p : nat) : F :=
  fdiv (fsum (map (fun j => nth j x fzero)
                  (filter (near (Z.to_nat (ks / 2)) p) (seq 0 (List.length x)))))
       (of_int ks).

End SpecScores.

(** ** The compressed cache as the specification words it *)

(** For every batch element and head, the historical entries at the given
    positions, in the order given, followed by the window. *)
Definition compressed_cache {F : Type} (w : Z) (states : Tensor4 F)
    (indices : list (list (list nat))) : Tensor4 F :=
  map2 (map2 (fun m ix =>
                map (fun i => nth i (slice_to (- w) m) []) ix ++ slice_from (- w) m))
       states indices.

(** Every selected position lies in the history of its head. *)
Definition historical {F : Type} (w : Z) (states : Tensor4 F)
    (indices : list (list (list nat))) : Prop :=
  Forall2 (Forall2 (fun m ix =>
                      Forall (fun i => (i < List.length (slice_to (- w) m))%nat) ix))
          states indices.

(** The length of every smoothed score vector. *)
Definition cache_len (self : PyramidKVCluster) (q_len : Z) : Z :=
  pool_out_len (q_len - window_size self) (kernel_size self) (kernel_size self / 2).

(** ** Shape predicates *)

(** [x] has [n] rows of [m] entries. *)
Definition Rows {A : Type} (n m : Z) (x : list (list A)) : Prop :=
  len x = n /\ Forall (fun r => len r = m) x.

(** [t] has [b] batch entries of [h] heads with [l] scores each. *)
Definition Shape3 {A : Type} (b h l : Z) (t : list (list (list A))) : Prop :=
  len t = b /\ Forall (Rows h l) t.

(** [t] has [b] batch entries of [h] heads, each an [s] by [d] matrix. *)
Definition Shape4 {A : Type} (b h s d : Z) (t : list (list (list (list A)))) : Prop :=
  len t = b /\ Forall (fun x => len x = h /\ Forall (Rows s d) x) t.

(** ** The cluster as an object *)

(** Lines 46-47: the first two assignments of [reset]. *)
Definition assign_window (self : PyramidKVCluster) (window_size max_capacity_prompt : Z)
    : PyramidKVCluster :=
  {| layer_idx := layer_idx self; num_hidden_layers := num_hidden_layers self;
     beta := beta self; window_size := window_size;
     max_capacity_prompt := max_capacity_prompt;
     kernel_size := kernel_size self; pooling := pooling self; n_rep := n_rep self |}.

(** [reset] on the object itself.  Lines 46-47 assign [window_size] and
    [max_capacity_prompt] before the assertion of line 48 runs, and lines 49-51
    assign the other three fields after it: the object after the call, and
    what the call raised, if anything. *)
Definition reset_inplace (self : PyramidKVCluster)
    (window_size max_capacity_prompt kernel_size : Z) (pooling : string)
    (n_rep : option Z) : PyramidKVCluster * result unit :=
  let self := assign_window self window_size max_capacity_prompt in
  if 0 <? max_capacity_prompt - window_size then
    ({| layer_idx := layer_idx self; num_hidden_layers := num_hidden_layers self;
        beta := beta self; window_size := window_size;
        max_capacity_prompt := max_capacity_prompt;
        kernel_size := kernel_size; pooling := pooling; n_rep := n_rep |}, ret tt)
  else (self, raise AssertionError).

(** The clusters that [__init__] and returning calls of [reset] produce, with
    the three constructor arguments that [reset] never assigns. *)
Inductive Built (l : option Z) (n b : Z) : PyramidKVCluster -> Prop :=
| Built_init (w m k : Z) (p : string) (r : option Z) (c : PyramidKVCluster) :
    init n w m k p b l r = inr c -> Built l n b c
| Built_reset (c : PyramidKVCluster) (w m k : Z) (p : string) (r : option Z)
    (c' : PyramidKVCluster) :
    Built l n b c -> reset c w m k p r = inr c' -> Built l n b c'.

(** ** Subsequences *)

(** [l1] is [l2] with some entries left out, the others in their order. *)
Inductive subseq {A : Type} : list A -> list A -> Prop :=
| subseq_nil : subseq [] []
| subseq_keep (x : A) (l1 l2 : list A) : subseq l1 l2 -> subseq (x :: l1) (x :: l2)
| subseq_drop (x : A) (l1 l2 : list A) : subseq l1 l2 -> subseq l1 (x :: l2).

(** ** The budgets of all layers *)

(** The sum of the layer budgets [max_num - i * steps] of layers [0] to
    [n - 1]. *)
Fixpoint total_budget (max_num steps : Z) (n : nat) : Z :=
  match n with
  | O => 0
  | S n' => total_budget max_num steps n' + (max_num - Z.of_nat n' * steps)
  end.

(** ** Max pooling as the padding leaves it *)

(** The largest raw score within [ks // 2] of [p], found from minus infinity
    on, left to right. *)
Definition window_max {F : Type} {SF : Scalar F} (ks : Z) (x : list F) (p : nat) : F :=
  fold_left fmax
    (map (fun j => nth j x fzero)
         (filter (near (Z.to_nat (ks / 2)) p) (seq 0 (List.length x))))
    fneg_inf.

(** ** Average pooling with an even kernel *)

(** Position [j] is one of the [r] positions before [p] or one of the [r]
    positions from [p] on. *)
Definition around_early (r p j : nat) : bool := ((p <=? j + r) && (j <? p + r))%nat.

(** The raw scores at the [ks // 2] positions before [p] and the [ks // 2]
    positions from [p] on, summed and divided by [ks]. *)
Definition early_average {F : Type} {SF : Scalar F} (ks : Z) (x : list F) (p : nat) : F :=
  fdiv (fsum (map (fun j => nth j x fzero)
                  (filter (around_early (Z.to_nat (ks / 2)) p) (seq 0 (List.length x)))))
       (of_int ks).

(** * Properties *)

(** ** The result monad *)

Lemma bind_inr {A B : Type} (m : result A) (f : A -> result B) (b : B) :
  bind m f = inr b -> exists a, m = inr a /\ f a = inr b.
Proof.
  destruct m as [e | a]; simpl; intros H; [discriminate | eauto].
Qed.

Lemma assert_inr (b : bool) (u : unit) : assert b = inr u -> b = true.
Proof. destruct b; simpl; [reflexivity | discriminate]. Qed.

Lemma floordiv_inr (a b q : Z) : floordiv a b = inr q -> b <> 0 /\ q = a / b.
Proof.
  unfold floordiv. destruct (Z.eqb_spec b 0); simpl; intros H; [discriminate |].
  inversion H; auto.
Qed.

Lemma floordiv_ok (a b : Z) : b <> 0 -> floordiv a b = inr (a / b).
Proof.
  unfold floordiv. destruct (Z.eqb_spec b 0); [contradiction | reflexivity].
Qed.

Ltac bind_inv H :=
  let a := fresh "a" in
  let E := fresh "E" in
  apply bind_inr in H; destruct H as (a & E & H).

Lemma mapM_Forall2 {A B : Type} (f : A -> result B) (l : list A) (l' : list B) :
  mapM f l = inr l' -> Forall2 (fun x y => f x = inr y) l l'.
Proof.
  revert l'; induction l as [| x xs IH]; simpl; intros l' H.
  - inversion H; constructor.
  - bind_inv H. bind_inv H. inversion H; subst. constructor; auto.
Qed.

Lemma mapM_total {A B : Type} (f : A -> result B) (l : list A) :
  Forall (fun x => exists y, f x = inr y) l -> exists l', mapM f l = inr l'.
Proof.
  induction 1 as [| x xs [y Hy] _ [ys Hys]]; simpl.
  - eexists; reflexivity.
  - rewrite Hy; simpl. rewrite Hys; simpl. eexists; reflexivity.
Qed.

Lemma Forall2_length_eq {A B : Type} (R : A -> B -> Prop) (l : list A) (l' : list B) :
  Forall2 R l l' -> List.length l = List.length l'.
Proof. induction 1; simpl; congruence. Qed.

(** ** Python slices *)

Lemma len_nonneg {A : Type} (l : list A) : 0 <= len l.
Proof. unfold len; lia. Qed.

Lemma len_app {A : Type} (l1 l2 : list A) : len (l1 ++ l2) = len l1 + len l2.
Proof. unfold len; rewrite length_app; lia. Qed.

Lemma len_map {A B : Type} (f : A -> B) (l : list A) : len (map f l) = len l.
Proof. unfold len; rewrite length_map; reflexivity. Qed.

Lemma slice_to_from {A : Type} (z : Z) (l : list A) : slice_to z l ++ slice_from z l = l.
Proof. unfold slice_to, slice_from; apply firstn_skipn. Qed.

Lemma slice_bound_tail (n w : Z) : 0 < w <= n -> slice_bound n (- w) = n - w.
Proof.
  intros H. unfold slice_bound. destruct (Z.ltb_spec (- w) 0); lia.
Qed.

Lemma len_slice_from {A : Type} (w : Z) (l : list A) :
  0 < w <= len l -> len (slice_from (- w) l) = w.
Proof.
  intros H. unfold slice_from. rewrite slice_bound_tail by assumption.
  unfold len in *. rewrite length_skipn. lia.
Qed.

Lemma len_slice_to {A : Type} (w : Z) (l : list A) :
  0 < w <= len l -> len (slice_to (- w) l) = len l - w.
Proof.
  intros H. unfold slice_to. rewrite slice_bound_tail by assumption.
  unfold len in *. rewrite length_firstn. lia.
Qed.

(** The last [w] entries of [past ++ cur] are [cur] when [cur] has [w] entries. *)
Lemma slice_from_app {A : Type} (w : Z) (past cur : list A) :
  0 < w -> len cur = w -> slice_from (- w) (past ++ cur) = cur.
Proof.
  intros Hw Hc. unfold slice_from.
  rewrite slice_bound_tail by (rewrite len_app; pose proof (len_nonneg past); lia).
  rewrite len_app, Hc.
  replace (Z.to_nat (len past + w - w)) with (List.length past + 0)%nat
    by (unfold len; lia).
  rewrite skipn_app, skipn_all2 by lia.
  replace (List.length past + 0 - List.length past)%nat with 0%nat by lia.
  reflexivity.
Qed.

Lemma slice_from_idem {A : Type} (w : Z) (l : list A) :
  0 < w <= len l -> slice_from (- w) (slice_from (- w) l) = slice_from (- w) l.
Proof.
  intros H.
  apply slice_from_app with (past := @nil A); [lia |].
  apply len_slice_from; assumption.
Qed.

(** ** Lists *)

Lemma map2_length {A B C : Type} (f : A -> B -> C) (l1 : list A) (l2 : list B) :
  List.length (map2 f l1 l2) = Nat.min (List.length l1) (List.length l2).
Proof.
  revert l2; induction l1 as [| x xs IH]; intros [| y ys]; simpl; auto.
Qed.

Lemma map2_map_map {A B C D : Type} (f : B -> C -> D) (g : A -> B) (h : A -> C) (l : list A) :
  map2 f (map g l) (map h l) = map (fun x => f (g x) (h x)) l.
Proof. induction l; simpl; congruence. Qed.

Lemma map2_Forall {A B C : Type} (f : A -> B -> C) (P : C -> Prop) (l1 : list A) (l2 : list B) :
  Forall2 (fun x y => P (f x y)) l1 l2 -> Forall P (map2 f l1 l2).
Proof. induction 1; simpl; constructor; auto. Qed.

Lemma map_seq_nth {A : Type} (d : A) (l : list A) :
  l = map (fun i => nth i l d) (seq 0 (List.length l)).
Proof.
  induction l as [| x xs IH]; simpl; [reflexivity |].
  f_equal. rewrite <- seq_shift, map_map. exact IH.
Qed.

Lemma Forall2_Forall_r {A B : Type} (R : A -> B -> Prop) (P : B -> Prop)
    (l : list A) (l' : list B) :
  Forall2 R l l' -> (forall x y, In x l -> R x y -> P y) -> Forall P l'.
Proof.
  induction 1; intros H1; constructor.
  - eapply H1; [left; reflexivity | eassumption].
  - apply IHForall2. intros; eapply H1; [right |]; eassumption.
Qed.

Lemma Forall2_impl_in {A B : Type} (R R' : A -> B -> Prop) (l : list A) (l' : list B) :
  Forall2 R l l' -> (forall x y, In x l -> R x y -> R' x y) -> Forall2 R' l l'.
Proof.
  induction 1; intros H1; constructor.
  - apply H1; [left; reflexivity | assumption].
  - apply IHForall2. intros; apply H1; [right |]; assumption.
Qed.

Lemma Forall2_impl_in2 {A B : Type} (R R' : A -> B -> Prop) (l : list A) (l' : list B) :
  Forall2 R l l' -> (forall x y, In x l -> In y l' -> R x y -> R' x y) ->
  Forall2 R' l l'.
Proof.
  induction 1; intros H1; constructor.
  - apply H1; [left; reflexivity | left; reflexivity | assumption].
  - apply IHForall2. intros; apply H1; [right | right |]; assumption.
Qed.

Lemma map_map2_eq {A B C : Type} (f : A -> B -> A) (g : A -> C) (l : list A) (l' : list B) :
  Forall2 (fun x y => g (f x y) = g x) l l' -> map g (map2 f l l') = map g l.
Proof. induction 1; simpl; congruence. Qed.

(** ** Shapes of the intermediate matrices *)

Lemma Rows_map {A B : Type} (f : list A -> list B) (n m m' : Z) (x : list (list A)) :
  (forall r, len r = m -> len (f r) = m') -> Rows n m x -> Rows n m' (map f x).
Proof.
  intros Hf [Hn Hr]. split; [rewrite len_map; exact Hn |].
  apply Forall_map. revert Hr; apply Forall_impl; exact Hf.
Qed.

Lemma slice_from_whole {A : Type} (w : Z) (l : list A) :
  0 < w -> len l = w -> slice_from (- w) l = l.
Proof.
  intros Hw Hl. apply slice_from_app with (past := @nil A); assumption.
Qed.

Lemma slice_to_whole {A : Type} (w : Z) (l : list A) :
  0 < w -> len l = w -> slice_to (- w) l = [].
Proof.
  intros Hw Hl. unfold slice_to. rewrite slice_bound_tail by lia.
  rewrite Hl. replace (Z.to_nat (w - w)) with 0%nat by lia. reflexivity.
Qed.

Lemma len_seq (a n : nat) : len (seq a n) = Z.of_nat n.
Proof. unfold len; rewrite length_seq; reflexivity. Qed.

Lemma len_arange (n : Z) : 0 <= n -> len (arange n) = n.
Proof. intros H. unfold arange. rewrite len_map, len_seq. lia. Qed.

Lemma len_map2 {A B C : Type} (f : A -> B -> C) (l1 : list A) (l2 : list B) :
  len l1 = len l2 -> len (map2 f l1 l2) = len l1.
Proof. unfold len; intros H. rewrite map2_length. lia. Qed.

Lemma len_repeat {A : Type} (a : A) (n : nat) : len (repeat a n) = Z.of_nat n.
Proof. unfold len; rewrite repeat_length; reflexivity. Qed.

Section KernelShapes.

Context {F : Type} {SF : Scalar F}.

Lemma len_softmax (row : list F) : len (softmax row) = len row.
Proof. unfold softmax. rewrite !len_map. reflexivity. Qed.

Lemma Rows_matmul_nt (q k : Matrix F) : Rows (len q) (len k) (matmul_nt q k).
Proof.
  unfold matmul_nt. split; [apply len_map |].
  apply Forall_map, Forall_forall. intros qi _. apply len_map.
Qed.

Lemma Rows_causal_mask (w : Z) : 0 <= w -> Rows w w (causal_mask (F := F) w).
Proof.
  intros Hw. unfold causal_mask. split.
  - rewrite !len_map. fold (arange w). apply len_arange, Hw.
  - apply Forall_map, Forall_forall. intros i _.
    rewrite len_map. apply len_arange, Hw.
Qed.

Lemma Rows_add_mask (w q_len : Z) (mask aw : Matrix F) :
  0 < w <= q_len -> Rows w w mask -> Rows w q_len aw -> Rows w q_len (add_mask w mask aw).
Proof.
  intros Hw [Hm1 Hm2] [Ha1 Ha2]. unfold add_mask.
  rewrite slice_to_whole, slice_from_whole by (assumption || lia). simpl.
  split; [rewrite len_map2; congruence |].
  apply map2_Forall.
  assert (Hlen : List.length aw = List.length mask) by (unfold len in *; lia).
  clear Ha1 Hm1. revert mask Hm2 Hlen.
  induction Ha2 as [| row rows Hrow _ IH]; intros [| mrow mask] Hm2 Hlen;
    try discriminate; constructor.
  - inversion Hm2; subst.
    rewrite len_app, len_slice_to, len_map2 by (try rewrite len_slice_from; lia).
    rewrite len_slice_from by lia. lia.
  - inversion Hm2; subst. apply IH; [assumption | simpl in Hlen; lia].
Qed.

Lemma len_fold_map2 (m : Z) (rows : Matrix F) (acc : list F) :
  Forall (fun r => len r = m) rows -> len acc = m ->
  len (fold_left (map2 fadd) rows acc) = m.
Proof.
  intros H; revert acc; induction H as [| r rows Hr _ IH]; simpl; intros acc Ha.
  - exact Ha.
  - apply IH. rewrite len_map2; congruence.
Qed.

Lemma len_sum_rows (n m : Z) (rows : Matrix F) :
  0 < n -> Rows n m rows -> len (sum_rows rows) = m.
Proof.
  intros Hn [H1 H2]. unfold sum_rows. apply len_fold_map2; [assumption |].
  destruct rows as [| r rows]; [unfold len in H1; simpl in H1; lia |].
  inversion H2; subst. simpl. rewrite len_repeat. reflexivity.
Qed.

Lemma Rows_attn_weights (w head_dim q_len : Z) (q k : Matrix F) :
  0 < w <= q_len -> len q = q_len -> len k = q_len ->
  Rows w q_len
    (map softmax
       (add_mask w (causal_mask w)
          (map (map (fun x => fdiv x (fsqrt (of_int head_dim))))
               (matmul_nt (slice_from (- w) q) k)))).
Proof.
  intros Hw Hq Hk.
  apply Rows_map with (m := q_len); [intros r Hr; rewrite len_softmax; exact Hr |].
  apply Rows_add_mask; [assumption | apply Rows_causal_mask; lia |].
  apply Rows_map with (m := q_len); [intros r Hr; rewrite len_map; exact Hr |].
  pose proof (Rows_matmul_nt (slice_from (- w) q) k) as H.
  rewrite len_slice_from, Hk in H by lia. exact H.
Qed.

Lemma len_head_scores (w head_dim q_len : Z) (q k : Matrix F) :
  0 < w <= q_len -> len q = q_len -> len k = q_len ->
  len (head_scores w head_dim q k) = q_len - w.
Proof.
  intros Hw Hq Hk. unfold head_scores, attn_sum.
  pose proof (Rows_attn_weights w head_dim q_len q k Hw Hq Hk) as [H1 H2].
  rewrite slice_from_whole by (assumption || lia).
  apply len_sum_rows with (n := w); [lia |].
  apply Rows_map with (m := q_len); [| split; assumption].
  intros r Hr. rewrite len_slice_to; lia.
Qed.

End KernelShapes.

Lemma forallb_Forall {A : Type} (f : A -> bool) (P : A -> Prop) (l : list A) :
  (forall x, f x = true <-> P x) -> forallb f l = true <-> Forall P l.
Proof.
  intros H. rewrite forallb_forall, Forall_forall.
  split; intros H1 x Hx; apply H, H1, Hx.
Qed.

Lemma has_shape4_Shape4 {A : Type} (b h s d : Z) (t : Tensor4 A) :
  has_shape4 b h s d t = true <-> Shape4 b h s d t.
Proof.
  unfold has_shape4, Shape4, Rows.
  rewrite andb_true_iff, Z.eqb_eq.
  apply and_iff_compat_l.
  apply forallb_Forall; intros x.
  rewrite andb_true_iff, Z.eqb_eq. apply and_iff_compat_l.
  apply forallb_Forall; intros y.
  rewrite andb_true_iff, Z.eqb_eq. apply and_iff_compat_l.
  apply forallb_Forall; intros z. apply Z.eqb_eq.
Qed.

(** ** Pooling *)

Section PoolingShapes.

Context {F : Type} {SF : Scalar F}.

Lemma len_windows (x : list F) (ks pad : Z) :
  0 <= pool_out_len (len x) ks pad ->
  len (windows x ks pad) = pool_out_len (len x) ks pad.
Proof.
  intros H. unfold windows. rewrite len_map, len_seq. lia.
Qed.

Lemma avg_pool1d_inr (cip : bool) (ks pad : Z) (x y : list F) :
  avg_pool1d cip ks pad x = inr y ->
  pool_check (len x) ks pad = true /\ len y = pool_out_len (len x) ks pad.
Proof.
  unfold avg_pool1d. destruct (pool_check (len x) ks pad) eqn:E; simpl; [| discriminate].
  intros H; inversion H; subst. split; [reflexivity |].
  rewrite len_map. apply len_windows.
  unfold pool_check in E. rewrite !andb_true_iff in E.
  destruct E as [_ E]. apply Z.ltb_lt in E. lia.
Qed.

Lemma max_pool1d_inr (ks pad : Z) (x y : list F) :
  max_pool1d ks pad x = inr y ->
  pool_check (len x) ks pad = true /\ len y = pool_out_len (len x) ks pad.
Proof.
  unfold max_pool1d. destruct (pool_check (len x) ks pad) eqn:E; simpl; [| discriminate].
  intros H; inversion H; subst. split; [reflexivity |].
  rewrite len_map. apply len_windows.
  unfold pool_check in E. rewrite !andb_true_iff in E.
  destruct E as [_ E]. apply Z.ltb_lt in E. lia.
Qed.

Lemma avg_pool1d_total (cip : bool) (ks pad : Z) (x : list F) :
  pool_check (len x) ks pad = true -> exists y, avg_pool1d cip ks pad x = inr y.
Proof.
  intros H. unfold avg_pool1d. rewrite H. simpl. eexists; reflexivity.
Qed.

Lemma max_pool1d_total (ks pad : Z) (x : list F) :
  pool_check (len x) ks pad = true -> exists y, max_pool1d ks pad x = inr y.
Proof.
  intros H. unfold max_pool1d. rewrite H. simpl. eexists; reflexivity.
Qed.

(** A positive kernel with padding [ks // 2] passes the checks on any
    non-empty input. *)
Lemma pool_check_half (l ks : Z) : 0 < l -> 0 < ks -> pool_check l ks (ks / 2) = true.
Proof.
  intros Hl Hk. unfold pool_check, pool_out_len.
  pose proof (Z.div_mod ks 2 ltac:(lia)) as E.
  pose proof (Z.mod_pos_bound ks 2 ltac:(lia)) as B.
  rewrite !andb_true_iff, !Z.ltb_lt, !Z.leb_le. lia.
Qed.

(** With an odd kernel the pooled scores are as many as the raw ones. *)
Lemma pool_out_len_odd (l ks : Z) : Z.odd ks = true -> pool_out_len l ks (ks / 2) = l.
Proof.
  intros Hodd. unfold pool_out_len.
  rewrite (Zodd_div2 ks) at 2 by (apply Zodd_bool_iff; exact Hodd).
  rewrite Z.div2_div. lia.
Qed.

Lemma pool_out_len_ge (l ks : Z) : 0 < ks -> l <= pool_out_len l ks (ks / 2).
Proof.
  intros Hk. unfold pool_out_len.
  pose proof (Z.div_mod ks 2 ltac:(lia)) as E.
  pose proof (Z.mod_pos_bound ks 2 ltac:(lia)) as B. lia.
Qed.

Lemma pool_scores_inr (self : PyramidKVCluster) (pool : list F -> result (list F)) :
  pool_scores self = inr pool ->
  forall x y, pool x = inr y ->
    pool_check (len x) (kernel_size self) (kernel_size self / 2) = true /\
    len y = pool_out_len (len x) (kernel_size self) (kernel_size self / 2).
Proof.
  unfold pool_scores. intros H x y Hy.
  destruct (String.eqb (pooling self) "avgpool").
  - inversion H; subst. eapply avg_pool1d_inr; eassumption.
  - destruct (String.eqb (pooling self) "maxpool"); [| discriminate].
    inversion H; subst. eapply max_pool1d_inr; eassumption.
Qed.

Lemma pool_scores_total (self : PyramidKVCluster) :
  supported self ->
  exists pool, pool_scores self = inr pool /\
    forall x, pool_check (len x) (kernel_size self) (kernel_size self / 2) = true ->
              exists y, pool x = inr y.
Proof.
  unfold pool_scores. intros [H | H]; rewrite H; simpl.
  - eexists; split; [reflexivity |]. intros x Hx. apply avg_pool1d_total, Hx.
  - eexists; split; [reflexivity |]. intros x Hx. apply max_pool1d_total, Hx.
Qed.

Lemma pool_scores_unsupported (self : PyramidKVCluster) :
  ~ supported self -> pool_scores self = inl ValueError.
Proof.
  unfold pool_scores, supported. intros H.
  destruct (String.eqb_spec (pooling self) "avgpool"); [tauto |].
  destruct (String.eqb_spec (pooling self) "maxpool"); [tauto | reflexivity].
Qed.

End PoolingShapes.

(** ** Selection: [topk] and [sort] *)

Section Selection.

Context {F : Type} {SF : Scalar F}.

Lemma extract_max_perm (c : nat * F) (cs : list (nat * F)) :
  Permutation (c :: cs) (fst (extract_max c cs) :: snd (extract_max c cs)).
Proof.
  revert c; induction cs as [| c' cs IH]; intros c; simpl.
  - apply Permutation_refl.
  - specialize (IH c'). destruct (extract_max c' cs) as [m rest]. simpl in *.
    destruct (fltb (snd c) (snd m)); simpl.
    + apply Permutation_trans with (c :: m :: rest);
        [apply perm_skip, IH | apply perm_swap].
    + apply perm_skip, IH.
Qed.

Lemma select_length (k : nat) (cs : list (nat * F)) :
  List.length (select k cs) = Nat.min k (List.length cs).
Proof.
  revert cs; induction k as [| k IH]; intros [| c cs]; simpl; auto.
  pose proof (extract_max_perm c cs) as P.
  destruct (extract_max c cs) as [m rest]. simpl in *.
  rewrite IH. apply Permutation_length in P. simpl in P. lia.
Qed.

Lemma select_incl (k : nat) (cs : list (nat * F)) (i : nat) :
  In i (select k cs) -> In i (map fst cs).
Proof.
  revert cs; induction k as [| k IH]; intros [| c cs]; simpl; try tauto.
  pose proof (extract_max_perm c cs) as P.
  destruct (extract_max c cs) as [m rest]. simpl in *.
  apply (Permutation_map fst) in P. simpl in P.
  intros [H | H].
  - apply (Permutation_in i (Permutation_sym P)). left; exact H.
  - apply (Permutation_in i (Permutation_sym P)). right. apply IH, H.
Qed.

Lemma select_NoDup (k : nat) (cs : list (nat * F)) :
  NoDup (map fst cs) -> NoDup (select k cs).
Proof.
  revert cs; induction k as [| k IH]; intros [| c cs]; simpl; intros H;
    try (constructor; fail).
  pose proof (extract_max_perm c cs) as P.
  destruct (extract_max c cs) as [m rest]. simpl in *.
  apply (Permutation_map fst) in P. simpl in P.
  apply (Permutation_NoDup P) in H. inversion H; subst.
  constructor.
  - intros Hin. apply select_incl in Hin. contradiction.
  - apply IH; assumption.
Qed.

Lemma fst_combine_seq (x : list F) :
  map fst (combine (seq 0 (List.length x)) x) = seq 0 (List.length x).
Proof.
  assert (H : forall a, map fst (combine (seq a (List.length x)) x) = seq a (List.length x)).
  { induction x as [| y ys IH]; intros a; simpl; [reflexivity |].
    f_equal. apply IH. }
  apply H.
Qed.

(** What [topk] returns: [k] distinct positions of [x]. *)
Lemma topk_inr (k : Z) (x : list F) (idx : list nat) :
  topk k x = inr idx ->
  0 <= k <= len x /\ len idx = k /\ NoDup idx /\
  Forall (fun i => (i < List.length x)%nat) idx.
Proof.
  unfold topk.
  destruct (Z.ltb_spec k 0); simpl; [discriminate |].
  destruct (Z.ltb_spec (len x) k); simpl; [discriminate |].
  intros E; inversion E; subst; clear E.
  split; [lia |]. split; [| split].
  - unfold len in *. rewrite select_length, length_combine, length_seq. lia.
  - apply select_NoDup. rewrite fst_combine_seq. apply seq_NoDup.
  - apply Forall_forall. intros i Hi. apply select_incl in Hi.
    rewrite fst_combine_seq in Hi. apply in_seq in Hi. lia.
Qed.

Lemma topk_total (k : Z) (x : list F) :
  0 <= k <= len x -> exists idx, topk k x = inr idx.
Proof.
  intros H. unfold topk.
  destruct (Z.ltb_spec k 0); [lia |].
  destruct (Z.ltb_spec (len x) k); [lia |].
  simpl. eexists; reflexivity.
Qed.

End Selection.

Lemma insert_perm (i : nat) (l : list nat) : Permutation (i :: l) (insert i l).
Proof.
  induction l as [| j r IH]; simpl; [apply Permutation_refl |].
  destruct (i <=? j)%nat; [apply Permutation_refl |].
  apply Permutation_trans with (j :: i :: r); [apply perm_swap | apply perm_skip, IH].
Qed.

Lemma sort_perm (l : list nat) : Permutation l (sort l).
Proof.
  induction l as [| i l IH]; simpl; [constructor |].
  apply Permutation_trans with (i :: sort l); [apply perm_skip, IH | apply insert_perm].
Qed.

Lemma insert_sorted (i : nat) (l : list nat) :
  Sorted Nat.le l -> Sorted Nat.le (insert i l).
Proof.
  induction l as [| j r IH]; simpl; intros H.
  - repeat constructor.
  - destruct (Nat.leb_spec i j) as [Hij | Hij].
    + constructor; [exact H | constructor; exact Hij].
    + inversion H as [| a b Hr Hhd]; subst.
      constructor; [apply IH; exact Hr |].
      destruct r as [| j' r']; simpl.
      * constructor. unfold Nat.le; lia.
      * destruct (Nat.leb_spec i j'); constructor; unfold Nat.le in *.
        -- lia.
        -- inversion Hhd; assumption.
Qed.

Lemma sort_sorted (l : list nat) : Sorted Nat.le (sort l).
Proof.
  induction l as [| i l IH]; simpl; [constructor | apply insert_sorted, IH].
Qed.

Lemma len_sort (l : list nat) : len (sort l) = len l.
Proof.
  unfold len. rewrite <- (Permutation_length (sort_perm l)). reflexivity.
Qed.

(** A sorted list without repetition increases strictly. *)
Lemma sorted_NoDup_increasing (l : list nat) :
  Sorted Nat.le l -> NoDup l -> StronglySorted Nat.lt l.
Proof.
  intros Hs Hn.
  apply Sorted_StronglySorted in Hs; [| intros a b c; unfold Nat.le; lia].
  induction Hs as [| a l Hs IH Ha]; constructor.
  - apply IH. inversion Hn; assumption.
  - inversion Hn; subst. rewrite Forall_forall in *.
    intros b Hb. specialize (Ha b Hb). unfold Nat.le, Nat.lt in *.
    assert (a <> b) by (intros ->; contradiction). lia.
Qed.

Lemma sort_increasing (l : list nat) : NoDup l -> StronglySorted Nat.lt (sort l).
Proof.
  intros H. apply sorted_NoDup_increasing; [apply sort_sorted |].
  apply (Permutation_NoDup (sort_perm l)), H.
Qed.

(** ** Gathering the selected positions *)

Section Gather.

Context {F : Type} {SF : Scalar F}.

Lemma gather_inr (past rows : Matrix F) (idx : list nat) :
  gather past idx = inr rows ->
  Forall (fun i => (i < List.length past)%nat) idx /\
  rows = map (fun i => nth i past []) idx.
Proof.
  unfold gather. revert rows; induction idx as [| i idx IH]; simpl; intros rows H.
  - inversion H; auto.
  - bind_inv H. bind_inv H. inversion H; subst; clear H.
    destruct (IH _ E0) as [H1 H2]; subst.
    destruct (nth_error past i) as [row |] eqn:En; [| discriminate].
    inversion E; subst. split.
    + constructor; [| assumption]. apply nth_error_Some. congruence.
    + f_equal. symmetry. apply nth_error_nth, En.
Qed.

Lemma gather_total (past : Matrix F) (idx : list nat) :
  Forall (fun i => (i < List.length past)%nat) idx ->
  exists rows, gather past idx = inr rows.
Proof.
  intros H. unfold gather. apply mapM_total.
  revert H; apply Forall_impl. intros i Hi.
  destruct (nth_error past i) as [row |] eqn:En.
  - eexists; reflexivity.
  - apply nth_error_None in En. lia.
Qed.

Lemma gather_heads_inr (w : Z) (heads : list (Matrix F)) (ih : list (list nat))
    (pc : list (Matrix F)) :
  List.length ih = List.length heads ->
  mapM (fun q => gather (slice_to (- w) (fst q)) (snd q)) (combine heads ih) = inr pc ->
  map2 (@app (list F)) pc (map (slice_from (- w)) heads) =
    map2 (fun m ix => map (fun i => nth i (slice_to (- w) m) []) ix ++ slice_from (- w) m)
         heads ih /\
  Forall2 (fun m ix => Forall (fun i => (i < List.length (slice_to (- w) m))%nat) ix)
          heads ih.
Proof.
  revert ih pc; induction heads as [| m heads IH]; intros [| ix ih] pc Hl H;
    simpl in *; try discriminate.
  - inversion H; subst. split; [reflexivity | constructor].
  - bind_inv H. bind_inv H. inversion H; subst; clear H.
    apply gather_inr in E. destruct E as [E1 E2]; subst.
    destruct (IH ih a0 ltac:(lia) E0) as [H1 H2].
    simpl. split; [f_equal; exact H1 | constructor; assumption].
Qed.

Lemma gather_heads_total (w : Z) (heads : list (Matrix F)) (ih : list (list nat)) :
  Forall2 (fun m ix => Forall (fun i => (i < List.length (slice_to (- w) m))%nat) ix)
          heads ih ->
  exists pc,
    mapM (fun q => gather (slice_to (- w) (fst q)) (snd q)) (combine heads ih) = inr pc.
Proof.
  induction 1 as [| m ix heads ih Hm _ [pc Hpc]]; simpl.
  - eexists; reflexivity.
  - destruct (gather_total _ _ Hm) as [rows Hrows].
    rewrite Hrows; simpl. rewrite Hpc; simpl. eexists; reflexivity.
Qed.

Lemma gather_fit_inv (head_dim : Z) (states : Tensor4 F) (indices : list (list (list nat))) :
  gather_fit head_dim states indices = true ->
  List.length indices = List.length states /\
  Forall (fun p => List.length (snd p) = List.length (fst p)) (combine states indices).
Proof.
  unfold gather_fit. rewrite !andb_true_iff, Nat.eqb_eq.
  intros [[H1 H2] _]. split; [exact H1 |].
  apply Forall_forall. intros p Hp.
  rewrite forallb_forall in H2. apply Nat.eqb_eq, H2, Hp.
Qed.

(** What [gather_cat] returns is the cache that the specification describes. *)
Lemma gather_cat_inr (w head_dim : Z) (states out : Tensor4 F)
    (indices : list (list (list nat))) :
  gather_cat w head_dim states indices = inr out ->
  out = compressed_cache w states indices /\ historical w states indices.
Proof.
  unfold gather_cat.
  destruct (gather_fit head_dim states indices) eqn:Efit; simpl; [| discriminate].
  apply gather_fit_inv in Efit. destruct Efit as [Hl Hh].
  intros H. bind_inv H. inversion H; subst; clear H.
  unfold compressed_cache, historical, seq_from.
  revert indices a Hl Hh E.
  induction states as [| heads states IH]; intros [| ih indices] pc Hl Hh E;
    simpl in *; try discriminate.
  - inversion E; subst. split; [reflexivity | constructor].
  - bind_inv E. bind_inv E. inversion E; subst; clear E.
    inversion Hh; subst. simpl in *.
    destruct (gather_heads_inr w heads ih a H1 E0) as [G1 G2].
    destruct (IH indices a0 ltac:(lia) H2 E1) as [G3 G4].
    split; [f_equal; assumption | constructor; assumption].
Qed.

Lemma gather_cat_total (w head_dim : Z) (states : Tensor4 F)
    (indices : list (list (list nat))) :
  gather_fit head_dim states indices = true ->
  historical w states indices ->
  exists out, gather_cat w head_dim states indices = inr out.
Proof.
  intros Hfit Hh. unfold gather_cat. rewrite Hfit. simpl.
  assert (exists pc,
    mapM (fun p => mapM (fun q => gather (slice_to (- w) (fst q)) (snd q))
                        (combine (fst p) (snd p)))
         (combine states indices) = inr pc) as [pc Hpc].
  { clear Hfit. induction Hh as [| heads ih states indices Hm _ [pc Hpc]]; simpl.
    - eexists; reflexivity.
    - destruct (gather_heads_total w heads ih Hm) as [r Hr].
      rewrite Hr; simpl. rewrite Hpc; simpl.
      eexists; reflexivity. }
  rewrite Hpc. simpl. eexists; reflexivity.
Qed.

End Gather.

(** ** Shapes through [attn_cache] *)

Lemma Shape4_Shape3 {A : Type} (b h s d : Z) (t : Tensor4 A) :
  Shape4 b h s d t -> Shape3 b h s t.
Proof.
  intros [H1 H2]. split; [exact H1 |].
  revert H2; apply Forall_impl. intros x [Hx1 Hx2]. split; [exact Hx1 |].
  revert Hx2; apply Forall_impl. intros m [Hm _]. exact Hm.
Qed.

Lemma Rows_map2 {A B C : Type} (f : A -> B -> C) (P : A -> Prop) (Q : B -> Prop)
    (R : C -> Prop) (l1 : list A) (l2 : list B) :
  (forall x y, P x -> Q y -> R (f x y)) ->
  Forall P l1 -> Forall Q l2 -> Forall R (map2 f l1 l2).
Proof.
  intros Hf H1; revert l2; induction H1 as [| x l1 Hx _ IH]; intros l2 H2; simpl.
  - constructor.
  - destruct H2 as [| y l2 Hy H2]; constructor; auto.
Qed.

Lemma Shape3_map2 {A B C : Type} (f : list A -> list B -> list C) (b h q m : Z)
    (t1 : list (list (list A))) (t2 : list (list (list B))) :
  (forall x y, len x = q -> len y = q -> len (f x y) = m) ->
  Shape3 b h q t1 -> Shape3 b h q t2 -> Shape3 b h m (map2 (map2 f) t1 t2).
Proof.
  intros Hf [Hb1 H1] [Hb2 H2]. split; [rewrite len_map2; congruence |].
  apply Rows_map2 with (P := Rows h q) (Q := Rows h q); try assumption.
  intros x y [Hx1 Hx2] [Hy1 Hy2]. split; [rewrite len_map2; congruence |].
  apply Rows_map2 with (P := fun r => len r = q) (Q := fun r => len r = q); assumption.
Qed.

Lemma len_flat_map_repeat {A : Type} (n : nat) (l : list A) :
  List.length (flat_map (fun h => repeat h n) l) = (List.length l * n)%nat.
Proof.
  induction l as [| x xs IH]; simpl; [reflexivity |].
  rewrite length_app, repeat_length, IH. reflexivity.
Qed.

Lemma Forall_flat_map_repeat {A : Type} (P : A -> Prop) (n : nat) (l : list A) :
  Forall P l -> Forall P (flat_map (fun h => repeat h n) l).
Proof.
  induction 1 as [| x xs Hx _ IH]; simpl; [constructor |].
  apply Forall_app. split; [| exact IH].
  apply Forall_forall. intros y Hy. apply repeat_spec in Hy. subst. exact Hx.
Qed.

Lemma chunks_spec {A : Type} (P : A -> Prop) (fuel n : nat) (l : list A) :
  Forall P l -> List.length l = (fuel * n)%nat ->
  List.length (chunks fuel n l) = fuel /\
  Forall (fun g => List.length g = n /\ Forall P g) (chunks fuel n l).
Proof.
  revert l; induction fuel as [| fuel IH]; intros l HP Hl; simpl.
  - split; [reflexivity | constructor].
  - destruct (IH (skipn n l)) as [H1 H2].
    + apply Forall_forall. intros x Hx. rewrite Forall_forall in HP.
      apply HP. rewrite <- (firstn_skipn n l). apply in_or_app. right; exact Hx.
    + rewrite length_skipn. simpl in Hl. lia.
    + split; [congruence |]. constructor; [| exact H2]. split.
      * rewrite length_firstn. simpl in Hl. lia.
      * apply Forall_forall. intros x Hx. rewrite Forall_forall in HP.
        apply HP. rewrite <- (firstn_skipn n l). apply in_or_app. left; exact Hx.
Qed.

Section CacheShapes.

Context {F : Type} {SF : Scalar F}.

Lemma Shape3_repeat_kv (b h q r : Z) (t : Tensor4 F) :
  0 <= r -> Shape3 b h q t -> Shape3 b (h * r) q (repeat_kv t r).
Proof.
  intros Hr [Hb Ht]. unfold repeat_kv. split; [rewrite len_map; exact Hb |].
  apply Forall_map. revert Ht; apply Forall_impl. intros x [Hx1 Hx2]. split.
  - unfold len in *. rewrite len_flat_map_repeat. lia.
  - apply Forall_flat_map_repeat. exact Hx2.
Qed.

Lemma Rows_mean_over_rep (h r l : Z) (heads : Matrix F) :
  0 <= h -> 1 <= r -> Rows (h * r) l heads -> Rows h l (mean_over_rep h r heads).
Proof.
  intros Hh Hr [H1 H2]. unfold mean_over_rep.
  destruct (chunks_spec (fun s => len s = l) (Z.to_nat h) (Z.to_nat r) heads H2)
    as [C1 C2].
  { apply Nat2Z.inj. rewrite Nat2Z.inj_mul, !Z2Nat.id by lia. exact H1. }
  split; [rewrite len_map; unfold len; rewrite C1; lia |].
  apply Forall_map. revert C2; apply Forall_impl. intros g [G1 G2].
  rewrite len_map. apply len_sum_rows with (n := r); [lia |].
  split; [unfold len; rewrite G1; lia | exact G2].
Qed.

Lemma Rows_mapM (h m m' : Z) (pool : list F -> result (list F)) (x y : Matrix F) :
  (forall u v, pool u = inr v -> len u = m -> len v = m') ->
  mapM pool x = inr y -> Rows h m x -> Rows h m' y.
Proof.
  intros Hp E [Hx1 Hx2]. apply mapM_Forall2 in E.
  split; [unfold len in *; rewrite <- (Forall2_length_eq _ _ _ E); exact Hx1 |].
  clear Hx1. induction E as [| u v x y Huv _ IH]; [constructor |].
  inversion Hx2 as [| ? ? Hu Hx]; subst.
  constructor; [eapply Hp; [exact Huv | reflexivity] | apply IH; exact Hx].
Qed.

Lemma Shape3_mapM (b h m m' : Z) (pool : list F -> result (list F))
    (t t' : Tensor3 F) :
  (forall x y, pool x = inr y -> len x = m -> len y = m') ->
  mapM (mapM pool) t = inr t' -> Shape3 b h m t -> Shape3 b h m' t'.
Proof.
  intros Hp E [Hb Ht]. apply mapM_Forall2 in E.
  split; [unfold len in *; rewrite <- (Forall2_length_eq _ _ _ E); exact Hb |].
  clear Hb. induction E as [| x y t t' Hxy _ IH]; [constructor |].
  inversion Ht; subst. constructor; [| apply IH; assumption].
  eapply Rows_mapM; eassumption.
Qed.

Lemma scores_fit_inv (self : PyramidKVCluster) (bsz h q_len d : Z) (key query : Tensor4 F) :
  scores_fit self bsz h q_len d key query = true ->
  1 <= rep_factor self /\ Shape4 bsz h q_len d key /\
  Shape4 bsz (h * rep_factor self) q_len d query /\
  0 < window_size self <= q_len.
Proof.
  unfold scores_fit. rewrite !andb_true_iff, !has_shape4_Shape4, Z.leb_le, Z.ltb_lt, Z.leb_le.
  tauto.
Qed.

Lemma attn_cache_inr (self : PyramidKVCluster) (bsz h q_len d : Z)
    (key query : Tensor4 F) (cache : Tensor3 F) :
  attn_cache self bsz h q_len d key query = inr cache ->
  scores_fit self bsz h q_len d key query = true /\
  (exists pool : list F -> result (list F), pool_scores self = inr pool) /\
  Shape3 bsz h (cache_len self q_len) cache.
Proof.
  unfold attn_cache.
  destruct (scores_fit self bsz h q_len d key query) eqn:Efit; simpl; [| discriminate].
  intros H. split; [reflexivity |].
  apply scores_fit_inv in Efit. destruct Efit as (Hr & Hk & Hq & Hw).
  bind_inv H. bind_inv H. rename a into pool, a0 into pooled.
  split; [exists pool; exact E |].
  assert (Hsum : Shape3 bsz (h * rep_factor self) (q_len - window_size self)
            (map2 (map2 (head_scores (window_size self) d)) query
               match n_rep self with
               | Some r => repeat_kv key r
               | None => key
               end)).
  { apply Shape3_map2 with (q := q_len).
    - intros x y Hx Hy. apply len_head_scores; assumption.
    - eapply Shape4_Shape3; eassumption.
    - unfold rep_factor in *. destruct (n_rep self) as [r |].
      + apply Shape3_repeat_kv; [lia | eapply Shape4_Shape3; eassumption].
      + rewrite Z.mul_1_r. eapply Shape4_Shape3; eassumption. }
  assert (Hpool : Shape3 bsz (h * rep_factor self) (cache_len self q_len) pooled).
  { eapply Shape3_mapM; [| exact E0 | exact Hsum].
    intros x y Hy Hx. destruct (pool_scores_inr self pool E x y Hy) as [_ Hl].
    rewrite Hl, Hx. reflexivity. }
  inversion H; subst; clear H.
  unfold rep_factor in *. destruct (n_rep self) as [r |].
  - destruct Hpool as [Hb Hp]. split; [rewrite len_map; exact Hb |].
    apply Forall_map. revert Hp; apply Forall_impl. intros x Hx.
    apply Rows_mean_over_rep; [| exact Hr | exact Hx].
    destruct Hx as [Hx _]. pose proof (len_nonneg x). nia.
  - rewrite Z.mul_1_r in Hpool. exact Hpool.
Qed.

End CacheShapes.

(** ** The compressed cache *)

Section Compressed.

Context {F : Type} {SF : Scalar F}.

Lemma attn_cache_total (self : PyramidKVCluster) (bsz h q_len d : Z)
    (key query : Tensor4 F) :
  scores_fit self bsz h q_len d key query = true ->
  supported self -> 0 < kernel_size self -> window_size self < q_len ->
  exists cache, attn_cache self bsz h q_len d key query = inr cache.
Proof.
  intros Hfit Hsup Hks Hlt. unfold attn_cache. rewrite Hfit. simpl.
  apply scores_fit_inv in Hfit. destruct Hfit as (Hr & Hk & Hq & Hw).
  destruct (pool_scores_total (F := F) self Hsup) as (pool & Hpool & Htot).
  rewrite Hpool. simpl.
  assert (Hsum : Shape3 bsz (h * rep_factor self) (q_len - window_size self)
            (map2 (map2 (head_scores (window_size self) d)) query
               match n_rep self with
               | Some r => repeat_kv key r
               | None => key
               end)).
  { apply Shape3_map2 with (q := q_len).
    - intros x y Hx Hy. apply len_head_scores; assumption.
    - eapply Shape4_Shape3; eassumption.
    - unfold rep_factor in *. destruct (n_rep self) as [r |].
      + apply Shape3_repeat_kv; [lia | eapply Shape4_Shape3; eassumption].
      + rewrite Z.mul_1_r. eapply Shape4_Shape3; eassumption. }
  destruct (mapM_total (mapM pool)
              (map2 (map2 (head_scores (window_size self) d)) query
                 match n_rep self with
                 | Some r => repeat_kv key r
                 | None => key
                 end)) as [pooled Hpooled].
  { destruct Hsum as [_ Hsum]. revert Hsum; apply Forall_impl.
    intros x [_ Hx]. apply mapM_total. revert Hx; apply Forall_impl.
    intros s Hs. apply Htot. rewrite Hs. apply pool_check_half; lia. }
  rewrite Hpooled. simpl. eexists; reflexivity.
Qed.

Lemma Shape3_hd (b h l : Z) (t : Tensor3 F) (x : Matrix F) (s : list F) :
  Shape3 b h l t -> In x t -> In s x -> len (hd [] (hd [] t)) = l.
Proof.
  intros [_ Ht] Hx Hs.
  assert (Hh : 0 < h).
  { rewrite Forall_forall in Ht. destruct (Ht x Hx) as [Hlen _].
    destruct x; [contradiction | unfold len in Hlen; simpl in Hlen; lia]. }
  destruct t as [| y t]; [contradiction |].
  inversion Ht as [| ? ? [Hy1 Hy2] _]. simpl.
  destruct y as [| s0 y]; [unfold len in Hy1; simpl in Hy1; lia |].
  inversion Hy2 as [| ? ? Hs0 _]. exact Hs0.
Qed.

(** What [topk_indices] returns: for every head, [min(budget, l)] distinct
    positions below [l], the length of the score vectors. *)
Lemma topk_indices_inr (budget b h l : Z) (cache : Tensor3 F)
    (raw : list (list (list nat))) :
  Shape3 b h l cache ->
  topk_indices budget cache = inr raw ->
  Forall2 (fun x ih => List.length ih = List.length x) cache raw /\
  Forall (Forall (fun idx =>
            0 <= Z.min budget l /\ len idx = Z.min budget l /\ NoDup idx /\
            Forall (fun i => Z.of_nat i < l) idx)) raw.
Proof.
  intros Hs E. unfold topk_indices in E. apply mapM_Forall2 in E.
  assert (E' : Forall2 (fun x ih =>
            Forall2 (fun (s : list F) idx =>
              0 <= Z.min budget l /\ len idx = Z.min budget l /\ NoDup idx /\
              Forall (fun i => Z.of_nat i < l) idx) x ih) cache raw).
  { eapply Forall2_impl_in; [exact E |]. intros x ih Hx Hm. simpl in Hm.
    apply mapM_Forall2 in Hm.
    eapply Forall2_impl_in; [exact Hm |]. intros s idx Hsx Ht. simpl in Ht.
    rewrite (Shape3_hd b h l cache x s Hs Hx Hsx) in Ht.
    apply topk_inr in Ht. destruct Ht as (K1 & K2 & K3 & K4).
    destruct Hs as [_ Hs]. rewrite Forall_forall in Hs.
    destruct (Hs x Hx) as [_ Hrow]. rewrite Forall_forall in Hrow.
    specialize (Hrow s Hsx).
    repeat split; try assumption; try lia.
    revert K4; apply Forall_impl. intros i Hi. unfold len in Hrow. lia. }
  split.
  - eapply Forall2_impl_in; [exact E' |]. intros x ih _ H. simpl in H.
    symmetry. eapply Forall2_length_eq; exact H.
  - eapply Forall2_Forall_r; [exact E' |]. intros x ih _ H. simpl in H.
    eapply Forall2_Forall_r; [exact H |]. intros s idx _ H'. exact H'.
Qed.

Lemma topk_indices_total (budget b h l : Z) (cache : Tensor3 F) :
  Shape3 b h l cache -> 0 <= budget ->
  exists raw, topk_indices budget cache = inr raw.
Proof.
  intros Hs Hb. unfold topk_indices. apply mapM_total.
  apply Forall_forall. intros x Hx. apply mapM_total.
  apply Forall_forall. intros s Hsx. apply topk_total.
  rewrite (Shape3_hd b h l cache x s Hs Hx Hsx).
  destruct Hs as [_ Hs]. rewrite Forall_forall in Hs.
  destruct (Hs x Hx) as [_ Hrow]. rewrite Forall_forall in Hrow.
  rewrite (Hrow s Hsx). pose proof (len_nonneg s). rewrite (Hrow s Hsx) in H. lia.
Qed.

End Compressed.

Section CompressedCache.

Context {F : Type} {SF : Scalar F}.

Lemma compress_inr (w d budget : Z) (cache : Tensor3 F) (K V K' V' : Tensor4 F) :
  compress w d budget cache K V = inr (K', V') ->
  exists raw,
    topk_indices budget cache = inr raw /\
    K' = compressed_cache w K (map (map sort) raw) /\
    historical w K (map (map sort) raw) /\
    V' = compressed_cache w V (map (map sort) raw) /\
    historical w V (map (map sort) raw).
Proof.
  unfold compress. intros H.
  bind_inv H. bind_inv H. bind_inv H. inversion H; subst; clear H.
  apply gather_cat_inr in E0, E1.
  exists a. tauto.
Qed.

Lemma slice_from_short {A : Type} (w : Z) (l : list A) :
  0 < w -> len l < w -> slice_from (- w) l = l /\ slice_to (- w) l = [].
Proof.
  intros Hw Hl. unfold slice_from, slice_to, slice_bound.
  destruct (Z.ltb_spec (- w) 0); [| lia].
  replace (Z.to_nat (Z.max 0 (len l + - w))) with 0%nat by lia.
  split; reflexivity.
Qed.

Lemma slice_from_twice {A : Type} (w : Z) (l : list A) :
  0 < w -> slice_from (- w) (slice_from (- w) l) = slice_from (- w) l.
Proof.
  intros Hw. destruct (Z.le_gt_cases w (len l)) as [H | H].
  - apply slice_from_idem; lia.
  - destruct (slice_from_short w l Hw ltac:(lia)) as [E _]. rewrite !E. reflexivity.
Qed.

(** The window of a compressed cache is the window of the cache. *)
Lemma compressed_window (w : Z) (t : Tensor4 F) (indices : list (list (list nat))) :
  0 < w -> historical w t indices ->
  seq_from (- w) (compressed_cache w t indices) = seq_from (- w) t.
Proof.
  intros Hw Hh. unfold seq_from, compressed_cache.
  apply map_map2_eq.
  eapply Forall2_impl_in; [exact Hh |]. intros x ih Hx Hxi. simpl in Hxi.
  apply map_map2_eq.
  eapply Forall2_impl_in; [exact Hxi |]. intros m ix Hm Hb. simpl in Hb.
  destruct (Z.le_gt_cases w (len m)) as [H | H].
  - rewrite slice_from_app; [reflexivity | lia |].
    apply len_slice_from; lia.
  - destruct (slice_from_short w m Hw ltac:(lia)) as [E1 E2].
    rewrite E2 in Hb. simpl in Hb.
    destruct ix as [| i ix]; [| inversion Hb; lia].
    simpl. apply slice_from_twice, Hw.
Qed.

(** The compressed cache holds the selected positions and the window. *)
Lemma compressed_len (w q k : Z) (t : Tensor4 F) (indices : list (list (list nat))) :
  0 < w <= q -> Forall (Forall (fun m => len m = q)) t ->
  Forall (Forall (fun ix => len ix = k)) indices ->
  historical w t indices ->
  all_seq_len (k + w) (compressed_cache w t indices).
Proof.
  intros Hw Ht Hi Hh. unfold all_seq_len, compressed_cache.
  apply map2_Forall.
  eapply Forall2_impl_in2; [exact Hh |]. intros x ih Hx Hih Hxi. simpl in Hxi.
  apply map2_Forall.
  eapply Forall2_impl_in2; [exact Hxi |]. intros m ix Hm Hix _. simpl.
  rewrite Forall_forall in Ht, Hi. specialize (Ht x Hx). specialize (Hi ih Hih).
  rewrite Forall_forall in Ht, Hi. specialize (Ht m Hm). specialize (Hi ix Hix).
  rewrite len_app, len_map, len_slice_from by lia. lia.
Qed.

End CompressedCache.

(** ** The orchestrator, case by case *)

Section Orchestrator.

Context {F : Type} {SF : Scalar F}.

Lemma update_kv_inr (self : PyramidKVCluster) (K Q V K' V' : Tensor4 F)
    (cap : option Z) :
  update_kv self K Q V cap = inr (K', V') ->
  let cmc := current_max_capacity self cap in
  let w := window_size self in
  let q_len := seq_len K in
  seq_len Q = q_len /\
  exists sched, schedule self cmc q_len = inr sched /\
  match regime self cmc q_len with
  | PASSTHROUGH => K' = K /\ V' = V
  | r =>
      exists bsz h d cache,
        attn_cache self bsz h q_len d K Q = inr cache /\
        if cmc <=? w then K' = seq_from (- w) K /\ V' = seq_from (- w) V
        else compress w d (budget r self cmc sched) cache K V = inr (K', V')
  end.
Proof.
  intros H cmc w q_len. unfold update_kv in H.
  bind_inv H. apply assert_inr, Z.eqb_eq in E. fold q_len in E.
  split; [symmetry; exact E |].
  assert (Hq : (let '(_, _, s, _) :=
                  match n_rep self with
                  | Some _ => shape4 K
                  | None => shape4 Q
                  end in s) = q_len).
  { destruct (n_rep self); unfold shape4; [reflexivity | symmetry; exact E]. }
  destruct (match n_rep self with
            | Some _ => shape4 K
            | None => shape4 Q
            end) as [[[bsz h] s] d].
  subst s. fold cmc w in H.
  bind_inv H. rename a0 into sched. exists sched. split; [exact E0 |].
  unfold regime. fold w.
  destruct (q_len <? cmc).
  - inversion H; subst; auto.
  - destruct (q_len <? (cmc - w) * 2).
    + bind_inv H. exists bsz, h, d, a0. split; [exact E1 |].
      destruct (cmc <=? w); [inversion H; subst; auto | exact H].
    + bind_inv H. exists bsz, h, d, a0. split; [exact E1 |].
      destruct (cmc <=? w); [inversion H; subst; auto | exact H].
Qed.

End Orchestrator.

(** ** The capacity schedule *)

Lemma schedule_inr (self : PyramidKVCluster) (cmc q_len : Z) (s : Schedule) :
  schedule self cmc q_len = inr s ->
  beta self <> 0 /\ num_hidden_layers self <> 1 /\
  exists i, layer_idx self = Some i /\
            steps s = (max_num s - min_num s) / (num_hidden_layers self - 1) /\
            layer_budget s = max_num s - i * steps s.
Proof.
  unfold schedule. intros H.
  bind_inv H. apply floordiv_inr in E. destruct E as [Hb _].
  destruct (_ >=? _); bind_inv H; apply floordiv_inr in E; destruct E as [Hn E];
    bind_inv H; (destruct (layer_idx self) as [i |]; [| discriminate]);
    inversion E0; subst; inversion H; subst; simpl;
    (split; [exact Hb |]); (split; [lia |]); exists a1; auto.
Qed.

Lemma schedule_total (self : PyramidKVCluster) (cmc q_len i : Z) :
  beta self <> 0 -> num_hidden_layers self <> 1 -> layer_idx self = Some i ->
  exists s, schedule self cmc q_len = inr s.
Proof.
  intros Hb Hn Hi. unfold schedule.
  rewrite floordiv_ok by exact Hb. simpl.
  destruct (_ >=? _); rewrite floordiv_ok by lia; simpl; rewrite Hi; simpl;
    eexists; reflexivity.
Qed.

(** With at least two layers, [beta >= 1], a capacity above the window and a
    sequence that does not pass through: the bounds are ordered, the step is not
    negative, and every layer of the network gets a budget between them. *)
Lemma schedule_valid (self : PyramidKVCluster) (cmc q_len : Z) (s : Schedule) (i : Z) :
  schedule self cmc q_len = inr s -> layer_idx self = Some i ->
  2 <= num_hidden_layers self -> 1 <= beta self ->
  window_size self < cmc -> cmc <= q_len ->
  0 <= min_num s <= max_num s /\ max_num s <= q_len - window_size self /\
  0 <= steps s /\ layer_budget s = max_num s - i * steps s /\
  (0 <= i <= num_hidden_layers self - 1 -> min_num s <= layer_budget s <= max_num s).
Proof.
  intros H Hi Hn Hb Hw Hq.
  destruct (schedule_inr self cmc q_len s H) as (_ & _ & i' & Hi' & Hst & Hlb).
  rewrite Hi in Hi'. inversion Hi'; subst i'; clear Hi'.
  unfold schedule in H. rewrite floordiv_ok in H by lia. simpl in H.
  pose proof (Z.div_pos (cmc - window_size self) (beta self) ltac:(lia) ltac:(lia)) as D0.
  assert (D1 : (cmc - window_size self) / beta self <= cmc - window_size self)
    by (apply Z.div_le_upper_bound; nia).
  assert (Hmm : 0 <= min_num s <= max_num s /\ max_num s <= q_len - window_size self).
  { destruct (Z.geb_spec ((cmc - window_size self) * 2
                            - (cmc - window_size self) / beta self)
                         (q_len - window_size self));
      rewrite floordiv_ok in H by lia; simpl in H; rewrite Hi in H; simpl in H;
      inversion H; subst; simpl; lia. }
  clear H. destruct Hmm as [Hm1 Hm2].
  pose proof (Z.div_pos (max_num s - min_num s) (num_hidden_layers self - 1)
                ltac:(lia) ltac:(lia)) as S0.
  pose proof (Z.mul_div_le (max_num s - min_num s) (num_hidden_layers self - 1)
                ltac:(lia)) as S1.
  rewrite <- Hst in S0, S1.
  repeat split; try lia; intros; nia.
Qed.

(** ** A compressing call, step by step *)

Section Compressing.

Context {F : Type} {SF : Scalar F}.

Lemma Forall_map_map {A B : Type} (f : A -> B) (P : B -> Prop) (l : list (list A)) :
  Forall (Forall (fun x => P (f x))) l -> Forall (Forall P) (map (map f) l).
Proof.
  intros H. apply Forall_map. revert H; apply Forall_impl.
  intros x Hx. apply Forall_map. exact Hx.
Qed.

Lemma Shape4_seq_len (b h q d : Z) (t : Tensor4 F) :
  Shape4 b h q d t -> Forall (Forall (fun m => len m = q)) t.
Proof.
  intros [_ H]. revert H; apply Forall_impl. intros x [_ Hx].
  revert Hx; apply Forall_impl. intros m [Hm _]. exact Hm.
Qed.

(** Everything that a returning call above the window has done: the schedule
    and the smoothed scores were computed, [topk] chose the positions [raw],
    distinct positions of the score vectors, and both outputs are the sorted
    selection followed by the window. *)
Lemma update_kv_selection (self : PyramidKVCluster) (K Q V K' V' : Tensor4 F)
    (cap : option Z) :
  let cmc := current_max_capacity self cap in
  let w := window_size self in
  let q_len := seq_len K in
  update_kv self K Q V cap = inr (K', V') ->
  regime self cmc q_len <> PASSTHROUGH -> w < cmc ->
  exists sched bsz h d cache raw,
    schedule self cmc q_len = inr sched /\
    attn_cache self bsz h q_len d K Q = inr cache /\
    topk_indices (budget (regime self cmc q_len) self cmc sched) cache = inr raw /\
    0 < w <= q_len /\
    all_seq_len q_len K /\
    Forall (Forall (fun idx =>
      let k := Z.min (budget (regime self cmc q_len) self cmc sched)
                     (cache_len self q_len) in
      0 <= k /\ len idx = k /\ NoDup idx /\
      Forall (fun i => Z.of_nat i < cache_len self q_len) idx)) raw /\
    K' = compressed_cache w K (map (map sort) raw) /\
    historical w K (map (map sort) raw) /\
    V' = compressed_cache w V (map (map sort) raw) /\
    historical w V (map (map sort) raw).
Proof.
  intros cmc w q_len H Hr Hw.
  apply update_kv_inr in H. fold cmc w q_len in H.
  destruct H as (_ & sched & Hs & H).
  assert (H' : exists bsz h d cache,
            attn_cache self bsz h q_len d K Q = inr cache /\
            compress w d (budget (regime self cmc q_len) self cmc sched) cache K V
              = inr (K', V')).
  { destruct (Z.leb_spec cmc w); [lia |].
    destruct (regime self cmc q_len); [congruence | exact H | exact H]. }
  clear H. destruct H' as (bsz & h & d & cache & Hc & Hcomp).
  apply attn_cache_inr in Hc as Hc'. destruct Hc' as (Hfit & _ & Hshape).
  apply scores_fit_inv in Hfit. destruct Hfit as (_ & HK & _ & Hwq).
  apply compress_inr in Hcomp.
  destruct Hcomp as (raw & Hraw & HK' & HhK & HV' & HhV).
  destruct (topk_indices_inr _ _ _ _ _ _ Hshape Hraw) as [_ Hidx].
  exists sched, bsz, h, d, cache, raw. repeat split; try assumption; try lia.
  eapply Shape4_seq_len; exact HK.
Qed.

Lemma update_kv_compressing (self : PyramidKVCluster) (K Q V K' V' : Tensor4 F)
    (cap : option Z) :
  let cmc := current_max_capacity self cap in
  let w := window_size self in
  let q_len := seq_len K in
  update_kv self K Q V cap = inr (K', V') ->
  regime self cmc q_len <> PASSTHROUGH -> w < cmc ->
  exists sched raw,
    schedule self cmc q_len = inr sched /\
    0 < w <= q_len /\
    all_seq_len q_len K /\
    Forall (Forall (fun idx =>
      let k := Z.min (budget (regime self cmc q_len) self cmc sched)
                     (cache_len self q_len) in
      0 <= k /\ len idx = k /\ NoDup idx /\
      Forall (fun i => Z.of_nat i < cache_len self q_len) idx)) raw /\
    K' = compressed_cache w K (map (map sort) raw) /\
    historical w K (map (map sort) raw) /\
    V' = compressed_cache w V (map (map sort) raw) /\
    historical w V (map (map sort) raw).
Proof.
  intros cmc w q_len H Hr Hw.
  destruct (update_kv_selection self K Q V K' V' cap H Hr Hw)
    as (sched & bsz & h & d & cache & raw & H1 & _ & _ & H2).
  exists sched, raw. split; assumption.
Qed.

End Compressing.

(** ** Calls that return *)

Lemma Forall2_of_Forall {A B : Type} (P : A -> Prop) (Q : B -> Prop)
    (l : list A) (l' : list B) :
  List.length l = List.length l' -> Forall P l -> Forall Q l' ->
  Forall2 (fun x y => P x /\ Q y) l l'.
Proof.
  revert l'; induction l as [| x l IH]; intros [| y l'] Hl HP HQ; simpl in Hl;
    try discriminate; constructor.
  - inversion HP; inversion HQ; auto.
  - inversion HP; inversion HQ; subst. apply IH; auto.
Qed.

Lemma NoDup_bounded_length (n : nat) (l : list nat) :
  NoDup l -> Forall (fun i => (i < n)%nat) l -> (List.length l <= n)%nat.
Proof.
  intros Hn Hb.
  replace n with (List.length (seq 0 n)) by apply length_seq.
  apply NoDup_incl_length; [exact Hn |].
  intros i Hi. rewrite Forall_forall in Hb. apply in_seq. specialize (Hb i Hi). lia.
Qed.

Section Returning.

Context {F : Type} {SF : Scalar F}.

Lemma shape4_read (b h q d : Z) (t : Tensor4 F) :
  has_shape4 b h q d t = true -> 0 < b -> 0 < h -> 0 < q ->
  shape4 t = (b, h, q, d).
Proof.
  intros H Hb Hh Hq. apply has_shape4_Shape4 in H. destruct H as [H1 H2].
  unfold shape4.
  destruct t as [| x t]; [unfold len in H1; simpl in H1; lia |].
  inversion H2 as [| ? ? [Hx1 Hx2] _]; subst. simpl.
  destruct x as [| m x]; [unfold len in Hh; simpl in Hh; lia |].
  inversion Hx2 as [| ? ? [Hm1 Hm2] _]; subst. simpl.
  destruct m as [| v m]; [unfold len in Hq; simpl in Hq; lia |].
  inversion Hm2; subst. simpl. reflexivity.
Qed.

Lemma seq_len_read (b h q d : Z) (t : Tensor4 F) :
  has_shape4 b h q d t = true -> 0 < b -> 0 < h -> 0 < q -> seq_len t = q.
Proof.
  intros H Hb Hh Hq. pose proof (shape4_read b h q d t H Hb Hh Hq) as E.
  unfold shape4 in E. unfold seq_len. congruence.
Qed.

(** The shape that [update_kv] reads for its operands, and its consequences. *)
Lemma update_kv_shaped (self : PyramidKVCluster) (K Q V : Tensor4 F) (cap : option Z)
    (b h q d : Z) :
  has_shape4 b h q d K = true ->
  has_shape4 b (h * rep_factor self) q d Q = true ->
  0 < b -> 0 < h -> 0 < q -> 1 <= rep_factor self ->
  update_kv self K Q V cap =
    (let w := window_size self in
     let cmc := current_max_capacity self cap in
     do sched <- schedule self cmc q;
     if q <? cmc then ret (K, V)
     else if q <? (cmc - w) * 2 then
       do cache <- attn_cache self b h q d K Q;
       if cmc <=? w then ret (seq_from (- w) K, seq_from (- w) V)
       else compress w d (cmc - w) cache K V
     else
       do cache <- attn_cache self b h q d K Q;
       if cmc <=? w then ret (seq_from (- w) K, seq_from (- w) V)
       else compress w d (layer_budget sched) cache K V).
Proof.
  intros HK HQ Hb Hh Hq Hr. unfold update_kv.
  rewrite (seq_len_read b h q d K HK Hb Hh Hq).
  rewrite (seq_len_read b (h * rep_factor self) q d Q HQ Hb ltac:(nia) Hq).
  rewrite Z.eqb_refl. simpl.
  assert (E : match n_rep self with
              | Some _ => shape4 K
              | None => shape4 Q
              end = (b, h, q, d)).
  { unfold rep_factor in *. destruct (n_rep self).
    - apply shape4_read; assumption.
    - rewrite Z.mul_1_r in HQ. apply shape4_read; assumption. }
  rewrite E. reflexivity.
Qed.

Lemma gather_fit_true (b h q d : Z) (V : Tensor4 F) (indices : list (list (list nat))) :
  has_shape4 b h q d V = true ->
  Forall2 (fun x ih => List.length ih = List.length x) V indices ->
  gather_fit d V indices = true.
Proof.
  intros HV Hl. unfold gather_fit. rewrite !andb_true_iff. repeat split.
  - apply Nat.eqb_eq. symmetry. eapply Forall2_length_eq; exact Hl.
  - apply forallb_forall. intros p Hp. apply Nat.eqb_eq.
    clear HV. induction Hl as [| x ih V indices Hx _ IH]; simpl in Hp; [contradiction |].
    destruct Hp as [<- | Hp]; [exact Hx | apply IH, Hp].
  - apply has_shape4_Shape4 in HV. destruct HV as [_ HV].
    apply forallb_forall. intros x Hx. rewrite Forall_forall in HV.
    destruct (HV x Hx) as [_ Hx2].
    apply forallb_forall. intros m Hm. rewrite Forall_forall in Hx2.
    destruct (Hx2 m Hm) as [_ Hm2].
    apply forallb_forall. intros v Hv. rewrite Forall_forall in Hm2.
    apply Z.eqb_eq, Hm2, Hv.
Qed.

(** Positions below the length of the history are historical positions of a
    cache of the same batch and head counts. *)
Lemma historical_intro (w b h q d l : Z) (t : Tensor4 F) (cache : Tensor3 F)
    (indices : list (list (list nat))) :
  has_shape4 b h q d t = true -> Shape3 b h l cache ->
  0 < w <= q -> l <= q - w ->
  Forall2 (fun x ih => List.length ih = List.length x) cache indices ->
  Forall (Forall (Forall (fun i => Z.of_nat i < l))) indices ->
  Forall2 (fun x ih => List.length ih = List.length x) t indices /\
  historical w t indices.
Proof.
  intros Ht [Hc1 Hc2] Hw Hl Hlen Hidx.
  apply has_shape4_Shape4 in Ht. destruct Ht as [Ht1 Ht2].
  assert (Hb : List.length t = List.length indices).
  { rewrite <- (Forall2_length_eq _ _ _ Hlen). unfold len in *. lia. }
  assert (Hh : Forall (fun ih => len ih = h) indices).
  { eapply Forall2_Forall_r; [exact Hlen |]. intros x ih Hx E. simpl in E.
    rewrite Forall_forall in Hc2. destruct (Hc2 x Hx) as [Hx1 _].
    unfold len in *. lia. }
  pose proof (Forall2_of_Forall _ _ t indices Hb Ht2 (Forall_and Hh Hidx)) as H2.
  split.
  - eapply Forall2_impl_in; [exact H2 |]. intros x ih _ [[Hx _] [Hi _]].
    unfold len in *. lia.
  - unfold historical.
    eapply Forall2_impl_in; [exact H2 |]. intros x ih _ [[Hx1 Hx2] [Hi1 Hi2]].
    assert (Hxl : List.length x = List.length ih) by (unfold len in *; lia).
    pose proof (Forall2_of_Forall _ _ x ih Hxl Hx2 Hi2) as H3.
    eapply Forall2_impl_in; [exact H3 |]. intros m ix _ [[Hm _] Hix].
    revert Hix; apply Forall_impl. intros i Hi.
    pose proof (len_slice_to w m ltac:(lia)) as E. unfold len in *. lia.
Qed.

End Returning.

Section ReturningCompress.

Context {F : Type} {SF : Scalar F}.

Lemma compress_total (w d bud b h q l : Z) (cache : Tensor3 F) (K V : Tensor4 F) :
  has_shape4 b h q d K = true -> has_shape4 b h q d V = true ->
  Shape3 b h l cache -> 0 < w <= q -> l <= q - w -> 0 <= bud ->
  exists K' V', compress w d bud cache K V = inr (K', V').
Proof.
  intros HK HV Hc Hw Hl Hb.
  destruct (topk_indices_total bud b h l cache Hc Hb) as [raw Hraw].
  destruct (topk_indices_inr bud b h l cache raw Hc Hraw) as [Hlen Hidx].
  set (indices := map (map sort) raw).
  assert (Hlen' : Forall2 (fun x ih => List.length ih = List.length x) cache indices).
  { unfold indices. clear -Hlen. induction Hlen; simpl; constructor; [| assumption].
    rewrite length_map. assumption. }
  assert (Hidx' : Forall (Forall (Forall (fun i => Z.of_nat i < l))) indices).
  { unfold indices. apply Forall_map_map. revert Hidx; apply Forall_impl.
    intros ih. apply Forall_impl. intros idx (_ & _ & _ & H).
    apply (Permutation_Forall (sort_perm idx)), H. }
  destruct (historical_intro w b h q d l K cache indices HK Hc Hw Hl Hlen' Hidx')
    as [HK1 HK2].
  destruct (historical_intro w b h q d l V cache indices HV Hc Hw Hl Hlen' Hidx')
    as [HV1 HV2].
  destruct (gather_cat_total w d K indices (gather_fit_true b h q d K indices HK HK1) HK2)
    as [K' HK'].
  destruct (gather_cat_total w d V indices (gather_fit_true b h q d V indices HV HV1) HV2)
    as [V' HV'].
  exists K', V'. unfold compress. rewrite Hraw. simpl.
  fold indices. rewrite HK'. simpl. rewrite HV'. reflexivity.
Qed.

(** A well-shaped call that does not pass through returns: with a capacity of
    at most the window it returns the window, and above the window it returns
    whenever the kernel is odd and the budget of the regime is not negative. *)
Lemma update_kv_returns (self : PyramidKVCluster) (K Q V : Tensor4 F) (cap : option Z)
    (b h q d : Z) (sched : Schedule) :
  let cmc := current_max_capacity self cap in
  let w := window_size self in
  has_shape4 b h q d K = true ->
  has_shape4 b (h * rep_factor self) q d Q = true ->
  0 < b -> 0 < h -> 1 <= rep_factor self ->
  supported self -> 0 < kernel_size self ->
  0 < w < q -> cmc <= q ->
  schedule self cmc q = inr sched ->
  (cmc <= w -> update_kv self K Q V cap = inr (seq_from (- w) K, seq_from (- w) V)) /\
  (w < cmc -> has_shape4 b h q d V = true -> Z.odd (kernel_size self) = true ->
   0 <= budget (regime self cmc q) self cmc sched ->
   exists K' V', update_kv self K Q V cap = inr (K', V')).
Proof.
  intros cmc w. subst cmc w. intros HK HQ Hb Hh Hr Hsup Hks Hw Hq Hs.
  rewrite (update_kv_shaped self K Q V cap b h q d HK HQ Hb Hh ltac:(lia) Hr).
  cbv zeta. rewrite Hs. simpl.
  assert (Hfit : scores_fit self b h q d K Q = true).
  { unfold scores_fit. rewrite HK, HQ. simpl.
    rewrite !andb_true_iff, Z.leb_le, Z.ltb_lt, Z.leb_le. lia. }
  destruct (attn_cache_total self b h q d K Q Hfit Hsup Hks ltac:(lia))
    as [cache Hcache].
  destruct (Z.ltb_spec q (current_max_capacity self cap)); [lia |].
  split.
  - intros Hc. destruct (Z.leb_spec (current_max_capacity self cap) (window_size self));
      [| lia].
    destruct (q <? _); rewrite Hcache; reflexivity.
  - intros Hc HV Hodd Hbud.
    destruct (Z.leb_spec (current_max_capacity self cap) (window_size self)); [lia |].
    apply attn_cache_inr in Hcache as Hshape. destruct Hshape as (_ & _ & Hshape).
    assert (Hl : cache_len self q <= q - window_size self).
    { unfold cache_len. rewrite pool_out_len_odd by exact Hodd. lia. }
    unfold regime, budget in Hbud.
    destruct (Z.ltb_spec q (current_max_capacity self cap)); [lia |].
    destruct (q <? _); rewrite Hcache; simpl;
      eapply compress_total; try eassumption; lia.
Qed.

End ReturningCompress.

(** ** Lengths of the compressed cache *)

Section Lengths.

Context {F : Type} {SF : Scalar F}.

Lemma compressed_cache_Forall (w : Z) (A P : Matrix F -> Prop) (B : list nat -> Prop)
    (t : Tensor4 F) (indices : list (list (list nat))) :
  (forall m ix, A m -> B ix ->
     Forall (fun i => (i < List.length (slice_to (- w) m))%nat) ix ->
     P (map (fun i => nth i (slice_to (- w) m) []) ix ++ slice_from (- w) m)) ->
  Forall (Forall A) t -> Forall (Forall B) indices -> historical w t indices ->
  Forall (Forall P) (compressed_cache w t indices).
Proof.
  intros HP Ht Hi Hh. unfold compressed_cache.
  apply map2_Forall.
  eapply Forall2_impl_in2; [exact Hh |]. intros x ih Hx Hih Hxi. simpl in Hxi.
  apply map2_Forall.
  eapply Forall2_impl_in2; [exact Hxi |]. intros m ix Hm Hix Hb. simpl in Hb.
  rewrite Forall_forall in Ht, Hi. specialize (Ht x Hx). specialize (Hi ih Hih).
  rewrite Forall_forall in Ht, Hi. apply HP; auto.
Qed.

Lemma compressed_shape (w b h q k : Z) (t : Tensor4 F) (indices : list (list (list nat))) :
  0 < w <= q -> Shape3 b h q t ->
  Forall (Forall (fun ix => len ix = k)) indices ->
  historical w t indices ->
  Shape3 b h (k + w) (compressed_cache w t indices).
Proof.
  intros Hw [Hb Ht] Hi Hh. unfold compressed_cache. split.
  - rewrite len_map2; [exact Hb |]. unfold len.
    rewrite (Forall2_length_eq _ _ _ Hh). reflexivity.
  - apply map2_Forall.
    eapply Forall2_impl_in2; [exact Hh |]. intros x ih Hx Hih Hxi. simpl in Hxi.
    rewrite Forall_forall in Ht, Hi. specialize (Ht x Hx). specialize (Hi ih Hih).
    destruct Ht as [Hx1 Hx2]. split.
    + rewrite len_map2; [exact Hx1 |]. unfold len.
      rewrite (Forall2_length_eq _ _ _ Hxi). reflexivity.
    + apply map2_Forall.
      eapply Forall2_impl_in2; [exact Hxi |]. intros m ix Hm Hix _. simpl.
      rewrite Forall_forall in Hx2, Hi. specialize (Hx2 m Hm). specialize (Hi ix Hix).
      rewrite len_app, len_map, len_slice_from by lia. lia.
Qed.

Lemma sorted_lengths (k l : Z) (raw : list (list (list nat))) :
  Forall (Forall (fun idx =>
    0 <= k /\ len idx = k /\ NoDup idx /\ Forall (fun i => Z.of_nat i < l) idx)) raw ->
  Forall (Forall (fun ix => len ix = k /\ NoDup ix)) (map (map sort) raw).
Proof.
  intros H. apply Forall_map_map. revert H; apply Forall_impl.
  intros ih. apply Forall_impl. intros idx (_ & H1 & H2 & _).
  split; [rewrite len_sort; exact H1 |].
  apply (Permutation_NoDup (sort_perm idx)), H2.
Qed.

Lemma Forall2_weaken {A : Type} (P Q : A -> Prop) (t : list (list A)) :
  (forall x, P x -> Q x) -> Forall (Forall P) t -> Forall (Forall Q) t.
Proof.
  intros H. apply Forall_impl. intros x. apply Forall_impl. exact H.
Qed.

(** The lengths of what a compressing call returns: the number [k] of selected
    positions plus the window, and never more than came in. *)
Lemma update_kv_lengths (self : PyramidKVCluster) (K Q V K' V' : Tensor4 F)
    (cap : option Z) (sched : Schedule) :
  let cmc := current_max_capacity self cap in
  let w := window_size self in
  let q_len := seq_len K in
  let k := Z.min (budget (regime self cmc q_len) self cmc sched) (cache_len self q_len) in
  update_kv self K Q V cap = inr (K', V') ->
  regime self cmc q_len <> PASSTHROUGH -> w < cmc ->
  all_seq_len q_len V ->
  schedule self cmc q_len = inr sched ->
  all_seq_len (k + w) K' /\ all_seq_len (k + w) V' /\
  all_seq_le q_len K' /\ all_seq_le q_len V'.
Proof.
  intros cmc w q_len k. subst cmc w q_len k. intros H Hr Hw HV Hs.
  destruct (update_kv_compressing self K Q V K' V' cap H Hr Hw)
    as (sched' & raw & Hs' & Hwq & HK & Hraw & HK' & HhK & HV' & HhV).
  rewrite Hs in Hs'. inversion Hs'; subst sched'; clear Hs'.
  cbv zeta in Hraw. apply sorted_lengths in Hraw.
  subst K' V'. repeat split.
  - eapply compressed_len; try eassumption.
    revert Hraw; apply Forall2_weaken. tauto.
  - eapply compressed_len; try eassumption.
    revert Hraw; apply Forall2_weaken. tauto.
  - unfold all_seq_le.
    eapply compressed_cache_Forall with (A := fun m => len m = seq_len K)
      (B := fun ix => NoDup ix); [| exact HK | | exact HhK].
    + intros m ix Hm Hn Hb.
      pose proof (NoDup_bounded_length _ ix Hn Hb) as Hle.
      pose proof (len_slice_to (window_size self) m ltac:(lia)) as E.
      rewrite len_app, len_map, len_slice_from by lia. unfold len in *. lia.
    + revert Hraw; apply Forall2_weaken. tauto.
  - unfold all_seq_le.
    eapply compressed_cache_Forall with (A := fun m => len m = seq_len K)
      (B := fun ix => NoDup ix); [| exact HV | | exact HhV].
    + intros m ix Hm Hn Hb.
      pose proof (NoDup_bounded_length _ ix Hn Hb) as Hle.
      pose proof (len_slice_to (window_size self) m ltac:(lia)) as E.
      rewrite len_app, len_map, len_slice_from by lia. unfold len in *. lia.
    + revert Hraw; apply Forall2_weaken. tauto.
Qed.

End Lengths.

(** * The claims *)

Section Claims.

Context {F : Type} {SF : Scalar F}.

(** The schedule is computed before the regime is chosen, so no call returns
    unless its arithmetic is defined. *)
Lemma update_kv_schedule_first (self : PyramidKVCluster) (K Q V : Tensor4 F)
    (cap : option Z) (e : exn) :
  seq_len K = seq_len Q ->
  schedule self (current_max_capacity self cap) (seq_len K) = inl e ->
  update_kv self K Q V cap = inl e.
Proof.
  intros Hlen Hs. unfold update_kv. rewrite Hlen, Z.eqb_refl. simpl.
  assert (Hq : (let '(_, _, s, _) :=
                  match n_rep self with
                  | Some _ => shape4 K
                  | None => shape4 Q
                  end in s) = seq_len K).
  { destruct (n_rep self); unfold shape4; [reflexivity | symmetry; exact Hlen]. }
  destruct (match n_rep self with
            | Some _ => shape4 K
            | None => shape4 Q
            end) as [[[bsz h] s] d].
  subst s. rewrite Hs. reflexivity.
Qed.

Lemma update_kv_passthrough (self : PyramidKVCluster) (K Q V : Tensor4 F)
    (cap : option Z) (sched : Schedule) :
  seq_len K = seq_len Q ->
  schedule self (current_max_capacity self cap) (seq_len K) = inr sched ->
  seq_len K < current_max_capacity self cap ->
  update_kv self K Q V cap = inr (K, V).
Proof.
  intros Hlen Hs Hlt. unfold update_kv. rewrite Hlen, Z.eqb_refl. simpl.
  assert (Hq : (let '(_, _, s, _) :=
                  match n_rep self with
                  | Some _ => shape4 K
                  | None => shape4 Q
                  end in s) = seq_len K).
  { destruct (n_rep self); unfold shape4; [reflexivity | symmetry; exact Hlen]. }
  destruct (match n_rep self with
            | Some _ => shape4 K
            | None => shape4 Q
            end) as [[[bsz h] s] d].
  subst s. rewrite Hs. simpl.
  destruct (Z.ltb_spec (seq_len K) (current_max_capacity self cap)); [reflexivity | lia].
Qed.

(** C5 (as amended).  When the schedule arithmetic is defined ([beta] is not
    zero, the network has not exactly one layer, [layer_idx] is set), a call
    whose key and query lengths agree and lie below [current_max_capacity]
    returns its key and value tensors unchanged.  Consequently a second call
    with the same configuration on the output of any call that returned, when
    that output is shorter than [current_max_capacity], changes nothing. *)
Theorem passthrough_identity (self : PyramidKVCluster) (cap : option Z) :
  (forall (K Q V : Tensor4 F) (i : Z),
     seq_len K = seq_len Q ->
     beta self <> 0 -> num_hidden_layers self <> 1 -> layer_idx self = Some i ->
     seq_len K < current_max_capacity self cap ->
     update_kv self K Q V cap = inr (K, V)) /\
  (forall (K0 Q0 V0 K1 V1 Q1 : Tensor4 F),
     update_kv self K0 Q0 V0 cap = inr (K1, V1) ->
     seq_len K1 = seq_len Q1 ->
     seq_len K1 < current_max_capacity self cap ->
     update_kv self K1 Q1 V1 cap = inr (K1, V1)).
Proof.
  split.
  - intros K Q V i Hlen Hb Hn Hi Hlt.
    destruct (schedule_total self (current_max_capacity self cap) (seq_len K) i Hb Hn Hi)
      as [sched Hs].
    eapply update_kv_passthrough; eassumption.
  - intros K0 Q0 V0 K1 V1 Q1 H0 Hlen Hlt.
    apply update_kv_inr in H0. destruct H0 as (_ & sched0 & Hs0 & _).
    apply schedule_inr in Hs0. destruct Hs0 as (Hb & Hn & i & Hi & _).
    destruct (schedule_total self (current_max_capacity self cap) (seq_len K1) i Hb Hn Hi)
      as [sched Hs].
    eapply update_kv_passthrough; eassumption.
Qed.

(** C6 (as amended).  With [num_hidden_layers = 1] every call raises, whatever
    its regime: the step of the schedule is computed before the regime is
    chosen.  When the key and query lengths agree and [beta] is not zero the
    exception is the division by zero of line 85. *)
Theorem single_layer_raises (self : PyramidKVCluster) (K Q V : Tensor4 F)
    (cap : option Z) :
  num_hidden_layers self = 1 ->
  (exists e, update_kv self K Q V cap = inl e) /\
  (seq_len K = seq_len Q -> beta self <> 0 ->
   update_kv self K Q V cap = inl ZeroDivisionError).
Proof.
  intros Hn.
  assert (Hs : beta self <> 0 ->
               schedule self (current_max_capacity self cap) (seq_len K)
                 = inl ZeroDivisionError).
  { intros Hb. unfold schedule. rewrite floordiv_ok by exact Hb. simpl.
    unfold floordiv. rewrite Hn. simpl. destruct (_ >=? _); reflexivity. }
  split.
  - destruct (update_kv self K Q V cap) as [e | [K' V']] eqn:E; [eauto |].
    apply update_kv_inr in E. destruct E as (_ & sched & Hsched & _).
    apply schedule_inr in Hsched. tauto.
  - intros Hlen Hb. apply update_kv_schedule_first; auto.
Qed.

(** C2.  Whenever [update_kv] returns, in whatever regime, the last
    [window_size] positions of the returned keys and values are, entry for
    entry and in order, the last [window_size] positions of the keys and
    values that came in. *)
Theorem window_preserved (self : PyramidKVCluster) (K Q V K' V' : Tensor4 F)
    (cap : option Z) :
  update_kv self K Q V cap = inr (K', V') ->
  seq_from (- window_size self) K' = seq_from (- window_size self) K /\
  seq_from (- window_size self) V' = seq_from (- window_size self) V.
Proof.
  intros H. apply update_kv_inr in H as H'. cbv zeta in H'.
  destruct H' as (_ & sched & Hs & H').
  destruct (regime self (current_max_capacity self cap) (seq_len K)) eqn:Er.
  - destruct H' as [-> ->]. split; reflexivity.
  - destruct H' as (bsz & h & d & cache & Hc & H').
    apply attn_cache_inr in Hc. destruct Hc as (Hfit & _).
    apply scores_fit_inv in Hfit. destruct Hfit as (_ & _ & _ & Hw).
    destruct (current_max_capacity self cap <=? window_size self).
    + destruct H' as [-> ->]. unfold seq_from. rewrite !map_map.
      split; apply map_ext; intros x; rewrite map_map; apply map_ext; intros m;
        apply slice_from_twice; lia.
    + apply compress_inr in H'. destruct H' as (raw & _ & -> & HK & -> & HV).
      split; apply compressed_window; (lia || assumption).
  - destruct H' as (bsz & h & d & cache & Hc & H').
    apply attn_cache_inr in Hc. destruct Hc as (Hfit & _).
    apply scores_fit_inv in Hfit. destruct Hfit as (_ & _ & _ & Hw).
    destruct (current_max_capacity self cap <=? window_size self).
    + destruct H' as [-> ->]. unfold seq_from. rewrite !map_map.
      split; apply map_ext; intros x; rewrite map_map; apply map_ext; intros m;
        apply slice_from_twice; lia.
    + apply compress_inr in H'. destruct H' as (raw & _ & -> & HK & -> & HV).
      split; apply compressed_window; (lia || assumption).
Qed.

End Claims.

Section ClaimsSelection.

Context {F : Type} {SF : Scalar F}.

(** C7.  In a compressing call above the window that returns, the positions
    that [topk] selects for each batch element and head are pairwise distinct
    historical positions; once sorted they increase strictly, and the returned
    keys and values are the historical entries at those positions, in that
    order, followed by the window. *)
Theorem selected_indices_increasing (self : PyramidKVCluster)
    (K Q V K' V' : Tensor4 F) (cap : option Z) :
  let cmc := current_max_capacity self cap in
  let w := window_size self in
  let q_len := seq_len K in
  update_kv self K Q V cap = inr (K', V') ->
  regime self cmc q_len <> PASSTHROUGH -> w < cmc ->
  exists sched bsz h d cache raw,
    schedule self cmc q_len = inr sched /\
    attn_cache self bsz h q_len d K Q = inr cache /\
    topk_indices (budget (regime self cmc q_len) self cmc sched) cache = inr raw /\
    Forall (Forall (@NoDup nat)) raw /\
    let indices := map (map sort) raw in
    Forall (Forall (StronglySorted Nat.lt)) indices /\
    Forall (Forall (@NoDup nat)) indices /\
    historical w K indices /\
    K' = compressed_cache w K indices /\
    V' = compressed_cache w V indices.
Proof.
  intros cmc w q_len H Hr Hw.
  destruct (update_kv_selection self K Q V K' V' cap H Hr Hw)
    as (sched & bsz & h & d & cache & raw & H1 & H2 & H3 & _ & _ & Hraw & HK' & HhK & HV' & _).
  exists sched, bsz, h, d, cache, raw.
  split; [exact H1 |]. split; [exact H2 |]. split; [exact H3 |].
  split; [revert Hraw; apply Forall2_weaken; cbv zeta; tauto |].
  cbv zeta. split; [| split; [| auto]].
  - apply Forall_map_map. revert Hraw; apply Forall2_weaken.
    cbv zeta. intros idx (_ & _ & Hn & _). apply sort_increasing, Hn.
  - apply Forall_map_map. revert Hraw; apply Forall2_weaken.
    cbv zeta. intros idx (_ & _ & Hn & _).
    apply (Permutation_NoDup (sort_perm idx)), Hn.
Qed.

(** C1 (as amended).  A compressing call above the window that returns gives
    at most [current_max_capacity] positions in the MODERATE regime and at
    most [layer_budget + window_size] positions in the AGGRESSIVE regime,
    where the window comes on top of the layer budget; in both it gives at
    most the [q_len] positions that came in. *)
Theorem budget_bound (self : PyramidKVCluster) (K Q V K' V' : Tensor4 F)
    (cap : option Z) (sched : Schedule) :
  let cmc := current_max_capacity self cap in
  let w := window_size self in
  let q_len := seq_len K in
  let bound := match regime self cmc q_len with
               | AGGRESSIVE => layer_budget sched + w
               | _ => cmc
               end in
  update_kv self K Q V cap = inr (K', V') ->
  regime self cmc q_len <> PASSTHROUGH -> w < cmc ->
  all_seq_len q_len V ->
  schedule self cmc q_len = inr sched ->
  all_seq_le bound K' /\ all_seq_le bound V' /\
  all_seq_le q_len K' /\ all_seq_le q_len V'.
Proof.
  intros cmc w q_len bound H Hr Hw HV Hs.
  destruct (update_kv_lengths self K Q V K' V' cap sched H Hr Hw HV Hs)
    as (L1 & L2 & L3 & L4).
  fold cmc w q_len in L1, L2, L3, L4.
  assert (Hb : Z.min (budget (regime self cmc q_len) self cmc sched)
                     (cache_len self q_len) + w <= bound).
  { unfold bound, budget. fold w. destruct (regime self cmc q_len); lia. }
  repeat split; try assumption.
  - revert L1; apply Forall2_weaken. simpl. intros; lia.
  - revert L2; apply Forall2_weaken. simpl. intros; lia.
Qed.

End ClaimsSelection.

Section ClaimsReturning.

Context {F : Type} {SF : Scalar F}.

Lemma Shape3_seq_from (w b h q : Z) (t : Tensor4 F) :
  0 < w <= q -> Shape3 b h q t -> Shape3 b h w (seq_from (- w) t).
Proof.
  intros Hw [Hb Ht]. unfold seq_from. split; [rewrite len_map; exact Hb |].
  apply Forall_map. revert Ht; apply Forall_impl. intros x Hx.
  apply Rows_map with (m := q); [| exact Hx].
  intros m Hm. apply len_slice_from. lia.
Qed.

(** A well-shaped compressing call above the window, with a supported pooling,
    an odd kernel and a budget that is not negative, returns caches of
    [min(budget, q - w) + w] positions for every batch element and head. *)
Lemma update_kv_compress_shape (self : PyramidKVCluster) (K Q V : Tensor4 F)
    (cap : option Z) (b h q d : Z) (sched : Schedule) :
  let cmc := current_max_capacity self cap in
  let w := window_size self in
  let n := Z.min (budget (regime self cmc q) self cmc sched) (q - w) + w in
  has_shape4 b h q d K = true ->
  has_shape4 b (h * rep_factor self) q d Q = true ->
  has_shape4 b h q d V = true ->
  0 < b -> 0 < h -> 1 <= rep_factor self ->
  supported self -> 0 < kernel_size self -> Z.odd (kernel_size self) = true ->
  0 < w < cmc -> cmc <= q ->
  schedule self cmc q = inr sched ->
  0 <= budget (regime self cmc q) self cmc sched ->
  exists K' V', update_kv self K Q V cap = inr (K', V') /\
                Shape3 b h n K' /\ Shape3 b h n V'.
Proof.
  intros cmc w n. subst cmc w n.
  intros HK HQ HV Hb Hh Hr Hsup Hks Hodd Hw Hq Hs Hbud.
  destruct (update_kv_returns self K Q V cap b h q d sched HK HQ Hb Hh Hr Hsup Hks
              ltac:(lia) Hq Hs) as [_ Hret].
  destruct (Hret ltac:(lia) HV Hodd Hbud) as (K' & V' & H).
  exists K', V'. split; [exact H |].
  pose proof (seq_len_read b h q d K HK Hb Hh ltac:(lia)) as Eq.
  assert (Hreg : regime self (current_max_capacity self cap) (seq_len K) <> PASSTHROUGH).
  { rewrite Eq. unfold regime. destruct (Z.ltb_spec q (current_max_capacity self cap));
      [lia |]. destruct (q <? _); discriminate. }
  destruct (update_kv_compressing self K Q V K' V' cap H Hreg ltac:(lia))
    as (sched' & raw & Hs' & _ & _ & Hraw & HK' & HhK & HV' & HhV).
  rewrite Eq in *. rewrite Hs in Hs'. inversion Hs'; subst sched'; clear Hs'.
  cbv zeta in Hraw. apply sorted_lengths in Hraw.
  unfold cache_len in Hraw. rewrite pool_out_len_odd in Hraw by exact Hodd.
  apply has_shape4_Shape4 in HK, HV.
  subst K' V'. split.
  - apply compressed_shape with (q := q); try assumption; try lia.
    + eapply Shape4_Shape3; exact HK.
    + revert Hraw; apply Forall2_weaken. tauto.
  - apply compressed_shape with (q := q); try assumption; try lia.
    + eapply Shape4_Shape3; exact HV.
    + revert Hraw; apply Forall2_weaken. tauto.
Qed.

(** C3 (as amended).  A well-shaped call whose capacity is at most the window
    and whose sequence is longer than the window, with a schedule whose
    arithmetic is defined and a positive kernel, computes the importance scores
    and pools them before it looks at the capacity.  With a supported pooling
    kind it then returns exactly the last [window_size] positions of the keys
    and of the values; with any other pooling kind it raises [ValueError]. *)
Theorem window_only (self : PyramidKVCluster) (K Q V : Tensor4 F) (cap : option Z)
    (b h q d i : Z) :
  let cmc := current_max_capacity self cap in
  let w := window_size self in
  has_shape4 b h q d K = true ->
  has_shape4 b (h * rep_factor self) q d Q = true ->
  0 < b -> 0 < h -> 1 <= rep_factor self ->
  layer_idx self = Some i -> beta self <> 0 -> num_hidden_layers self <> 1 ->
  0 < kernel_size self ->
  0 < w -> cmc <= w -> w < q ->
  (supported self ->
   update_kv self K Q V cap = inr (seq_from (- w) K, seq_from (- w) V) /\
   Shape3 b h w (seq_from (- w) K) /\
   (has_shape4 b h q d V = true -> Shape3 b h w (seq_from (- w) V))) /\
  (~ supported self -> update_kv self K Q V cap = inl ValueError).
Proof.
  intros cmc w. subst cmc w.
  intros HK HQ Hb Hh Hr Hi Hbeta Hn Hks Hw Hc Hq.
  destruct (schedule_total self (current_max_capacity self cap) q i Hbeta Hn Hi)
    as [sched Hs].
  split.
  - intros Hsup.
    destruct (update_kv_returns self K Q V cap b h q d sched HK HQ Hb Hh Hr Hsup Hks
                ltac:(lia) ltac:(lia) Hs) as [Hret _].
    split; [apply Hret; lia |]. split.
    + apply Shape3_seq_from with (q := q); [lia |].
      apply has_shape4_Shape4 in HK. eapply Shape4_Shape3; exact HK.
    + intros HV. apply Shape3_seq_from with (q := q); [lia |].
      apply has_shape4_Shape4 in HV. eapply Shape4_Shape3; exact HV.
  - intros Hsup.
    rewrite (update_kv_shaped self K Q V cap b h q d HK HQ Hb Hh ltac:(lia) Hr).
    cbv zeta. rewrite Hs. simpl.
    assert (Hcache : attn_cache self b h q d K Q = inl ValueError).
    { unfold attn_cache.
      assert (Hfit : scores_fit self b h q d K Q = true).
      { unfold scores_fit. rewrite HK, HQ. simpl.
        rewrite !andb_true_iff, Z.leb_le, Z.ltb_lt, Z.leb_le. lia. }
      rewrite Hfit. simpl. rewrite (pool_scores_unsupported self Hsup). reflexivity. }
    destruct (Z.ltb_spec q (current_max_capacity self cap)); [lia |].
    destruct (q <? _); rewrite Hcache; reflexivity.
Qed.

End ClaimsReturning.

Section ClaimsLengths.

Context {F : Type} {SF : Scalar F}.

(** C9.  With an odd kernel, a compressing call above the window that returns
    gives exactly [current_max_capacity] positions in the MODERATE regime,
    whatever the layer, and exactly
    [min(layer_budget, q_len - window_size) + window_size] positions in the
    AGGRESSIVE regime: the window comes on top of the layer budget.  There is
    an AGGRESSIVE call whose output is longer than both its layer budget and
    its [current_max_capacity]. *)
Theorem output_length :
  (forall (self : PyramidKVCluster) (K Q V K' V' : Tensor4 F) (cap : option Z)
          (sched : Schedule),
     let cmc := current_max_capacity self cap in
     let w := window_size self in
     let q_len := seq_len K in
     let n := match regime self cmc q_len with
              | AGGRESSIVE => Z.min (layer_budget sched) (q_len - w) + w
              | _ => cmc
              end in
     update_kv self K Q V cap = inr (K', V') ->
     Z.odd (kernel_size self) = true ->
     regime self cmc q_len <> PASSTHROUGH -> w < cmc ->
     all_seq_len q_len V ->
     schedule self cmc q_len = inr sched ->
     all_seq_len n K' /\ all_seq_len n V') /\
  (exists (self : PyramidKVCluster) (K Q V K' V' : Tensor4 F) (sched : Schedule) (n : Z),
     update_kv self K Q V None = inr (K', V') /\
     regime self (max_capacity_prompt self) (seq_len K) = AGGRESSIVE /\
     schedule self (max_capacity_prompt self) (seq_len K) = inr sched /\
     Shape3 1 1 n K' /\ Shape3 1 1 n V' /\
     layer_budget sched < n /\ max_capacity_prompt self < n).
Proof.
  split.
  - intros self K Q V K' V' cap sched cmc w q_len n H Hodd Hr Hw HV Hs.
    destruct (update_kv_lengths self K Q V K' V' cap sched H Hr Hw HV Hs)
      as (L1 & L2 & _ & _).
    fold cmc w q_len in L1, L2.
    assert (Hn : Z.min (budget (regime self cmc q_len) self cmc sched)
                       (cache_len self q_len) + w = n).
    { unfold n, budget, cache_len. fold w.
      rewrite pool_out_len_odd by exact Hodd.
      unfold regime in *. fold w in Hr |- *.
      destruct (Z.ltb_spec q_len cmc); [congruence |].
      destruct (q_len <? (cmc - w) * 2); lia. }
    rewrite Hn in L1, L2. split; assumption.
  - set (t := constant (fzero (F := F)) 1 1 5 1).
    destruct (update_kv_compress_shape (small 0) t t t None 1 1 5 1
                {| min_num := 1; max_num := 3; steps := 2; layer_budget := 3 |})
      as (K' & V' & H & HK & HV);
      try reflexivity; try (simpl; lia); [left; reflexivity |].
    exists (small 0), t, t, t, K', V',
      {| min_num := 1; max_num := 3; steps := 2; layer_budget := 3 |}, 4.
    repeat split; try assumption; try reflexivity; apply HK || apply HV.
Qed.

(** C4.  With at least two layers, [beta >= 1], a capacity above the window and
    a sequence of at least that capacity, every layer's schedule is defined,
    [layer_budget = max_num - layer_idx * steps] with the same [max_num] and
    [steps] for all layers, and a deeper layer never gets a larger budget.  In
    the scenario of the specification the schedule is [min_num = 12],
    [max_num = 500], [steps = 162], layer 0 gets 500 and layer 3 gets 14, and
    every cache of 600 positions comes back with 564 positions at layer 0 and
    78 at layer 3. *)
Theorem pyramid_monotone :
  (forall (self : PyramidKVCluster) (cmc q_len i j : Z),
     2 <= num_hidden_layers self -> 1 <= beta self ->
     window_size self < cmc -> cmc <= q_len -> i <= j ->
     exists si sj,
       schedule (at_layer self i) cmc q_len = inr si /\
       schedule (at_layer self j) cmc q_len = inr sj /\
       max_num sj = max_num si /\ steps sj = steps si /\
       layer_budget si = max_num si - i * steps si /\
       layer_budget sj = max_num sj - j * steps sj /\
       layer_budget sj <= layer_budget si) /\
  schedule (scenario 0) 320 600
    = inr {| min_num := 12; max_num := 500; steps := 162; layer_budget := 500 |} /\
  schedule (scenario 3) 320 600
    = inr {| min_num := 12; max_num := 500; steps := 162; layer_budget := 14 |} /\
  (forall (K Q V : Tensor4 F) (b h d : Z),
     has_shape4 b h 600 d K = true -> has_shape4 b h 600 d Q = true ->
     has_shape4 b h 600 d V = true -> 0 < b -> 0 < h ->
     exists K0 V0 K3 V3,
       update_kv (scenario 0) K Q V None = inr (K0, V0) /\
       Shape3 b h 564 K0 /\ Shape3 b h 564 V0 /\
       update_kv (scenario 3) K Q V None = inr (K3, V3) /\
       Shape3 b h 78 K3 /\ Shape3 b h 78 V3 /\ 78 < 564).
Proof.
  split; [| split; [reflexivity | split; [reflexivity |]]].
  - intros self cmc q_len i j Hn Hb Hw Hq Hij.
    destruct (schedule_total (at_layer self i) cmc q_len i) as [si Hsi];
      try (simpl; lia); [reflexivity |].
    destruct (schedule_total (at_layer self j) cmc q_len j) as [sj Hsj];
      try (simpl; lia); [reflexivity |].
    exists si, sj.
    destruct (schedule_valid (at_layer self i) cmc q_len si i Hsi eq_refl Hn Hb Hw Hq)
      as (_ & _ & Hst & Hli & _).
    destruct (schedule_valid (at_layer self j) cmc q_len sj j Hsj eq_refl Hn Hb Hw Hq)
      as (_ & _ & _ & Hlj & _).
    assert (E : max_num sj = max_num si /\ steps sj = steps si).
    { unfold schedule in Hsi, Hsj. simpl in Hsi, Hsj.
      rewrite floordiv_ok in Hsi, Hsj by lia. simpl in Hsi, Hsj.
      destruct (_ >=? _); rewrite floordiv_ok in Hsi, Hsj by lia;
        simpl in Hsi, Hsj; inversion Hsi; inversion Hsj; subst; simpl; auto. }
    destruct E as [E1 E2].
    repeat split; try assumption. rewrite Hli, Hlj, E1, E2. nia.
  - intros K Q V b h d HK HQ HV Hb Hh.
    destruct (update_kv_compress_shape (scenario 0) K Q V None b h 600 d
                {| min_num := 12; max_num := 500; steps := 162; layer_budget := 500 |})
      as (K0 & V0 & H0 & HK0 & HV0);
      try assumption; try reflexivity; try (simpl; lia);
      [simpl; rewrite Z.mul_1_r; exact HQ | left; reflexivity |].
    destruct (update_kv_compress_shape (scenario 3) K Q V None b h 600 d
                {| min_num := 12; max_num := 500; steps := 162; layer_budget := 14 |})
      as (K3 & V3 & H3 & HK3 & HV3);
      try assumption; try reflexivity; try (simpl; lia);
      [simpl; rewrite Z.mul_1_r; exact HQ | left; reflexivity |].
    exists K0, V0, K3, V3. repeat split; try assumption; try lia;
      apply HK0 || apply HV0 || apply HK3 || apply HV3.
Qed.

End ClaimsLengths.

(** ** What average pooling computes *)

Lemma nth_map_seq {A : Type} (g : nat -> A) (a n p : nat) (d : A) :
  (p < n)%nat -> nth p (map g (seq a n)) d = g (a + p)%nat.
Proof.
  intros H.
  rewrite (nth_indep _ d (g 0%nat)) by (rewrite length_map, length_seq; exact H).
  rewrite (map_nth g), seq_nth by exact H. reflexivity.
Qed.

Lemma firstn_seq (n a m : nat) : firstn n (seq a m) = seq a (Nat.min n m).
Proof.
  revert a m; induction n as [| n IH]; intros a [| m]; simpl; auto.
  f_equal. apply IH.
Qed.

Lemma skipn_repeat {A : Type} (x : A) (n k : nat) :
  skipn n (repeat x k) = repeat x (k - n).
Proof.
  revert k; induction n as [| n IH]; intros [| k]; simpl; auto.
Qed.

(** A slice of a list, position by position. *)
Lemma firstn_skipn_nth {A : Type} (d : A) (a b : nat) (x : list A) :
  firstn a (skipn b x)
  = map (fun j => nth j x d) (seq b (Nat.min a (List.length x - b))).
Proof.
  rewrite (map_seq_nth d x) at 1.
  rewrite skipn_map, skipn_seq, firstn_map, firstn_seq. reflexivity.
Qed.

Lemma filter_seq_range (a b n : nat) :
  filter (fun j => (b <=? j)%nat && (j <? b + a)%nat) (seq 0 n)
  = seq b (Nat.min a (n - b)).
Proof.
  induction n as [| n IH]; [simpl; rewrite Nat.min_0_r; reflexivity |].
  rewrite seq_S, filter_app, IH. cbn [filter]. rewrite Nat.add_0_l.
  destruct (Nat.leb_spec b n) as [Hb | Hb]; cbn [andb].
  - destruct (Nat.ltb_spec n (b + a)) as [Ha | Ha].
    + replace (Nat.min a (S n - b)) with (S (Nat.min a (n - b))) by lia.
      rewrite seq_S. f_equal. f_equal. lia.
    + rewrite app_nil_r. f_equal. lia.
  - rewrite app_nil_r. f_equal. lia.
Qed.

Section PoolingValues.

Context {F : Type} {SF : Scalar F}.

Lemma in_range_app (l1 l2 : list (option F)) :
  in_range (l1 ++ l2) = in_range l1 ++ in_range l2.
Proof.
  induction l1 as [| [a |] l1 IH]; simpl; [reflexivity | f_equal; exact IH | exact IH].
Qed.

Lemma in_range_Some (x : list F) : in_range (map Some x) = x.
Proof. induction x; simpl; congruence. Qed.

Lemma in_range_firstn_None (n k : nat) :
  in_range (firstn n (repeat (@None F) k)) = [].
Proof.
  revert k; induction n as [| n IH]; intros [| k]; simpl; auto.
Qed.

(** The cells of window [p] that lie inside the input. *)
Lemma in_range_window (x : list F) (ks pad : Z) (p : nat) :
  in_range (firstn (Z.to_nat ks) (skipn p (padded x pad)))
  = firstn (Z.to_nat ks - (Z.to_nat pad - p)) (skipn (p - Z.to_nat pad) x).
Proof.
  unfold padded.
  rewrite skipn_app, skipn_repeat, repeat_length.
  rewrite firstn_app, in_range_app, in_range_firstn_None, repeat_length. simpl.
  rewrite skipn_app, skipn_repeat, length_map.
  rewrite firstn_app, in_range_app, in_range_firstn_None, app_nil_r.
  rewrite skipn_map, firstn_map, in_range_Some. reflexivity.
Qed.

(** With an odd kernel, the cells of window [p] are the positions within
    [ks // 2] of [p]. *)
Lemma in_range_near (x : list F) (ks : Z) (p : nat) :
  0 < ks -> Z.odd ks = true ->
  in_range (firstn (Z.to_nat ks) (skipn p (padded x (ks / 2))))
  = map (fun j => nth j x fzero)
        (filter (near (Z.to_nat (ks / 2)) p) (seq 0 (List.length x))).
Proof.
  intros Hks Hodd. rewrite in_range_window.
  rewrite (firstn_skipn_nth fzero), <- filter_seq_range. f_equal.
  apply filter_ext. intros j. unfold near.
  assert (E : Z.to_nat ks = (2 * Z.to_nat (ks / 2) + 1)%nat).
  { rewrite (Zodd_div2 ks) at 1 by (apply Zodd_bool_iff; exact Hodd).
    rewrite Z.div2_div.
    pose proof (Z.div_pos ks 2 ltac:(lia) ltac:(lia)). lia. }
  rewrite E. set (r := Z.to_nat (ks / 2)).
  destruct (Nat.leb_spec (p - r) j), (Nat.ltb_spec j (p - r + (2 * r + 1 - (r - p)))),
    (Nat.leb_spec p (j + r)), (Nat.leb_spec j (p + r)); simpl; try reflexivity; lia.
Qed.

(** C10.  With [pooling = "avgpool"], an odd positive kernel and at least one
    historical position, pooling succeeds and keeps the number of scores, and
    the smoothed score at every position [p] is the sum of the raw scores at
    the positions within [kernel_size // 2] of [p] that exist, divided by the
    full [kernel_size], at the boundaries too: positions off either end add
    nothing to the sum and still count in the divisor. *)
Theorem avgpool_padded_average (self : PyramidKVCluster) (x : list F) :
  pooling self = "avgpool"%string ->
  Z.odd (kernel_size self) = true -> 0 < kernel_size self -> 0 < len x ->
  exists pool y,
    pool_scores self = inr pool /\ pool x = inr y /\ len y = len x /\
    forall p, (p < List.length x)%nat ->
      nth p y fzero = padded_average (kernel_size self) x p.
Proof.
  intros Hp Hodd Hks Hx.
  exists (avg_pool1d true (kernel_size self) (kernel_size self / 2)).
  unfold pool_scores. rewrite Hp. simpl.
  unfold avg_pool1d. rewrite pool_check_half by assumption. simpl.
  eexists. split; [reflexivity |]. split; [reflexivity |].
  unfold windows. rewrite pool_out_len_odd by exact Hodd.
  split; [rewrite !len_map, len_seq; lia |].
  intros p Hlt. rewrite map_map.
  rewrite nth_map_seq by (unfold len; lia). simpl.
  rewrite in_range_near by assumption. reflexivity.
Qed.

End PoolingValues.

(** ** What the importance scores compute *)

Lemma seq_offset (b m : nat) : seq b m = map (fun i => (b + i)%nat) (seq 0 m).
Proof.
  revert b; induction m as [| m IH]; intros b; simpl; [reflexivity |].
  f_equal; [lia |]. rewrite (IH (S b)), <- seq_shift, map_map.
  apply map_ext. intros i. lia.
Qed.

Lemma skipn_nth {A : Type} (d : A) (b : nat) (x : list A) :
  skipn b x = map (fun i => nth (b + i) x d) (seq 0 (List.length x - b)).
Proof.
  rewrite (map_seq_nth d x) at 1.
  rewrite skipn_map, skipn_seq, seq_offset, map_map. reflexivity.
Qed.

Lemma slice_from_skipn {A : Type} (w : Z) (l : list A) :
  0 < w <= len l -> slice_from (- w) l = skipn (List.length l - Z.to_nat w) l.
Proof.
  intros H. unfold slice_from. rewrite slice_bound_tail by exact H.
  f_equal. unfold len in *. lia.
Qed.

Lemma slice_to_firstn {A : Type} (w : Z) (l : list A) :
  0 < w <= len l -> slice_to (- w) l = firstn (List.length l - Z.to_nat w) l.
Proof.
  intros H. unfold slice_to. rewrite slice_bound_tail by exact H.
  f_equal. unfold len in *. lia.
Qed.

Lemma nth_map2 {A B C : Type} (f : A -> B -> C) (l1 : list A) (l2 : list B)
    (n : nat) (a : A) (b : B) (c : C) :
  (n < List.length l1)%nat -> (n < List.length l2)%nat ->
  nth n (map2 f l1 l2) c = f (nth n l1 a) (nth n l2 b).
Proof.
  revert l2 n; induction l1 as [| x l1 IH]; intros [| y l2] [| n] H1 H2;
    simpl in *; try lia; [reflexivity |].
  apply IH; lia.
Qed.

Section ScoreValues.

Context {F : Type} {SF : Scalar F}.

(** A column of the sum over rows is the sum of the column. *)
Lemma nth_fold_map2 (L h : nat) (rows : Matrix F) (acc : list F) :
  Forall (fun r => List.length r = L) rows -> List.length acc = L -> (h < L)%nat ->
  nth h (fold_left (map2 fadd) rows acc) fzero
  = fold_left fadd (map (fun r => nth h r fzero) rows) (nth h acc fzero).
Proof.
  intros Hr; revert acc; induction Hr as [| r rows Hlen _ IH]; intros acc Ha Hh; simpl.
  - reflexivity.
  - rewrite IH by (rewrite ?map2_length; lia).
    rewrite (nth_map2 fadd acc r h fzero fzero fzero) by lia. reflexivity.
Qed.

Lemma nth_sum_rows (L h : nat) (rows : Matrix F) :
  rows <> [] -> Forall (fun r => List.length r = L) rows -> (h < L)%nat ->
  nth h (sum_rows rows) fzero = fsum (map (fun r => nth h r fzero) rows).
Proof.
  intros Hne Hr Hh. unfold sum_rows, fsum.
  assert (E : List.length (hd [] rows) = L).
  { destruct rows as [| r rows]; [congruence | inversion Hr; assumption]. }
  rewrite (nth_fold_map2 L h) by (rewrite ?repeat_length; assumption).
  rewrite E, nth_repeat_lt by exact Hh. reflexivity.
Qed.

Lemma fold_left_map {A B C : Type} (g : A -> B -> A) (f : C -> B) (l : list C) (a : A) :
  fold_left g (map f l) a = fold_left (fun acc t => g acc (f t)) l a.
Proof. revert a; induction l as [| x l IH]; intros a; simpl; [reflexivity | apply IH]. Qed.

(** A sum over a list of entries is the sum over their positions. *)
Lemma fsum_total (n : nat) (f : nat -> F) : fsum (map f (seq 0 n)) = total n f.
Proof. unfold fsum, total. apply fold_left_map. Qed.

Lemma total_ext (n : nat) (f g : nat -> F) :
  (forall t, (t < n)%nat -> f t = g t) -> total n f = total n g.
Proof.
  intros H. rewrite <- !fsum_total. f_equal.
  apply map_ext_in. intros t Ht. apply in_seq in Ht. apply H. lia.
Qed.

Lemma map2_entries {A B C : Type} (f : A -> B -> C) (a : A) (b : B) (u : list A)
    (v : list B) :
  map2 f u v
  = map (fun t => f (nth t u a) (nth t v b))
        (seq 0 (Nat.min (List.length u) (List.length v))).
Proof.
  revert v; induction u as [| x u IH]; intros [| y v]; simpl; try reflexivity.
  f_equal. rewrite <- seq_shift, map_map. apply IH.
Qed.

(** The product of the code is the dot product, position by position. *)
Lemma dot_inner (u v : list F) : dot u v = inner u v.
Proof.
  unfold dot, inner. rewrite (map2_entries fmul fzero fzero). apply fsum_total.
Qed.

(** The largest entry, as the code folds it. *)
Lemma fold_fmax_row_max (n : nat) (y : nat -> F) :
  fold_left fmax (map y (seq 0 n)) fneg_inf = row_max n y.
Proof. unfold row_max. rewrite fold_left_map. reflexivity. Qed.

(** The softmax of the code, entry by entry. *)
Lemma softmax_entries (n : nat) (x : nat -> F) (j : nat) :
  (j < n)%nat -> nth j (softmax (map x (seq 0 n))) fzero = softmax_entry n x j.
Proof.
  intros Hj. unfold softmax, softmax_entry.
  rewrite !map_map.
  rewrite (nth_map_seq _ 0 n j fzero Hj). simpl.
  rewrite (fold_fmax_row_max n (fun t => to_float32 (x t))).
  rewrite (fsum_total n). reflexivity.
Qed.

(** The scaled scores of the window queries, entry by entry. *)
Lemma scaled_matmul_entries (w head_dim : Z) (q k : Matrix F) :
  0 < w <= len k -> len q = len k ->
  map (map (fun x => fdiv x (fsqrt (of_int head_dim))))
      (matmul_nt (slice_from (- w) q) k)
  = map (fun i => map (logit head_dim q k (List.length k - Z.to_nat w + i))
                      (seq 0 (List.length k)))
        (seq 0 (Z.to_nat w)).
Proof.
  intros Hw Hq. unfold matmul_nt.
  rewrite slice_from_skipn by lia.
  rewrite (skipn_nth []).
  assert (El : List.length q = List.length k) by (unfold len in Hq; lia).
  replace (List.length q - (List.length q - Z.to_nat w))%nat with (Z.to_nat w)
    by (unfold len in Hw; lia).
  rewrite !map_map. apply map_ext. intros i.
  rewrite (map_seq_nth [] k) at 1. rewrite !map_map.
  apply map_ext. intros j. unfold logit. rewrite El, dot_inner. reflexivity.
Qed.

(** Line 106, entry by entry. *)
Lemma causal_mask_entries (w : Z) :
  causal_mask (F := F) w
  = map (fun i => map (fun t => if (t <=? i)%nat then fzero else finfo_min)
                      (seq 0 (Z.to_nat w)))
        (seq 0 (Z.to_nat w)).
Proof.
  unfold causal_mask, arange. rewrite !map_map. apply map_ext. intros i.
  rewrite map_map. apply map_ext. intros t.
  destruct (Z.ltb_spec (Z.of_nat t) (Z.of_nat i + 1)), (Nat.leb_spec t i);
    try reflexivity; lia.
Qed.

(** After the mask is added, row [i] of the window is the row of masked
    scores of the specification. *)
Lemma masked_rows (w head_dim : Z) (q k : Matrix F) :
  0 < w <= len k -> len q = len k ->
  add_mask w (causal_mask w)
    (map (map (fun x => fdiv x (fsqrt (of_int head_dim))))
         (matmul_nt (slice_from (- w) q) k))
  = map (fun i => map (masked_logit w head_dim q k i) (seq 0 (List.length k)))
        (seq 0 (Z.to_nat w)).
Proof.
  intros Hw Hq.
  rewrite scaled_matmul_entries, causal_mask_entries by assumption.
  set (wn := Z.to_nat w). set (n := List.length k).
  assert (Hn : (0 < wn <= n)%nat) by (unfold wn, n, len in *; lia).
  unfold add_mask.
  rewrite slice_to_whole, slice_from_whole
    by (try lia; rewrite len_map, len_seq; unfold wn; lia).
  simpl. rewrite map2_map_map. apply map_ext. intros i.
  assert (Hrow : len (map (logit head_dim q k (n - wn + i)) (seq 0 n)) = len k)
    by (rewrite len_map, len_seq; reflexivity).
  rewrite slice_to_firstn, slice_from_skipn by lia.
  rewrite length_map, length_seq. fold wn.
  rewrite firstn_map, firstn_seq, skipn_map, skipn_seq.
  replace (Nat.min (n - wn) n) with (n - wn)%nat by lia.
  replace (n - (n - wn))%nat with wn by lia.
  rewrite (seq_offset (0 + (n - wn))), map_map, map2_map_map.
  replace (seq 0 n) with (seq 0 (n - wn) ++ seq (n - wn) wn)
    by (rewrite <- seq_app; f_equal; lia).
  rewrite map_app. f_equal.
  - apply map_ext_in. intros j Hj. apply in_seq in Hj.
    unfold masked_logit. fold wn n.
    destruct (Nat.ltb_spec j (n - wn)); [reflexivity | lia].
  - rewrite (seq_offset (n - wn)), map_map. apply map_ext. intros t.
    unfold masked_logit. fold wn n. simpl.
    destruct (Nat.ltb_spec (n - wn + t) (n - wn)); [lia |].
    replace (n - wn + t - (n - wn))%nat with t by lia.
    destruct (t <=? i)%nat; reflexivity.
Qed.

(** C8.  For one query head and the key head it reads, with a window of
    [w] positions in a sequence of [len k] positions: [head_scores] returns one
    score per historical position, and the score of historical position [h] is
    the sum, over the [w] window queries [i], of entry [h] of the softmax of
    row [i].  Row [i] holds the scaled dot products of query [i] with all
    [len k] keys; a historical key has nothing added, a window key not later
    than the query has zero added, and a later window key has the lowest finite
    value of the dtype added, not minus infinity.  The softmax is taken in
    float32 with the largest entry of the row subtracted, and taken back to the
    dtype of the queries. *)
Theorem scores_are_window_mass (w head_dim : Z) (q k : Matrix F) :
  0 < w <= len k -> len q = len k ->
  len (head_scores w head_dim q k) = len k - w /\
  forall h, Z.of_nat h < len k - w ->
    nth h (head_scores w head_dim q k) fzero = window_mass w head_dim q k h.
Proof.
  intros Hw Hq.
  split; [apply len_head_scores; (assumption || lia) |].
  intros h Hh. unfold head_scores, attn_sum, window_mass.
  rewrite masked_rows by assumption.
  set (wn := Z.to_nat w). set (n := List.length k).
  assert (Hn : (0 < wn <= n)%nat) by (unfold wn, n, len in *; lia).
  assert (Hhn : (h < n - wn)%nat) by (unfold wn, n, len in *; lia).
  rewrite map_map.
  rewrite slice_from_whole by (try lia; rewrite len_map, len_seq; unfold wn; lia).
  rewrite map_map.
  rewrite (nth_sum_rows (n - wn) h).
  - rewrite map_map, fsum_total. apply total_ext. intros i _.
    rewrite slice_to_firstn
      by (rewrite len_softmax, len_map, len_seq; unfold n, len in *; lia).
    rewrite nth_firstn.
    pose proof (len_softmax (map (masked_logit w head_dim q k i) (seq 0 n))) as E.
    rewrite len_map, len_seq in E. unfold len in E.
    apply Nat2Z.inj in E. rewrite E. fold wn.
    destruct (Nat.ltb_spec h (n - wn)); [| lia].
    apply softmax_entries. lia.
  - destruct wn; [lia | simpl; discriminate].
  - apply Forall_map, Forall_forall. intros i _.
    pose proof (len_slice_to w
                  (softmax (map (masked_logit w head_dim q k i) (seq 0 n)))) as E.
    rewrite len_softmax, len_map, len_seq in E.
    specialize (E ltac:(unfold n, len in *; lia)).
    unfold len, n, wn in *. lia.
  - exact Hhn.
Qed.

End ScoreValues.

(** * Concrete calls *)

Module Examples.

Import RatScalar.

(** C1, as first stated, fails.  The small cluster is a valid configuration, the
    call is AGGRESSIVE with a layer budget of 3 and a capacity of 3, and the
    returned keys have 4 positions: the 3 selected ones and the window. *)
Lemma budget_bound_counterexample :
  update_kv (small 0) keys5 queries5 values5 None
    = inr (column [3; 1; 4; 2], column [10; 20; 30; 40]) /\
  regime (small 0) 3 (seq_len keys5) = AGGRESSIVE /\
  schedule (small 0) 3 (seq_len keys5)
    = inr {| min_num := 1; max_num := 3; steps := 2; layer_budget := 3 |} /\
  ~ all_seq_le 3 (column [3; 1; 4; 2]).
Proof.
  repeat split; try (vm_compute; reflexivity).
  intros H. inversion H as [| ? ? Hx _]; subst.
  inversion Hx as [| ? ? Hm _]; subst. vm_compute in Hm. apply Hm. reflexivity.
Qed.

Lemma budget_bound_witness :
  (update_kv (small 0) keys5 queries5 values5 None
     = inr (column [3; 1; 4; 2], column [10; 20; 30; 40]) /\
   regime (small 0) 3 (seq_len keys5) <> PASSTHROUGH /\
   window_size (small 0) < 3 /\
   all_seq_len (seq_len keys5) values5 /\
   schedule (small 0) 3 (seq_len keys5)
     = inr {| min_num := 1; max_num := 3; steps := 2; layer_budget := 3 |}) /\
  all_seq_le (3 + 1) (column [3; 1; 4; 2]) /\
  all_seq_le (3 + 1) (column [10; 20; 30; 40]) /\
  all_seq_le 5 (column [3; 1; 4; 2]) /\
  all_seq_le 5 (column [10; 20; 30; 40]).
Proof.
  assert (H1 : update_kv (small 0) keys5 queries5 values5 None
                 = inr (column [3; 1; 4; 2], column [10; 20; 30; 40]))
    by (vm_compute; reflexivity).
  assert (H2 : regime (small 0) 3 (seq_len keys5) <> PASSTHROUGH)
    by (vm_compute; discriminate).
  assert (H3 : window_size (small 0) < 3) by (simpl; lia).
  assert (H4 : all_seq_len (seq_len keys5) values5)
    by (repeat constructor).
  assert (H5 : schedule (small 0) 3 (seq_len keys5)
                 = inr {| min_num := 1; max_num := 3; steps := 2; layer_budget := 3 |})
    by (vm_compute; reflexivity).
  split; [repeat split; assumption |].
  exact (budget_bound (small 0) keys5 queries5 values5 _ _ None _ H1 H2 H3 H4 H5).
Defined.

Lemma window_preserved_witness :
  update_kv (small 0) keys5 queries5 values5 None
    = inr (column [3; 1; 4; 2], column [10; 20; 30; 40]) /\
  seq_from (- 1) (column [3; 1; 4; 2]) = seq_from (- 1) keys5 /\
  seq_from (- 1) (column [10; 20; 30; 40]) = seq_from (- 1) values5.
Proof.
  assert (H : update_kv (small 0) keys5 queries5 values5 None
                = inr (column [3; 1; 4; 2], column [10; 20; 30; 40]))
    by (vm_compute; reflexivity).
  split; [exact H |].
  exact (window_preserved (small 0) keys5 queries5 values5 _ _ None H).
Defined.

(** C3, as first stated, fails.  The capacity 1 is at most the window 1, the
    sequence has 5 positions, and the pooling kind is not supported: the call
    raises [ValueError] instead of returning the window. *)
Lemma window_only_counterexample :
  current_max_capacity sum_pooled (Some 1) <= window_size sum_pooled /\
  window_size sum_pooled < seq_len keys5 /\
  update_kv sum_pooled keys5 queries5 values5 (Some 1) = inl ValueError.
Proof.
  repeat split; try (vm_compute; reflexivity); vm_compute; discriminate.
Qed.

Lemma window_only_witness :
  (has_shape4 1 1 5 1 keys5 = true /\
   has_shape4 1 (1 * rep_factor (small 0)) 5 1 queries5 = true /\
   layer_idx (small 0) = Some 0 /\ beta (small 0) <> 0 /\
   num_hidden_layers (small 0) <> 1 /\ 0 < kernel_size (small 0) /\
   0 < window_size (small 0) /\
   current_max_capacity (small 0) (Some 1) <= window_size (small 0) /\
   window_size (small 0) < 5 /\ supported (small 0)) /\
  update_kv (small 0) keys5 queries5 values5 (Some 1)
    = inr (seq_from (- 1) keys5, seq_from (- 1) values5) /\
  Shape3 1 1 1 (seq_from (- 1) keys5).
Proof.
  assert (H1 : has_shape4 1 1 5 1 keys5 = true) by reflexivity.
  assert (H2 : has_shape4 1 (1 * rep_factor (small 0)) 5 1 queries5 = true)
    by reflexivity.
  assert (H3 : layer_idx (small 0) = Some 0) by reflexivity.
  assert (H4 : beta (small 0) <> 0) by (simpl; lia).
  assert (H5 : num_hidden_layers (small 0) <> 1) by (simpl; lia).
  assert (H6 : 0 < kernel_size (small 0)) by (simpl; lia).
  assert (H7 : 0 < window_size (small 0)) by (simpl; lia).
  assert (H8 : current_max_capacity (small 0) (Some 1) <= window_size (small 0))
    by (simpl; lia).
  assert (H9 : window_size (small 0) < 5) by (simpl; lia).
  assert (H10 : supported (small 0)) by (left; reflexivity).
  split; [repeat split; assumption |].
  destruct (window_only (small 0) keys5 queries5 values5 (Some 1) 1 1 5 1 0
              H1 H2 ltac:(lia) ltac:(lia) ltac:(unfold rep_factor; simpl; lia)
              H3 H4 H5 H6 H7 H8 H9)
    as [Hret _].
  destruct (Hret H10) as (R1 & R2 & _). split; assumption.
Defined.

(** C5, as first stated, fails.  Both calls are below the capacity of 3, and
    neither returns its input: the schedule divides by [beta = 0] in the first
    and by [num_hidden_layers - 1 = 0] in the second, before the length is
    compared with the capacity. *)
Lemma passthrough_identity_counterexample :
  seq_len (column [0; 3]) < current_max_capacity beta_zero None /\
  update_kv beta_zero (column [0; 3]) (column [1; 1]) (column [0; 10]) None
    = inl ZeroDivisionError /\
  seq_len (column [0; 3]) < current_max_capacity one_layer None /\
  update_kv one_layer (column [0; 3]) (column [1; 1]) (column [0; 10]) None
    = inl ZeroDivisionError.
Proof. repeat split; vm_compute; reflexivity. Qed.

Lemma passthrough_identity_witness :
  (seq_len (column [0; 3]) = seq_len (column [1; 1]) /\
   beta (small 0) <> 0 /\ num_hidden_layers (small 0) <> 1 /\
   layer_idx (small 0) = Some 0 /\
   seq_len (column [0; 3]) < current_max_capacity (small 0) None) /\
  update_kv (small 0) (column [0; 3]) (column [1; 1]) (column [0; 10]) None
    = inr (column [0; 3], column [0; 10]) /\
  (update_kv (small 1) keys5 queries5 values5 None
     = inr (column [1; 2], column [20; 40]) /\
   seq_len (column [1; 2]) = seq_len (column [1; 1]) /\
   seq_len (column [1; 2]) < current_max_capacity (small 1) None) /\
  update_kv (small 1) (column [1; 2]) (column [1; 1]) (column [20; 40]) None
    = inr (column [1; 2], column [20; 40]).
Proof.
  assert (H1 : seq_len (column [0; 3]) = seq_len (column [1; 1])) by reflexivity.
  assert (H2 : beta (small 0) <> 0) by (simpl; lia).
  assert (H3 : num_hidden_layers (small 0) <> 1) by (simpl; lia).
  assert (H4 : layer_idx (small 0) = Some 0) by reflexivity.
  assert (H5 : seq_len (column [0; 3]) < current_max_capacity (small 0) None)
    by (vm_compute; reflexivity).
  assert (H6 : update_kv (small 1) keys5 queries5 values5 None
                 = inr (column [1; 2], column [20; 40]))
    by (vm_compute; reflexivity).
  assert (H7 : seq_len (column [1; 2]) = seq_len (column [1; 1])) by reflexivity.
  assert (H8 : seq_len (column [1; 2]) < current_max_capacity (small 1) None)
    by (vm_compute; reflexivity).
  split; [repeat split; assumption |].
  split; [exact (proj1 (passthrough_identity (small 0) None) _ _ _ 0 H1 H2 H3 H4 H5) |].
  split; [repeat split; assumption |].
  exact (proj2 (passthrough_identity (small 1) None) _ _ _ _ _ _ H6 H7 H8).
Defined.

(** C6, as first stated, fails.  With a single layer, a call in the
    PASSTHROUGH regime and a call in the MODERATE regime both raise the division
    by zero. *)
Lemma single_layer_counterexample :
  regime one_layer (current_max_capacity one_layer None) (seq_len (column [0; 3]))
    = PASSTHROUGH /\
  update_kv one_layer (column [0; 3]) (column [1; 1]) (column [0; 10]) None
    = inl ZeroDivisionError /\
  regime one_layer (current_max_capacity one_layer (Some 4)) (seq_len keys5)
    = MODERATE /\
  update_kv one_layer keys5 queries5 values5 (Some 4) = inl ZeroDivisionError.
Proof. repeat split; vm_compute; reflexivity. Qed.

Lemma single_layer_raises_witness :
  num_hidden_layers one_layer = 1 /\
  (exists e, update_kv one_layer keys5 queries5 values5 None = inl e) /\
  (seq_len keys5 = seq_len queries5 -> beta one_layer <> 0 ->
   update_kv one_layer keys5 queries5 values5 None = inl ZeroDivisionError).
Proof.
  split; [reflexivity |].
  exact (single_layer_raises one_layer keys5 queries5 values5 None eq_refl).
Defined.

Lemma selected_indices_witness :
  (update_kv (small 0) keys5 queries5 values5 None
     = inr (column [3; 1; 4; 2], column [10; 20; 30; 40]) /\
   regime (small 0) 3 (seq_len keys5) <> PASSTHROUGH /\
   window_size (small 0) < 3) /\
  exists sched bsz h d cache raw,
    schedule (small 0) 3 (seq_len keys5) = inr sched /\
    attn_cache (small 0) bsz h (seq_len keys5) d keys5 queries5 = inr cache /\
    topk_indices (budget (regime (small 0) 3 (seq_len keys5)) (small 0) 3 sched) cache
      = inr raw /\
    Forall (Forall (@NoDup nat)) raw /\
    Forall (Forall (StronglySorted Nat.lt)) (map (map sort) raw) /\
    Forall (Forall (@NoDup nat)) (map (map sort) raw) /\
    historical 1 keys5 (map (map sort) raw) /\
    column [3; 1; 4; 2] = compressed_cache 1 keys5 (map (map sort) raw) /\
    column [10; 20; 30; 40] = compressed_cache 1 values5 (map (map sort) raw).
Proof.
  assert (H1 : update_kv (small 0) keys5 queries5 values5 None
                 = inr (column [3; 1; 4; 2], column [10; 20; 30; 40]))
    by (vm_compute; reflexivity).
  assert (H2 : regime (small 0) 3 (seq_len keys5) <> PASSTHROUGH)
    by (vm_compute; discriminate).
  assert (H3 : window_size (small 0) < 3) by (simpl; lia).
  split; [repeat split; assumption |].
  exact (selected_indices_increasing (small 0) keys5 queries5 values5 _ _ None H1 H2 H3).
Defined.

Lemma output_length_witness :
  (update_kv (small 0) keys5 queries5 values5 None
     = inr (column [3; 1; 4; 2], column [10; 20; 30; 40]) /\
   Z.odd (kernel_size (small 0)) = true /\
   regime (small 0) 3 (seq_len keys5) <> PASSTHROUGH /\
   window_size (small 0) < 3 /\
   all_seq_len (seq_len keys5) values5 /\
   schedule (small 0) 3 (seq_len keys5)
     = inr {| min_num := 1; max_num := 3; steps := 2; layer_budget := 3 |}) /\
  all_seq_len (Z.min 3 (5 - 1) + 1) (column [3; 1; 4; 2]) /\
  all_seq_len (Z.min 3 (5 - 1) + 1) (column [10; 20; 30; 40]).
Proof.
  assert (H1 : update_kv (small 0) keys5 queries5 values5 None
                 = inr (column [3; 1; 4; 2], column [10; 20; 30; 40]))
    by (vm_compute; reflexivity).
  assert (H2 : Z.odd (kernel_size (small 0)) = true) by reflexivity.
  assert (H3 : regime (small 0) 3 (seq_len keys5) <> PASSTHROUGH)
    by (vm_compute; discriminate).
  assert (H4 : window_size (small 0) < 3) by (simpl; lia).
  assert (H5 : all_seq_len (seq_len keys5) values5) by (repeat constructor).
  assert (H6 : schedule (small 0) 3 (seq_len keys5)
                 = inr {| min_num := 1; max_num := 3; steps := 2; layer_budget := 3 |})
    by (vm_compute; reflexivity).
  split; [repeat split; assumption |].
  exact (proj1 output_length (small 0) keys5 queries5 values5 _ _ None _
           H1 H2 H3 H4 H5 H6).
Defined.

Lemma pyramid_monotone_witness :
  (2 <= num_hidden_layers (scenario 0) /\ 1 <= beta (scenario 0) /\
   window_size (scenario 0) < 320 /\ 320 <= 600 /\ 0 <= 3) /\
  (exists si sj,
     schedule (at_layer (scenario 0) 0) 320 600 = inr si /\
     schedule (at_layer (scenario 0) 3) 320 600 = inr sj /\
     max_num sj = max_num si /\ steps sj = steps si /\
     layer_budget si = max_num si - 0 * steps si /\
     layer_budget sj = max_num sj - 3 * steps sj /\
     layer_budget sj <= layer_budget si) /\
  has_shape4 1 1 600 1 (constant 0%Q 1 1 600 1) = true /\
  (exists K0 V0 K3 V3,
     update_kv (scenario 0) (constant 0%Q 1 1 600 1) (constant 0%Q 1 1 600 1)
       (constant 0%Q 1 1 600 1) None = inr (K0, V0) /\
     Shape3 1 1 564 K0 /\ Shape3 1 1 564 V0 /\
     update_kv (scenario 3) (constant 0%Q 1 1 600 1) (constant 0%Q 1 1 600 1)
       (constant 0%Q 1 1 600 1) None = inr (K3, V3) /\
     Shape3 1 1 78 K3 /\ Shape3 1 1 78 V3 /\ 78 < 564).
Proof.
  assert (H1 : 2 <= num_hidden_layers (scenario 0)) by (simpl; lia).
  assert (H2 : 1 <= beta (scenario 0)) by (simpl; lia).
  assert (H3 : window_size (scenario 0) < 320) by (simpl; lia).
  assert (H4 : 320 <= 600) by lia.
  assert (H5 : 0 <= 3) by lia.
  assert (H6 : has_shape4 1 1 600 1 (constant 0%Q 1 1 600 1) = true)
    by (vm_compute; reflexivity).
  split; [repeat split; assumption |].
  split; [exact (proj1 pyramid_monotone (scenario 0) 320 600 0 3 H1 H2 H3 H4 H5) |].
  split; [exact H6 |].
  exact (proj2 (proj2 (proj2 pyramid_monotone)) _ _ _ 1 1 1 H6 H6 H6
           ltac:(lia) ltac:(lia)).
Defined.

Lemma avgpool_witness :
  (pooling (small 0) = "avgpool"%string /\ Z.odd (kernel_size (small 0)) = true /\
   0 < kernel_size (small 0) /\ 0 < len [3; 6; 9; 12]%Q) /\
  exists pool y,
    pool_scores (small 0) = inr pool /\ pool [3; 6; 9; 12]%Q = inr y /\
    len y = len [3; 6; 9; 12]%Q /\
    forall p, (p < 4)%nat ->
      nth p y 0%Q = padded_average (kernel_size (small 0)) [3; 6; 9; 12]%Q p.
Proof.
  assert (H1 : pooling (small 0) = "avgpool"%string) by reflexivity.
  assert (H2 : Z.odd (kernel_size (small 0)) = true) by reflexivity.
  assert (H3 : 0 < kernel_size (small 0)) by (simpl; lia).
  assert (H4 : 0 < len [3; 6; 9; 12]%Q) by (vm_compute; reflexivity).
  split; [repeat split; assumption |].
  exact (avgpool_padded_average (small 0) [3; 6; 9; 12]%Q H1 H2 H3 H4).
Defined.

(** The pooled scores of the example: the last one averages 9, 12 and a
    padding cell, and so falls below both. *)
Example avgpool_run :
  avg_pool1d true 3 1 [3; 6; 9; 12]%Q = inr [3; 6; 9; 7]%Q.
Proof. vm_compute. reflexivity. Qed.

(** C10, as first stated, fails for an even kernel, which [__init__] and
    [reset] accept.  With a kernel of two on four positions, pooling returns
    five scores, and the first is 3/2 where the sum of the raw scores within
    [kernel_size // 2] of position 0, divided by the kernel, is 9/2. *)
Lemma avgpool_counterexample :
  pooling even_kernel = "avgpool"%string /\
  exists pool y,
    pool_scores even_kernel = inr pool /\ pool [3; 6; 9; 12]%Q = inr y /\
    y = [3 # 2; 9 # 2; 15 # 2; 21 # 2; 6]%Q /\
    len y <> len [3; 6; 9; 12]%Q /\
    padded_average (kernel_size even_kernel) [3; 6; 9; 12]%Q 0 = (9 # 2)%Q /\
    nth 0 y 0%Q <> padded_average (kernel_size even_kernel) [3; 6; 9; 12]%Q 0.
Proof.
  split; [reflexivity |].
  exists (avg_pool1d true 2 1), [3 # 2; 9 # 2; 15 # 2; 21 # 2; 6]%Q.
  repeat split; try (vm_compute; reflexivity); vm_compute; discriminate.
Qed.

(** The softmax, the dot product and the scores of the code on small inputs. *)
Example softmax_run : softmax [0; 1; 2]%Q = [1 # 7; 2 # 7; 4 # 7]%Q.
Proof. vm_compute. reflexivity. Qed.

Example dot_run : dot [1; 2; 3]%Q [4; 5; 6]%Q = 32%Q.
Proof. vm_compute. reflexivity. Qed.

Example scores_run :
  head_scores 2 1 [[1]; [0]; [2]; [1]]%Q [[0]; [2]; [1]; [3]]%Q
  = [2075258708292324557 # 18158513697557839875;
     18677328374630921012 # 18158513697557839875]%Q.
Proof. vm_compute. reflexivity. Qed.

(** C8, as first stated, fails.  Three positions with a window of two and a
    head dimension of one, in float32: the keys are 0, 0 and the largest finite
    float32, the window queries are 1 and 0.  For the first window query the
    last key is later and masked; its scaled product is the largest float32, to
    which line 112 adds the lowest one, which gives 0, the score of the two
    visible keys.  The row is uniform, and the historical position receives 1/3
    from it and 1/3 from the row of the second query: 2/3.  Masked to minus
    infinity, the last key would weigh nothing in the first row, and the
    position would receive 1/2 + 1/3 = 5/6. *)
Lemma scores_counterexample :
  float32_max = 340282346638528859811704183484516925440 /\
  @head_scores Q float32_range 2 1
      [[0]; [1]; [0]]%Q [[0]; [0]; [inject_Z float32_max]]%Q
    = [2 # 3]%Q /\
  @infinite_mask_mass Q float32_range 2 1
      [[0]; [1]; [0]]%Q [[0]; [0]; [inject_Z float32_max]]%Q 0
    = (5 # 6)%Q /\
  nth 0 (@head_scores Q float32_range 2 1
           [[0]; [1]; [0]]%Q [[0]; [0]; [inject_Z float32_max]]%Q) 0%Q
    <> @infinite_mask_mass Q float32_range 2 1
         [[0]; [1]; [0]]%Q [[0]; [0]; [inject_Z float32_max]]%Q 0.
Proof.
  repeat split; try (vm_compute; reflexivity); vm_compute; discriminate.
Qed.

Lemma scores_witness :
  (0 < 2 <= len [[0]; [2]; [1]; [3]]%Q /\
   len [[1]; [0]; [2]; [1]]%Q = len [[0]; [2]; [1]; [3]]%Q) /\
  len (head_scores 2 1 [[1]; [0]; [2]; [1]]%Q [[0]; [2]; [1]; [3]]%Q)
    = len [[0]; [2]; [1]; [3]]%Q - 2 /\
  forall h, Z.of_nat h < len [[0]; [2]; [1]; [3]]%Q - 2 ->
    nth h (head_scores 2 1 [[1]; [0]; [2]; [1]]%Q [[0]; [2]; [1]; [3]]%Q) 0%Q
    = window_mass 2 1 [[1]; [0]; [2]; [1]]%Q [[0]; [2]; [1]; [3]]%Q h.
Proof.
  assert (H1 : 0 < 2 <= len [[0]; [2]; [1]; [3]]%Q) by (vm_compute; split; congruence).
  assert (H2 : len [[1]; [0]; [2]; [1]]%Q = len [[0]; [2]; [1]; [3]]%Q) by reflexivity.
  split; [split; assumption |].
  exact (scores_are_window_mass 2 1 [[1]; [0]; [2]; [1]]%Q [[0]; [2]; [1]; [3]]%Q H1 H2).
Defined.

End Examples.

(** * Further properties of the cluster *)

(** ** Construction and reconfiguration *)

(** X1.  Whatever sequence of returning [reset] calls follows [__init__], the
    capacity of the cluster exceeds its window, and its layer index, depth and
    [beta] are those it was constructed with. *)
Theorem built_invariant (l : option Z) (n b : Z) (c : PyramidKVCluster) :
  Built l n b c ->
  window_size c < max_capacity_prompt c /\
  layer_idx c = l /\ num_hidden_layers c = n /\ beta c = b.
Proof.
  induction 1 as [w m k p r c H | c w m k p r c' Hc IH H].
  - unfold init in H. destruct (Z.ltb_spec 0 (m - w)); simpl in H; [| discriminate].
    inversion H; subst; simpl. repeat split; auto; lia.
  - unfold reset in H. destruct (Z.ltb_spec 0 (m - w)); simpl in H; [| discriminate].
    inversion H; subst; simpl. destruct IH as (_ & I1 & I2 & I3).
    repeat split; auto; lia.
Qed.

Section Reconfiguration.

Context {F : Type} {SF : Scalar F}.

(** X2.  A [reset] whose new capacity does not exceed the new window raises
    [AssertionError] after it has already stored both: the object keeps its old
    kernel, pooling and repetition factor with the new window and capacity.
    From then on, on a cluster with a layer index, [beta <> 0], more than one
    layer, a supported pooling kind and a positive kernel, a call without
    override on well-shaped keys and queries (at least one batch element and
    one head, a repetition factor of at least one) whose sequence is longer
    than the new window, itself positive, returns the window only. *)
Theorem failed_reset_degrades (self : PyramidKVCluster) (w m k : Z) (p : string)
    (r : option Z) :
  m <= w ->
  let self' := fst (reset_inplace self w m k p r) in
  snd (reset_inplace self w m k p r) = inl AssertionError /\
  window_size self' = w /\ max_capacity_prompt self' = m /\
  kernel_size self' = kernel_size self /\ pooling self' = pooling self /\
  n_rep self' = n_rep self /\
  forall (K Q V : Tensor4 F) (b h q d i : Z),
    has_shape4 b h q d K = true ->
    has_shape4 b (h * rep_factor self) q d Q = true ->
    0 < b -> 0 < h -> 1 <= rep_factor self ->
    layer_idx self = Some i -> beta self <> 0 -> num_hidden_layers self <> 1 ->
    supported self -> 0 < kernel_size self -> 0 < w < q ->
    update_kv self' K Q V None = inr (seq_from (- w) K, seq_from (- w) V).
Proof.
  intros Hm. unfold reset_inplace.
  destruct (Z.ltb_spec 0 (m - w)); [lia |]. simpl.
  repeat split; try reflexivity.
  intros K Q V b h q d i HK HQ Hb Hh Hr Hi Hbeta Hn Hsup Hks Hq.
  destruct (schedule_total (assign_window self w m) m q i Hbeta Hn Hi) as [sched Hs].
  destruct (update_kv_returns (assign_window self w m) K Q V None b h q d sched
              HK HQ Hb Hh Hr Hsup Hks Hq ltac:(simpl; lia) Hs) as [Hret _].
  apply Hret. simpl. lia.
Qed.

(** ** Failures that come before the regime *)

(** X3.  [update_kv] fails before it looks at the regime, in this order: on
    key and query lengths that differ ([AssertionError]), on [beta = 0]
    ([ZeroDivisionError]), on a single layer, and on a cluster built without
    [layer_idx], the default of [__init__] ([TypeError]).  So a call returns
    only when none of the four holds. *)
Theorem failures_before_regime (self : PyramidKVCluster) (K Q V : Tensor4 F)
    (cap : option Z) :
  (seq_len K <> seq_len Q -> update_kv self K Q V cap = inl AssertionError) /\
  (seq_len K = seq_len Q -> beta self = 0 ->
   update_kv self K Q V cap = inl ZeroDivisionError) /\
  (seq_len K = seq_len Q -> beta self <> 0 -> num_hidden_layers self <> 1 ->
   layer_idx self = None -> update_kv self K Q V cap = inl TypeError) /\
  (forall K' V', update_kv self K Q V cap = inr (K', V') ->
   seq_len K = seq_len Q /\ beta self <> 0 /\ num_hidden_layers self <> 1 /\
   layer_idx self <> None).
Proof.
  split; [| split; [| split]].
  - intros Hne. unfold update_kv.
    destruct (Z.eqb_spec (seq_len K) (seq_len Q)); [contradiction | reflexivity].
  - intros Hlen Hb. apply update_kv_schedule_first; [exact Hlen |].
    unfold schedule, floordiv. rewrite Hb. reflexivity.
  - intros Hlen Hb Hn Hl. apply update_kv_schedule_first; [exact Hlen |].
    unfold schedule. rewrite floordiv_ok by exact Hb. simpl.
    destruct (_ >=? _); rewrite floordiv_ok by lia; simpl; rewrite Hl; reflexivity.
  - intros K' V' H. apply update_kv_inr in H. cbv zeta in H.
    destruct H as (Hlen & sched & Hs & _).
    apply schedule_inr in Hs. destruct Hs as (Hb & Hn & i & Hi & _).
    repeat split; auto. congruence.
Qed.

(** ** The MODERATE regime *)

(** X4.  A MODERATE call has a capacity above twice the window, so the
    window-only branch of lines 145-147 is never taken: with a positive kernel,
    a MODERATE call that returns gives exactly [current_max_capacity]
    positions, whatever the parity of the kernel. *)
Theorem moderate_keeps_capacity (self : PyramidKVCluster) (K Q V K' V' : Tensor4 F)
    (cap : option Z) :
  let cmc := current_max_capacity self cap in
  update_kv self K Q V cap = inr (K', V') ->
  regime self cmc (seq_len K) = MODERATE ->
  0 < kernel_size self -> all_seq_len (seq_len K) V ->
  2 * window_size self < cmc /\ all_seq_len cmc K' /\ all_seq_len cmc V'.
Proof.
  intros cmc. subst cmc. intros H Hr Hks HV.
  assert (Hreg : current_max_capacity self cap <= seq_len K
                 < (current_max_capacity self cap - window_size self) * 2).
  { unfold regime in Hr.
    destruct (Z.ltb_spec (seq_len K) (current_max_capacity self cap)); [discriminate |].
    destruct (Z.ltb_spec (seq_len K)
                ((current_max_capacity self cap - window_size self) * 2));
      [lia | discriminate]. }
  pose proof (len_nonneg (hd [] (hd [] K))) as Hq. fold (seq_len K) in Hq.
  split; [lia |].
  apply update_kv_inr in H as H'. cbv zeta in H'. destruct H' as (_ & sched & Hs & _).
  destruct (update_kv_lengths self K Q V K' V' cap sched H
              ltac:(rewrite Hr; discriminate) ltac:(lia) HV Hs) as (L1 & L2 & _ & _).
  cbv zeta in L1, L2. rewrite Hr in L1, L2. unfold budget, cache_len in L1, L2.
  pose proof (pool_out_len_ge (seq_len K - window_size self) (kernel_size self) Hks).
  replace (Z.min (current_max_capacity self cap - window_size self)
             (pool_out_len (seq_len K - window_size self) (kernel_size self)
                (kernel_size self / 2)) + window_size self)
    with (current_max_capacity self cap) in L1, L2 by lia.
  split; assumption.
Qed.

End Reconfiguration.

(** ** The schedule over all layers *)

Lemma total_budget_closed (M s : Z) (n : nat) :
  2 * total_budget M s n = 2 * Z.of_nat n * M - s * Z.of_nat n * (Z.of_nat n - 1).
Proof.
  induction n as [| n IH]; [simpl; lia |].
  cbn [total_budget]. rewrite Nat2Z.inj_succ. nia.
Qed.

Lemma schedule_layers (self : PyramidKVCluster) (cmc q_len : Z) (s : Schedule) (i : Z) :
  schedule self cmc q_len = inr s ->
  schedule (at_layer self i) cmc q_len
  = inr {| min_num := min_num s; max_num := max_num s; steps := steps s;
           layer_budget := max_num s - i * steps s |}.
Proof.
  intros H. apply schedule_inr in H as H'. destruct H' as (Hb & Hn & j & Hj & _).
  unfold schedule in *. simpl. rewrite floordiv_ok in * by exact Hb. simpl in *.
  destruct (_ >=? _); rewrite floordiv_ok in * by lia; simpl in *;
    rewrite Hj in H; simpl in H; inversion H; subst; reflexivity.
Qed.

(** X5.  For a valid configuration and a sequence that does not pass through,
    all layers share [min_num], [max_num] and [steps]; [min_num + max_num] is
    twice the uniform budget [current_max_capacity - window_size]; and the
    budgets of all [num_hidden_layers] layers add up to at least the uniform
    total, and exceed it by at most [n * (n - 2) / 2]: the pyramid moves budget
    between layers and gives none away. *)
Theorem pyramid_conserves_total (self : PyramidKVCluster) (cmc q_len : Z) (s : Schedule) :
  schedule self cmc q_len = inr s ->
  2 <= num_hidden_layers self -> 1 <= beta self ->
  window_size self < cmc -> cmc <= q_len ->
  let n := num_hidden_layers self in
  let T := total_budget (max_num s) (steps s) (Z.to_nat n) in
  (forall i, schedule (at_layer self i) cmc q_len
             = inr {| min_num := min_num s; max_num := max_num s; steps := steps s;
                      layer_budget := max_num s - i * steps s |}) /\
  min_num s + max_num s = 2 * (cmc - window_size self) /\
  2 * n * (cmc - window_size self) <= 2 * T
    <= 2 * n * (cmc - window_size self) + n * (n - 2).
Proof.
  intros H Hn Hb Hw Hq n T. subst n T.
  split; [intros i; apply schedule_layers; exact H |].
  apply schedule_inr in H as H'. destruct H' as (_ & _ & j & Hj & Hst & _).
  assert (Hsum : min_num s + max_num s = 2 * (cmc - window_size self)).
  { unfold schedule in H. rewrite floordiv_ok in H by lia. simpl in H.
    destruct (_ >=? _); rewrite floordiv_ok in H by lia; simpl in H;
      rewrite Hj in H; simpl in H; inversion H; subst; cbn [min_num max_num]; ring. }
  destruct (schedule_valid self cmc q_len s j H Hj Hn Hb Hw Hq)
    as (Hmm & _ & Hs0 & _ & _).
  split; [exact Hsum |].
  rewrite total_budget_closed, Z2Nat.id by lia.
  pose proof (Z.mul_div_le (max_num s - min_num s) (num_hidden_layers self - 1)
                ltac:(lia)) as S1.
  pose proof (Z.mul_succ_div_gt (max_num s - min_num s) (num_hidden_layers self - 1)
                ltac:(lia)) as S2.
  rewrite <- Hst in S1, S2. nia.
Qed.

(** X6.  For a valid configuration, a sequence that does not pass through and
    a layer of the network, the budget lies between [min_num] and [max_num],
    which lie between zero and the number of historical positions; layer 0
    gets [max_num], and the deepest layer gets less than
    [min_num + num_hidden_layers - 1]. *)
Theorem layer_budget_in_range (self : PyramidKVCluster) (cmc q_len i : Z) (s : Schedule) :
  schedule (at_layer self i) cmc q_len = inr s ->
  2 <= num_hidden_layers self -> 1 <= beta self ->
  window_size self < cmc -> cmc <= q_len ->
  0 <= i <= num_hidden_layers self - 1 ->
  0 <= min_num s <= layer_budget s /\
  layer_budget s <= max_num s <= q_len - window_size self /\
  (i = 0 -> layer_budget s = max_num s) /\
  (i = num_hidden_layers self - 1 ->
   layer_budget s < min_num s + (num_hidden_layers self - 1)).
Proof.
  intros H Hn Hb Hw Hq Hi.
  destruct (schedule_valid (at_layer self i) cmc q_len s i H eq_refl Hn Hb Hw Hq)
    as (Hmm & HM & Hs0 & Hl & Hr).
  specialize (Hr Hi). simpl in Hr, HM.
  apply schedule_inr in H. destruct H as (_ & _ & j & Hj & Hst & _).
  simpl in Hst.
  pose proof (Z.mul_succ_div_gt (max_num s - min_num s) (num_hidden_layers self - 1)
                ltac:(lia)) as S2.
  rewrite <- Hst in S2.
  split; [lia |]. split; [lia |]. split.
  - intros ->. lia.
  - intros E. rewrite E in Hl. nia.
Qed.

(** ** What the selection keeps *)

Lemma increasing_full (l : list nat) (a : nat) :
  StronglySorted Nat.lt l ->
  Forall (fun i => (a <= i < a + List.length l)%nat) l ->
  l = seq a (List.length l).
Proof.
  intros Hs; revert a; induction Hs as [| x l Hs IH Hx]; intros a Hb; [reflexivity |].
  inversion Hb as [| ? ? Hxa Hl]; subst. simpl in *.
  assert (Hl' : Forall (fun i => (S a <= i < S a + List.length l)%nat) l).
  { rewrite Forall_forall in *. intros i Hi.
    specialize (Hx i Hi). specialize (Hl i Hi). unfold Nat.lt in Hx. lia. }
  specialize (IH (S a) Hl').
  assert (x = a).
  { destruct l as [| y l]; [simpl in Hxa; lia |].
    simpl in IH. injection IH as Hy _.
    inversion Hx as [| ? ? Hxy _]. unfold Nat.lt in Hxy. lia. }
  subst x. f_equal. exact IH.
Qed.

Lemma subseq_nil_l {A : Type} (l : list A) : subseq [] l.
Proof. induction l; constructor; assumption. Qed.

Lemma subseq_refl {A : Type} (l : list A) : subseq l l.
Proof. induction l; constructor; assumption. Qed.

Lemma subseq_app {A : Type} (l1 l2 l3 l4 : list A) :
  subseq l1 l2 -> subseq l3 l4 -> subseq (l1 ++ l3) (l2 ++ l4).
Proof. induction 1; simpl; intros H'; try constructor; auto. Qed.

Lemma subseq_skipn {A : Type} (n : nat) (l : list A) : subseq (skipn n l) l.
Proof.
  revert l; induction n as [| n IH]; intros [| x l]; simpl;
    try apply subseq_refl. constructor. apply IH.
Qed.

(** The entries at increasing positions form a subsequence. *)
Lemma subseq_gathered {A : Type} (d : A) (past : list A) (a : nat) (idx : list nat) :
  StronglySorted Nat.lt idx ->
  Forall (fun i => (a <= i < a + List.length past)%nat) idx ->
  subseq (map (fun i => nth (i - a) past d) idx) past.
Proof.
  revert a idx; induction past as [| x past IH]; intros a idx Hs Hb.
  - destruct idx as [| i idx]; [constructor |].
    inversion Hb; subst. simpl in *. lia.
  - assert (Hshift : forall l : list nat,
              Forall (fun i => (S a <= i)%nat) l ->
              map (fun i => nth (i - a) (x :: past) d) l
              = map (fun i => nth (i - S a) past d) l).
    { intros l Hl. apply map_ext_in. intros i Hi.
      rewrite Forall_forall in Hl. specialize (Hl i Hi).
      replace (i - a)%nat with (S (i - S a)) by lia. reflexivity. }
    destruct idx as [| i idx]; [apply subseq_nil_l |].
    inversion Hb as [| ? ? Hi Hrest]; subst.
    inversion Hs as [| ? ? Hs' Hlt]; subst.
    destruct (Nat.eq_dec i a) as [-> | Hne].
    + assert (Hidx : Forall (fun j => (S a <= j < S a + List.length past)%nat) idx).
      { rewrite Forall_forall in *. intros j Hj.
        specialize (Hlt j Hj). specialize (Hrest j Hj).
        unfold Nat.lt in Hlt. simpl in Hrest. lia. }
      simpl. rewrite Nat.sub_diag.
      rewrite Hshift by (revert Hidx; apply Forall_impl; intros; lia).
      constructor. apply IH; assumption.
    + assert (Hidx : Forall (fun j => (S a <= j < S a + List.length past)%nat)
                       (i :: idx)).
      { rewrite Forall_forall in *. intros j Hj.
        specialize (Hb j Hj). simpl in Hb.
        destruct Hj as [<- | Hj]; [lia |].
        specialize (Hlt j Hj). unfold Nat.lt in Hlt. lia. }
      rewrite Hshift by (revert Hidx; apply Forall_impl; intros; lia).
      constructor. apply IH; assumption.
Qed.

Lemma map2_id_l {A B : Type} (f : A -> B -> A) (l : list A) (l' : list B) :
  Forall2 (fun x y => f x y = x) l l' -> map2 f l l' = l.
Proof. induction 1; simpl; congruence. Qed.

Lemma Forall2_map2_l {A B : Type} (f : A -> B -> A) (R : A -> A -> Prop)
    (l : list A) (l' : list B) :
  Forall2 (fun x y => R (f x y) x) l l' -> Forall2 R (map2 f l l') l.
Proof. induction 1; simpl; constructor; auto. Qed.

Section Kept.

Context {F : Type} {SF : Scalar F}.

Lemma Forall2_with_Forall {A B : Type} (R : A -> B -> Prop) (P : A -> Prop)
    (Q : B -> Prop) (l : list A) (l' : list B) :
  Forall2 R l l' -> Forall P l -> Forall Q l' ->
  Forall2 (fun x y => R x y /\ P x /\ Q y) l l'.
Proof.
  induction 1; intros HP HQ; constructor; inversion HP; inversion HQ; subst; auto.
Qed.

(** Selecting every historical position, in order, changes nothing. *)
Lemma compressed_cache_full (w q : Z) (t : Tensor4 F) (indices : list (list (list nat))) :
  0 < w <= q -> Forall (Forall (fun m => len m = q)) t ->
  Forall (Forall (fun ix => StronglySorted Nat.lt ix /\ len ix = q - w)) indices ->
  historical w t indices ->
  compressed_cache w t indices = t.
Proof.
  intros Hw Ht Hi Hh. unfold compressed_cache.
  apply map2_id_l.
  pose proof (Forall2_with_Forall _ _ _ _ _ Hh Ht Hi) as H.
  eapply Forall2_impl_in; [exact H |]. intros x ih _ (Hxi & Hx & Hih). simpl in Hxi.
  apply map2_id_l.
  pose proof (Forall2_with_Forall _ _ _ _ _ Hxi Hx Hih) as H'.
  eapply Forall2_impl_in; [exact H' |]. intros m ix _ (Hb & Hm & Hs & Hl). simpl in Hb.
  pose proof (len_slice_to w m ltac:(lia)) as E.
  assert (El : List.length ix = List.length (slice_to (- w) m))
    by (unfold len in *; lia).
  rewrite (increasing_full ix 0 Hs)
    by (revert Hb; apply Forall_impl; intros; lia).
  rewrite El, <- (map_seq_nth [] (slice_to (- w) m)).
  apply slice_to_from.
Qed.

(** A compressing call above the window whose budget covers the whole history
    returns its cache unchanged. *)
Lemma full_budget_identity (self : PyramidKVCluster) (K Q V K' V' : Tensor4 F)
    (cap : option Z) (sched : Schedule) :
  update_kv self K Q V cap = inr (K', V') ->
  regime self (current_max_capacity self cap) (seq_len K) <> PASSTHROUGH ->
  window_size self < current_max_capacity self cap ->
  Z.odd (kernel_size self) = true ->
  schedule self (current_max_capacity self cap) (seq_len K) = inr sched ->
  seq_len K - window_size self
    <= budget (regime self (current_max_capacity self cap) (seq_len K)) self
         (current_max_capacity self cap) sched ->
  all_seq_len (seq_len K) V ->
  K' = K /\ V' = V.
Proof.
  intros H Hr Hw Hodd Hs Hbud HV.
  destruct (update_kv_compressing self K Q V K' V' cap H Hr Hw)
    as (sched' & raw & Hs' & Hwq & HK & Hraw & HK' & HhK & HV' & HhV).
  rewrite Hs in Hs'. inversion Hs'; subst sched'; clear Hs'.
  cbv zeta in Hraw. unfold cache_len in Hraw.
  rewrite pool_out_len_odd in Hraw by exact Hodd.
  assert (Hidx : Forall (Forall (fun ix =>
            StronglySorted Nat.lt ix /\ len ix = seq_len K - window_size self))
            (map (map sort) raw)).
  { apply Forall_map_map. revert Hraw; apply Forall2_weaken.
    intros idx (_ & Hl & Hn & _). split; [apply sort_increasing, Hn |].
    rewrite len_sort. lia. }
  subst K' V'.
  split; apply compressed_cache_full with (q := seq_len K); assumption.
Qed.

(** X7.  When the budget of a compressing call above the window covers the
    whole history, [topk] selects every historical position, the sort puts them
    back in order, and the call returns its keys and values unchanged (odd
    kernel, values as long as the keys). *)
Theorem whole_history_unchanged (self : PyramidKVCluster) (K Q V K' V' : Tensor4 F)
    (cap : option Z) (sched : Schedule) :
  let cmc := current_max_capacity self cap in
  let w := window_size self in
  let q_len := seq_len K in
  update_kv self K Q V cap = inr (K', V') ->
  regime self cmc q_len <> PASSTHROUGH -> w < cmc ->
  Z.odd (kernel_size self) = true ->
  schedule self cmc q_len = inr sched ->
  q_len - w <= budget (regime self cmc q_len) self cmc sched ->
  all_seq_len q_len V ->
  K' = K /\ V' = V.
Proof.
  intros cmc w q_len. subst cmc w q_len. apply full_budget_identity.
Qed.

(** X8.  At layer 0 of an AGGRESSIVE call above the window, when the history
    is no longer than the unclamped [max_num] of line 79, line 82 sets the
    budget to the whole history, and the call, if it returns, returns its cache
    unchanged (odd kernel, values as long as the keys). *)
Theorem layer_zero_unchanged (self : PyramidKVCluster) (K Q V K' V' : Tensor4 F)
    (cap : option Z) :
  let cmc := current_max_capacity self cap in
  let w := window_size self in
  let q_len := seq_len K in
  update_kv self K Q V cap = inr (K', V') ->
  layer_idx self = Some 0 ->
  regime self cmc q_len = AGGRESSIVE -> w < cmc ->
  Z.odd (kernel_size self) = true ->
  q_len - w <= (cmc - w) * 2 - (cmc - w) / beta self ->
  all_seq_len q_len V ->
  K' = K /\ V' = V.
Proof.
  intros cmc w q_len. subst cmc w q_len. intros H Hl Hr Hw Hodd Hclamp HV.
  apply update_kv_inr in H as H'. cbv zeta in H'. destruct H' as (_ & sched & Hs & _).
  assert (Hb : layer_budget sched = seq_len K - window_size self).
  { apply schedule_inr in Hs as Hs'. destruct Hs' as (Hbeta & Hn & _).
    unfold schedule in Hs. rewrite floordiv_ok in Hs by exact Hbeta. simpl in Hs.
    destruct (Z.geb_spec ((current_max_capacity self cap - window_size self) * 2
                            - (current_max_capacity self cap - window_size self)
                              / beta self)
                         (seq_len K - window_size self)); [| lia].
    rewrite floordiv_ok in Hs by lia. simpl in Hs. rewrite Hl in Hs. simpl in Hs.
    inversion Hs; subst; cbn [layer_budget]. ring. }
  apply (full_budget_identity self K Q V K' V' cap sched); try assumption.
  - rewrite Hr. discriminate.
  - rewrite Hr. unfold budget. lia.
Qed.

End Kept.

Lemma Forall2_map_l {A : Type} (f : A -> A) (R : A -> A -> Prop) (l : list A) :
  Forall (fun x => R (f x) x) l -> Forall2 R (map f l) l.
Proof. induction 1; simpl; constructor; auto. Qed.

Lemma Forall2_diag {A : Type} (R : A -> A -> Prop) (l : list A) :
  (forall x, R x x) -> Forall2 R l l.
Proof. intros H. induction l; constructor; auto. Qed.

Section Selected.

Context {F : Type} {SF : Scalar F}.

Lemma subseq_head (w : Z) (m : Matrix F) (ix : list nat) :
  StronglySorted Nat.lt ix ->
  Forall (fun i => (i < List.length (slice_to (- w) m))%nat) ix ->
  subseq (map (fun i => nth i (slice_to (- w) m) []) ix ++ slice_from (- w) m) m.
Proof.
  intros Hs Hb.
  set (kept := map (fun i => nth i (slice_to (- w) m) []) ix).
  set (cur := slice_from (- w) m).
  replace m with (slice_to (- w) m ++ cur) by apply slice_to_from.
  subst kept.
  apply subseq_app; [| apply subseq_refl].
  rewrite (map_ext (fun i => nth i (slice_to (- w) m) [])
                   (fun i => nth (i - 0) (slice_to (- w) m) []))
    by (intros i; rewrite Nat.sub_0_r; reflexivity).
  apply subseq_gathered; [exact Hs |].
  revert Hb; apply Forall_impl. intros; lia.
Qed.

Lemma subseq_compressed (w : Z) (t : Tensor4 F) (indices : list (list (list nat))) :
  Forall (Forall (StronglySorted Nat.lt)) indices ->
  historical w t indices ->
  Forall2 (Forall2 subseq) (compressed_cache w t indices) t.
Proof.
  intros Hi Hh. unfold compressed_cache.
  apply Forall2_map2_l.
  assert (Ht : Forall (fun _ : list (list (list F)) => True) t)
    by (apply Forall_forall; auto).
  pose proof (Forall2_with_Forall _ _ _ _ _ Hh Ht Hi) as H.
  eapply Forall2_impl_in; [exact H |]. intros x ih _ (Hxi & _ & Hih). simpl in Hxi.
  apply Forall2_map2_l.
  assert (Hx : Forall (fun _ : list (list F) => True) x) by (apply Forall_forall; auto).
  pose proof (Forall2_with_Forall _ _ _ _ _ Hxi Hx Hih) as H'.
  eapply Forall2_impl_in; [exact H' |]. intros m ix _ (Hb & _ & Hs).
  apply subseq_head; assumption.
Qed.

Lemma subseq_seq_from (z : Z) (t : Tensor4 F) :
  Forall2 (Forall2 subseq) (seq_from z t) t.
Proof.
  unfold seq_from. apply Forall2_map_l, Forall_forall. intros x _.
  apply Forall2_map_l, Forall_forall. intros m _.
  unfold slice_from. apply subseq_skipn.
Qed.

(** X9.  Whenever [update_kv] returns, every head of the returned keys is a
    subsequence of the same head of the keys that came in, and likewise for the
    values: the call drops positions, and never reorders, repeats or alters
    what it keeps, nor changes the number of batch elements or heads. *)
Theorem outputs_are_subsequences (self : PyramidKVCluster) (K Q V K' V' : Tensor4 F)
    (cap : option Z) :
  update_kv self K Q V cap = inr (K', V') ->
  Forall2 (Forall2 subseq) K' K /\ Forall2 (Forall2 subseq) V' V.
Proof.
  intros H. apply update_kv_inr in H. cbv zeta in H.
  destruct H as (_ & sched & _ & H).
  assert (Hcomp : forall r,
    (exists bsz h d cache,
       attn_cache self bsz h (seq_len K) d K Q = inr cache /\
       (if current_max_capacity self cap <=? window_size self
        then K' = seq_from (- window_size self) K /\ V' = seq_from (- window_size self) V
        else compress (window_size self) d
               (budget r self (current_max_capacity self cap) sched) cache K V
             = inr (K', V'))) ->
    Forall2 (Forall2 subseq) K' K /\ Forall2 (Forall2 subseq) V' V).
  { intros r (bsz & h & d & cache & Hc & H').
    destruct (current_max_capacity self cap <=? window_size self).
    - destruct H' as [-> ->]. split; apply subseq_seq_from.
    - apply attn_cache_inr in Hc. destruct Hc as (_ & _ & Hshape).
      apply compress_inr in H'. destruct H' as (raw & Hraw & -> & HK & -> & HV).
      destruct (topk_indices_inr _ _ _ _ _ _ Hshape Hraw) as [_ Hidx].
      assert (Hs : Forall (Forall (StronglySorted Nat.lt)) (map (map sort) raw)).
      { apply Forall_map_map. revert Hidx; apply Forall2_weaken.
        intros idx (_ & _ & Hn & _). apply sort_increasing, Hn. }
      split; apply subseq_compressed; assumption. }
  destruct (regime self (current_max_capacity self cap) (seq_len K)).
  - destruct H as [-> ->].
    split; apply Forall2_diag; intros x; apply Forall2_diag; apply subseq_refl.
  - apply (Hcomp MODERATE H).
  - apply (Hcomp AGGRESSIVE H).
Qed.

(** X10.  The positions that a call keeps depend on the keys and queries only.
    Two returning calls that differ in their values return the same keys, and
    either both return their values unchanged, or both return the window of
    their values, or both return the values at one and the same selection of
    positions. *)
Theorem values_do_not_steer (self : PyramidKVCluster)
    (K Q V1 V2 K1 K2 V1' V2' : Tensor4 F) (cap : option Z) :
  update_kv self K Q V1 cap = inr (K1, V1') ->
  update_kv self K Q V2 cap = inr (K2, V2') ->
  K1 = K2 /\
  ((V1' = V1 /\ V2' = V2) \/
   (V1' = seq_from (- window_size self) V1 /\ V2' = seq_from (- window_size self) V2) \/
   exists indices,
     K1 = compressed_cache (window_size self) K indices /\
     V1' = compressed_cache (window_size self) V1 indices /\
     V2' = compressed_cache (window_size self) V2 indices).
Proof.
  intros H1 H2. unfold update_kv in H1, H2.
  destruct (assert (seq_len K =? seq_len Q)) as [e | u]; [discriminate |].
  simpl in H1, H2.
  destruct (match n_rep self with
            | Some _ => shape4 K
            | None => shape4 Q
            end) as [[[bsz h] q] d].
  destruct (schedule self (current_max_capacity self cap) q) as [e | sched];
    [discriminate |]. simpl in H1, H2.
  assert (Hcomp : forall bud cache,
    compress (window_size self) d bud cache K V1 = inr (K1, V1') ->
    compress (window_size self) d bud cache K V2 = inr (K2, V2') ->
    K1 = K2 /\
    exists indices,
      K1 = compressed_cache (window_size self) K indices /\
      V1' = compressed_cache (window_size self) V1 indices /\
      V2' = compressed_cache (window_size self) V2 indices).
  { intros bud cache C1 C2. apply compress_inr in C1, C2.
    destruct C1 as (raw1 & R1 & E1 & _ & E1' & _).
    destruct C2 as (raw2 & R2 & E2 & _ & E2' & _).
    rewrite R1 in R2. inversion R2; subst raw2.
    split; [congruence |]. exists (map (map sort) raw1). auto. }
  destruct (q <? current_max_capacity self cap).
  - inversion H1; inversion H2; subst. auto.
  - destruct (q <? (current_max_capacity self cap - window_size self) * 2);
      (destruct (attn_cache self bsz h q d K Q) as [e | cache]; [discriminate |]);
      simpl in H1, H2;
      (destruct (current_max_capacity self cap <=? window_size self);
       [inversion H1; inversion H2; subst; auto |
        destruct (Hcomp _ _ H1 H2) as [E X]; auto]).
Qed.

Lemma pool_scores_supported (self : PyramidKVCluster) (pool : list F -> result (list F)) :
  pool_scores self = inr pool -> supported self.
Proof.
  unfold pool_scores, supported. intros H.
  destruct (String.eqb_spec (pooling self) "avgpool"); [left; assumption |].
  destruct (String.eqb_spec (pooling self) "maxpool"); [right; assumption |].
  discriminate.
Qed.

(** X11.  With a pooling kind other than ["avgpool"] and ["maxpool"], a call
    returns only in the PASSTHROUGH regime, with its cache unchanged: no such
    cluster ever returns a compressed cache. *)
Theorem unsupported_pooling_never_compresses (self : PyramidKVCluster)
    (K Q V K' V' : Tensor4 F) (cap : option Z) :
  ~ supported self ->
  update_kv self K Q V cap = inr (K', V') ->
  regime self (current_max_capacity self cap) (seq_len K) = PASSTHROUGH /\
  K' = K /\ V' = V.
Proof.
  intros Hsup H. apply update_kv_inr in H. cbv zeta in H.
  destruct H as (_ & sched & _ & H).
  destruct (regime self (current_max_capacity self cap) (seq_len K)).
  - destruct H as [-> ->]. auto.
  - destruct H as (bsz & h & d & cache & Hc & _).
    apply attn_cache_inr in Hc. destruct Hc as (_ & [pool Hp] & _).
    apply pool_scores_supported in Hp. contradiction.
  - destruct H as (bsz & h & d & cache & Hc & _).
    apply attn_cache_inr in Hc. destruct Hc as (_ & [pool Hp] & _).
    apply pool_scores_supported in Hp. contradiction.
Qed.

(** X12.  When the schedule gives a negative budget, as it can for a layer
    index beyond the depth of the network, a well-shaped AGGRESSIVE call above
    the window raises the [RuntimeError] of [topk], whatever the scores. *)
Theorem negative_budget_raises (self : PyramidKVCluster) (K Q V : Tensor4 F)
    (cap : option Z) (b h q d : Z) (sched : Schedule) :
  let cmc := current_max_capacity self cap in
  let w := window_size self in
  has_shape4 b h q d K = true ->
  has_shape4 b (h * rep_factor self) q d Q = true ->
  0 < b -> 0 < h -> 1 <= rep_factor self ->
  supported self -> 0 < kernel_size self ->
  0 < w < cmc -> cmc <= q -> (cmc - w) * 2 <= q ->
  schedule self cmc q = inr sched ->
  layer_budget sched < 0 ->
  update_kv self K Q V cap = inl RuntimeError.
Proof.
  intros cmc w. subst cmc w. intros HK HQ Hb Hh Hr Hsup Hks Hw Hq0 Hq Hs Hneg.
  rewrite (update_kv_shaped self K Q V cap b h q d HK HQ Hb Hh ltac:(lia) Hr).
  cbv zeta. rewrite Hs. simpl.
  assert (Hfit : scores_fit self b h q d K Q = true).
  { unfold scores_fit. rewrite HK, HQ. simpl.
    rewrite !andb_true_iff, Z.leb_le, Z.ltb_lt, Z.leb_le. lia. }
  destruct (attn_cache_total self b h q d K Q Hfit Hsup Hks ltac:(lia))
    as [cache Hcache].
  destruct (Z.ltb_spec q (current_max_capacity self cap)); [lia |].
  destruct (Z.ltb_spec q ((current_max_capacity self cap - window_size self) * 2));
    [lia |].
  rewrite Hcache. simpl.
  destruct (Z.leb_spec (current_max_capacity self cap) (window_size self)); [lia |].
  apply attn_cache_inr in Hcache. destruct Hcache as (_ & _ & Hb' & Hshape).
  destruct cache as [| x cache]; [unfold len in Hb'; simpl in Hb'; lia |].
  inversion Hshape as [| ? ? [Hx _] _]; subst.
  destruct x as [| s x]; [unfold len in Hh; simpl in Hh; lia |].
  unfold compress, topk_indices. simpl. unfold topk.
  destruct (Z.ltb_spec (Z.min (layer_budget sched) (len s)) 0); [reflexivity |].
  pose proof (len_nonneg s). lia.
Qed.

End Selected.

(** ** The other pooling paths *)

Section OtherPooling.

Context {F : Type} {SF : Scalar F}.

(** X13.  With [pooling = "maxpool"], an odd positive kernel and at least one
    historical position, pooling succeeds and keeps the number of scores, and
    the smoothed score at position [p] is the running maximum, started from
    minus infinity, of the raw scores at the existing positions within
    [kernel_size // 2] of [p]: a padding cell never wins. *)
Theorem maxpool_window_max (self : PyramidKVCluster) (x : list F) :
  pooling self = "maxpool"%string ->
  Z.odd (kernel_size self) = true -> 0 < kernel_size self -> 0 < len x ->
  exists pool y,
    pool_scores self = inr pool /\ pool x = inr y /\ len y = len x /\
    forall p, (p < List.length x)%nat ->
      nth p y fzero = window_max (kernel_size self) x p.
Proof.
  intros Hp Hodd Hks Hx.
  exists (max_pool1d (kernel_size self) (kernel_size self / 2)).
  unfold pool_scores. rewrite Hp. simpl.
  unfold max_pool1d. rewrite pool_check_half by assumption. simpl.
  eexists. split; [reflexivity |]. split; [reflexivity |].
  unfold windows. rewrite pool_out_len_odd by exact Hodd.
  split; [rewrite !len_map, len_seq; lia |].
  intros p Hlt. rewrite map_map.
  rewrite nth_map_seq by (unfold len; lia). simpl.
  rewrite in_range_near by assumption. reflexivity.
Qed.

Lemma pool_out_len_even (l ks : Z) : Z.even ks = true -> pool_out_len l ks (ks / 2) = l + 1.
Proof.
  intros Heven. unfold pool_out_len.
  rewrite (Zeven_div2 ks) at 2 by (apply Zeven_bool_iff; exact Heven).
  rewrite Z.div2_div. lia.
Qed.

Lemma in_range_early (x : list F) (ks : Z) (p : nat) :
  0 < ks -> Z.even ks = true ->
  in_range (firstn (Z.to_nat ks) (skipn p (padded x (ks / 2))))
  = map (fun j => nth j x fzero)
        (filter (around_early (Z.to_nat (ks / 2)) p) (seq 0 (List.length x))).
Proof.
  intros Hks Heven. rewrite in_range_window.
  rewrite (firstn_skipn_nth fzero), <- filter_seq_range. f_equal.
  apply filter_ext. intros j. unfold around_early.
  assert (E : Z.to_nat ks = (2 * Z.to_nat (ks / 2))%nat).
  { rewrite (Zeven_div2 ks) at 1 by (apply Zeven_bool_iff; exact Heven).
    rewrite Z.div2_div.
    pose proof (Z.div_pos ks 2 ltac:(lia) ltac:(lia)). lia. }
  rewrite E. set (r := Z.to_nat (ks / 2)).
  destruct (Nat.leb_spec (p - r) j), (Nat.ltb_spec j (p - r + (2 * r - (r - p)))),
    (Nat.leb_spec p (j + r)), (Nat.ltb_spec j (p + r)); simpl; try reflexivity; lia.
Qed.

(** X14.  With [pooling = "avgpool"] and an even positive kernel, the padding
    of [kernel_size // 2] on both sides makes pooling return one score more
    than there are historical positions, and score [p] averages the
    [kernel_size // 2] positions before [p] and the [kernel_size // 2] from [p]
    on: the scores sit half a kernel early, and the last one belongs to no
    position. *)
Theorem even_kernel_shifts (self : PyramidKVCluster) (x : list F) :
  pooling self = "avgpool"%string ->
  Z.even (kernel_size self) = true -> 0 < kernel_size self -> 0 < len x ->
  exists pool y,
    pool_scores self = inr pool /\ pool x = inr y /\ len y = len x + 1 /\
    forall p, (p <= List.length x)%nat ->
      nth p y fzero = early_average (kernel_size self) x p.
Proof.
  intros Hp Heven Hks Hx.
  exists (avg_pool1d true (kernel_size self) (kernel_size self / 2)).
  unfold pool_scores. rewrite Hp. simpl.
  unfold avg_pool1d. rewrite pool_check_half by assumption. simpl.
  eexists. split; [reflexivity |]. split; [reflexivity |].
  unfold windows. rewrite pool_out_len_even by exact Heven.
  split; [rewrite !len_map, len_seq; lia |].
  intros p Hlt. rewrite map_map.
  rewrite nth_map_seq by (unfold len; lia). simpl.
  rewrite in_range_early by assumption. reflexivity.
Qed.

(** X15.  Under grouped-query attention ([n_rep = r], queries with [r] heads
    for every key/value head), a well-shaped compressing call above the window
    returns caches with the key/value head count, each head holding
    [min(budget, q - w) + w] positions. *)
Theorem gqa_keeps_kv_heads (self : PyramidKVCluster) (K Q V : Tensor4 F)
    (cap : option Z) (b h q d r : Z) (sched : Schedule) :
  let cmc := current_max_capacity self cap in
  let w := window_size self in
  let n := Z.min (budget (regime self cmc q) self cmc sched) (q - w) + w in
  n_rep self = Some r -> 1 <= r ->
  has_shape4 b h q d K = true ->
  has_shape4 b (h * r) q d Q = true ->
  has_shape4 b h q d V = true ->
  0 < b -> 0 < h ->
  supported self -> 0 < kernel_size self -> Z.odd (kernel_size self) = true ->
  0 < w < cmc -> cmc <= q ->
  schedule self cmc q = inr sched ->
  0 <= budget (regime self cmc q) self cmc sched ->
  exists K' V', update_kv self K Q V cap = inr (K', V') /\
                Shape3 b h n K' /\ Shape3 b h n V'.
Proof.
  intros cmc w n Hrep Hr HK HQ HV Hb Hh Hsup Hks Hodd Hw Hq Hs Hbud.
  assert (E : rep_factor self = r) by (unfold rep_factor; rewrite Hrep; reflexivity).
  apply update_kv_compress_shape with (d := d); try assumption; rewrite E; assumption.
Qed.

End OtherPooling.

(** ** Batch elements are independent *)

Lemma mapM_app {A B : Type} (f : A -> result B) (l1 l2 : list A) (r1 r2 : list B) :
  mapM f l1 = inr r1 -> mapM f l2 = inr r2 -> mapM f (l1 ++ l2) = inr (r1 ++ r2).
Proof.
  revert r1; induction l1 as [| x l1 IH]; simpl; intros r1 H1 H2.
  - inversion H1; subst. exact H2.
  - bind_inv H1. bind_inv H1. inversion H1; subst; clear H1.
    rewrite E. simpl. rewrite (IH a0 E0 H2). reflexivity.
Qed.

Lemma map2_app {A B C : Type} (f : A -> B -> C) (l1 l2 : list A) (l1' l2' : list B) :
  List.length l1 = List.length l1' ->
  map2 f (l1 ++ l2) (l1' ++ l2') = map2 f l1 l1' ++ map2 f l2 l2'.
Proof.
  revert l1'; induction l1 as [| x l1 IH]; intros [| y l1'] H; simpl in *;
    try discriminate; [reflexivity |].
  f_equal. apply IH. lia.
Qed.

Lemma combine_app {A B : Type} (l1 l2 : list A) (l1' l2' : list B) :
  List.length l1 = List.length l1' ->
  combine (l1 ++ l2) (l1' ++ l2') = combine l1 l1' ++ combine l2 l2'.
Proof.
  revert l1'; induction l1 as [| x l1 IH]; intros [| y l1'] H; simpl in *;
    try discriminate; [reflexivity |].
  f_equal. apply IH. lia.
Qed.

Lemma has_shape4_app {F : Type} (b1 b2 h q d : Z) (t1 t2 : Tensor4 F) :
  has_shape4 b1 h q d t1 = true -> has_shape4 b2 h q d t2 = true ->
  has_shape4 (b1 + b2) h q d (t1 ++ t2) = true.
Proof.
  unfold has_shape4. rewrite !andb_true_iff, !Z.eqb_eq.
  intros [H1 F1] [H2 F2]. split; [rewrite len_app; lia |].
  rewrite forallb_app, F1, F2. reflexivity.
Qed.

Section Batches.

Context {F : Type} {SF : Scalar F}.

Lemma attn_cache_unfold (self : PyramidKVCluster) (b h q d : Z) (K Q : Tensor4 F)
    (cache : Tensor3 F) :
  attn_cache self b h q d K Q = inr cache ->
  scores_fit self b h q d K Q = true /\
  exists pool pooled,
    pool_scores self = inr pool /\
    mapM (mapM pool)
      (map2 (map2 (head_scores (window_size self) d)) Q
         match n_rep self with
         | Some r => repeat_kv K r
         | None => K
         end) = inr pooled /\
    cache = match n_rep self with
            | Some r => map (mean_over_rep h r) pooled
            | None => pooled
            end.
Proof.
  unfold attn_cache.
  destruct (scores_fit self b h q d K Q); simpl; [| discriminate].
  intros H. split; [reflexivity |].
  bind_inv H. bind_inv H. inversion H; subst. exists a, a0. auto.
Qed.

Lemma attn_cache_app (self : PyramidKVCluster) (b1 b2 h q d : Z)
    (K1 Q1 K2 Q2 : Tensor4 F) (c1 c2 : Tensor3 F) :
  attn_cache self b1 h q d K1 Q1 = inr c1 ->
  attn_cache self b2 h q d K2 Q2 = inr c2 ->
  attn_cache self (b1 + b2) h q d (K1 ++ K2) (Q1 ++ Q2) = inr (c1 ++ c2).
Proof.
  intros H1 H2.
  apply attn_cache_unfold in H1, H2.
  destruct H1 as (F1 & pool & p1 & Hp & M1 & E1).
  destruct H2 as (F2 & pool' & p2 & Hp' & M2 & E2).
  rewrite Hp in Hp'. inversion Hp'; subst pool'; clear Hp'.
  assert (Hfit : scores_fit self (b1 + b2) h q d (K1 ++ K2) (Q1 ++ Q2) = true).
  { unfold scores_fit in *. rewrite !andb_true_iff in *.
    destruct F1 as ((((R1 & SK1) & SQ1) & W1) & W1').
    destruct F2 as ((((_ & SK2) & SQ2) & _) & _).
    repeat split; try assumption; apply has_shape4_app; assumption. }
  unfold attn_cache. rewrite Hfit. simpl. rewrite Hp. simpl.
  apply scores_fit_inv in F1. destruct F1 as (_ & [HK1 _] & [HQ1 _] & _).
  assert (Hlen : List.length Q1 = List.length K1) by (unfold len in *; lia).
  assert (Hm : mapM (mapM pool)
            (map2 (map2 (head_scores (window_size self) d)) (Q1 ++ Q2)
               match n_rep self with
               | Some r => repeat_kv (K1 ++ K2) r
               | None => K1 ++ K2
               end) = inr (p1 ++ p2)).
  { destruct (n_rep self) as [r |].
    - unfold repeat_kv in *. rewrite map_app, map2_app by (rewrite length_map; exact Hlen).
      apply mapM_app; assumption.
    - rewrite map2_app by exact Hlen. apply mapM_app; assumption. }
  rewrite Hm. simpl. subst c1 c2.
  destruct (n_rep self); [rewrite map_app |]; reflexivity.
Qed.

Lemma gather_cat_unfold (w d : Z) (states out : Tensor4 F)
    (indices : list (list (list nat))) :
  gather_cat w d states indices = inr out ->
  gather_fit d states indices = true /\
  exists pc,
    mapM (fun p => mapM (fun q => gather (slice_to (- w) (fst q)) (snd q))
                        (combine (fst p) (snd p)))
         (combine states indices) = inr pc /\
    out = map2 (map2 (@app (list F))) pc (seq_from (- w) states).
Proof.
  unfold gather_cat.
  destruct (gather_fit d states indices); simpl; [| discriminate].
  intros H. split; [reflexivity |]. bind_inv H. inversion H; subst.
  exists a. auto.
Qed.

Lemma gather_cat_app (w d : Z) (s1 s2 o1 o2 : Tensor4 F)
    (i1 i2 : list (list (list nat))) :
  gather_cat w d s1 i1 = inr o1 -> gather_cat w d s2 i2 = inr o2 ->
  gather_cat w d (s1 ++ s2) (i1 ++ i2) = inr (o1 ++ o2).
Proof.
  intros H1 H2. apply gather_cat_unfold in H1, H2.
  destruct H1 as (F1 & pc1 & M1 & E1). destruct H2 as (F2 & pc2 & M2 & E2).
  assert (Hlen : List.length s1 = List.length i1).
  { apply gather_fit_inv in F1. destruct F1 as [H _]. lia. }
  assert (Hfit : gather_fit d (s1 ++ s2) (i1 ++ i2) = true).
  { unfold gather_fit in *. rewrite !andb_true_iff, !Nat.eqb_eq in *.
    destruct F1 as [[L1 C1] D1]. destruct F2 as [[L2 C2] D2].
    rewrite combine_app, !forallb_app, !length_app by exact Hlen.
    rewrite C1, C2, D1, D2. repeat split; lia. }
  unfold gather_cat. rewrite Hfit. simpl.
  rewrite combine_app by exact Hlen.
  rewrite (mapM_app _ _ _ _ _ M1 M2). simpl.
  unfold seq_from. rewrite map_app, map2_app.
  - subst o1 o2. reflexivity.
  - apply mapM_Forall2, Forall2_length_eq in M1.
    rewrite <- M1, length_combine, length_map. lia.
Qed.

Lemma compress_app (w d bud b1 b2 h l : Z) (c1 c2 : Tensor3 F)
    (K1 V1 K2 V2 K1' V1' K2' V2' : Tensor4 F) :
  Shape3 b1 h l c1 -> Shape3 b2 h l c2 -> 0 < b1 -> 0 < b2 -> 0 < h ->
  compress w d bud c1 K1 V1 = inr (K1', V1') ->
  compress w d bud c2 K2 V2 = inr (K2', V2') ->
  compress w d bud (c1 ++ c2) (K1 ++ K2) (V1 ++ V2) = inr (K1' ++ K2', V1' ++ V2').
Proof.
  intros S1 S2 Hb1 Hb2 Hh H1 H2. unfold compress in *.
  apply bind_inr in H1. destruct H1 as (raw1 & T1 & H1).
  apply bind_inr in H1. destruct H1 as (k1 & GK1 & H1).
  apply bind_inr in H1. destruct H1 as (v1 & GV1 & H1).
  inversion H1; subst; clear H1.
  apply bind_inr in H2. destruct H2 as (raw2 & T2 & H2).
  apply bind_inr in H2. destruct H2 as (k2 & GK2 & H2).
  apply bind_inr in H2. destruct H2 as (v2 & GV2 & H2).
  inversion H2; subst; clear H2.
  assert (Hhd : forall b (c : Tensor3 F), Shape3 b h l c -> 0 < b ->
                len (hd [] (hd [] c)) = l).
  { intros b c [Hb Hc] Hpos.
    destruct c as [| x c]; [unfold len in Hb; simpl in Hb; lia |].
    inversion Hc as [| ? ? [Hx1 Hx2] _]. simpl.
    destruct x as [| s x]; [unfold len in Hx1; simpl in Hx1; lia |].
    inversion Hx2 as [| ? ? Hs _]. exact Hs. }
  assert (Ht : topk_indices bud (c1 ++ c2) = inr (raw1 ++ raw2)).
  { unfold topk_indices in *.
    assert (E12 : hd [] (c1 ++ c2) = hd [] c1).
    { destruct S1 as [Hb _]. destruct c1; [unfold len in Hb; simpl in Hb; lia |].
      reflexivity. }
    rewrite E12, (Hhd b1 c1 S1 Hb1).
    rewrite (Hhd b1 c1 S1 Hb1) in T1. rewrite (Hhd b2 c2 S2 Hb2) in T2.
    apply mapM_app; assumption. }
  rewrite Ht. simpl. rewrite !map_app.
  rewrite (gather_cat_app _ _ _ _ _ _ _ _ GK1 GK2). simpl.
  rewrite (gather_cat_app _ _ _ _ _ _ _ _ GV1 GV2). reflexivity.
Qed.

(** X16.  Batch elements do not influence one another: when two well-shaped
    calls with the same configuration, head count, sequence length and head
    dimension return, the call on their caches put together along the batch
    axis returns their results put together. *)
Theorem batch_elements_are_independent (self : PyramidKVCluster)
    (K1 Q1 V1 K2 Q2 V2 K1' V1' K2' V2' : Tensor4 F) (cap : option Z)
    (b1 b2 h q d : Z) :
  has_shape4 b1 h q d K1 = true ->
  has_shape4 b1 (h * rep_factor self) q d Q1 = true ->
  has_shape4 b2 h q d K2 = true ->
  has_shape4 b2 (h * rep_factor self) q d Q2 = true ->
  0 < b1 -> 0 < b2 -> 0 < h -> 0 < q -> 1 <= rep_factor self ->
  update_kv self K1 Q1 V1 cap = inr (K1', V1') ->
  update_kv self K2 Q2 V2 cap = inr (K2', V2') ->
  update_kv self (K1 ++ K2) (Q1 ++ Q2) (V1 ++ V2) cap = inr (K1' ++ K2', V1' ++ V2').
Proof.
  intros HK1 HQ1 HK2 HQ2 Hb1 Hb2 Hh Hq Hr H1 H2.
  rewrite (update_kv_shaped self K1 Q1 V1 cap b1 h q d) in H1 by assumption.
  rewrite (update_kv_shaped self K2 Q2 V2 cap b2 h q d) in H2 by assumption.
  rewrite (update_kv_shaped self (K1 ++ K2) (Q1 ++ Q2) (V1 ++ V2) cap (b1 + b2) h q d)
    by (try apply has_shape4_app; assumption || lia).
  cbv zeta in *.
  destruct (schedule self (current_max_capacity self cap) q) as [e | sched];
    [discriminate |]. simpl in *.
  destruct (q <? current_max_capacity self cap).
  - inversion H1; inversion H2; subst. reflexivity.
  - assert (Hcase : forall bud,
      (do cache <- attn_cache self b1 h q d K1 Q1;
       if current_max_capacity self cap <=? window_size self
       then ret (seq_from (- window_size self) K1, seq_from (- window_size self) V1)
       else compress (window_size self) d bud cache K1 V1) = inr (K1', V1') ->
      (do cache <- attn_cache self b2 h q d K2 Q2;
       if current_max_capacity self cap <=? window_size self
       then ret (seq_from (- window_size self) K2, seq_from (- window_size self) V2)
       else compress (window_size self) d bud cache K2 V2) = inr (K2', V2') ->
      (do cache <- attn_cache self (b1 + b2) h q d (K1 ++ K2) (Q1 ++ Q2);
       if current_max_capacity self cap <=? window_size self
       then ret (seq_from (- window_size self) (K1 ++ K2),
                 seq_from (- window_size self) (V1 ++ V2))
       else compress (window_size self) d bud cache (K1 ++ K2) (V1 ++ V2))
      = inr (K1' ++ K2', V1' ++ V2')).
    { intros bud G1 G2.
      apply bind_inr in G1. destruct G1 as (c1 & C1 & G1).
      apply bind_inr in G2. destruct G2 as (c2 & C2 & G2).
      rewrite (attn_cache_app self b1 b2 h q d K1 Q1 K2 Q2 c1 c2 C1 C2). simpl.
      destruct (current_max_capacity self cap <=? window_size self).
      - inversion G1; inversion G2; subst. unfold seq_from. rewrite !map_app.
        reflexivity.
      - apply attn_cache_inr in C1, C2.
        destruct C1 as (_ & _ & S1). destruct C2 as (_ & _ & S2).
        eapply compress_app; eassumption. }
    destruct (q <? (current_max_capacity self cap - window_size self) * 2);
      apply Hcase; assumption.
Qed.

End Batches.

(** ** Calling again, and what the call reads *)

Section Again.

Context {F : Type} {SF : Scalar F}.

Lemma seq_len_cases (n : Z) (t : Tensor4 F) :
  all_seq_len n t -> seq_len t = n \/ seq_len t = 0.
Proof.
  intros H. unfold seq_len.
  destruct t as [| x t]; [right; reflexivity |].
  inversion H as [| ? ? Hx _]; subst. simpl.
  destruct x as [| m x]; [right; reflexivity |].
  inversion Hx; subst. left; reflexivity.
Qed.

(** X17.  The MODERATE regime is idempotent: a call on the keys and values
    that a MODERATE call returned, with the same configuration and whatever
    queries, returns them unchanged whenever it returns (odd kernel, values as
    long as the keys). *)
Theorem moderate_is_idempotent (self : PyramidKVCluster)
    (K Q V K' V' Q2 K'' V'' : Tensor4 F) (cap : option Z) :
  update_kv self K Q V cap = inr (K', V') ->
  regime self (current_max_capacity self cap) (seq_len K) = MODERATE ->
  Z.odd (kernel_size self) = true ->
  all_seq_len (seq_len K) V ->
  update_kv self K' Q2 V' cap = inr (K'', V'') ->
  K'' = K' /\ V'' = V'.
Proof.
  intros H Hr Hodd HV H2.
  assert (Hreg : current_max_capacity self cap <= seq_len K
                 < (current_max_capacity self cap - window_size self) * 2).
  { unfold regime in Hr.
    destruct (Z.ltb_spec (seq_len K) (current_max_capacity self cap)); [discriminate |].
    destruct (Z.ltb_spec (seq_len K)
                ((current_max_capacity self cap - window_size self) * 2));
      [lia | discriminate]. }
  pose proof (len_nonneg (hd [] (hd [] K))) as Hq. fold (seq_len K) in Hq.
  assert (Hw : window_size self < current_max_capacity self cap) by lia.
  assert (Hne : regime self (current_max_capacity self cap) (seq_len K) <> PASSTHROUGH)
    by (rewrite Hr; discriminate).
  destruct (update_kv_compressing self K Q V K' V' cap H Hne Hw)
    as (_ & _ & _ & Hwq & _).
  apply update_kv_inr in H as H'. cbv zeta in H'. destruct H' as (_ & sched & Hs & _).
  destruct (update_kv_lengths self K Q V K' V' cap sched H Hne Hw HV Hs)
    as (L1 & L2 & _ & _).
  cbv zeta in L1, L2. rewrite Hr in L1, L2. unfold budget, cache_len in L1, L2.
  rewrite pool_out_len_odd in L1, L2 by exact Hodd.
  replace (Z.min (current_max_capacity self cap - window_size self)
             (seq_len K - window_size self) + window_size self)
    with (current_max_capacity self cap) in L1, L2 by lia.
  apply update_kv_inr in H2 as H2'. cbv zeta in H2'.
  destruct H2' as (_ & sched2 & Hs2 & H2').
  destruct (seq_len_cases _ _ L1) as [E | E].
  - apply (full_budget_identity self K' Q2 V' K'' V'' cap sched2); try assumption.
    + rewrite E. unfold regime.
      destruct (Z.ltb_spec (current_max_capacity self cap)
                           (current_max_capacity self cap)); [lia |].
      destruct (_ <? _); discriminate.
    + rewrite E. unfold regime, budget.
      destruct (Z.ltb_spec (current_max_capacity self cap)
                           (current_max_capacity self cap)); [lia |].
      destruct (Z.ltb_spec (current_max_capacity self cap)
                  ((current_max_capacity self cap - window_size self) * 2)); lia.
    + rewrite E. exact L2.
  - rewrite E in H2'. unfold regime in H2'.
    destruct (Z.ltb_spec 0 (current_max_capacity self cap)); [| lia].
    destruct H2' as [-> ->]. auto.
Qed.

(** The scores of a head read its last [w] queries only. *)
Lemma head_scores_window (w d : Z) (q q' k : Matrix F) :
  slice_from (- w) q = slice_from (- w) q' ->
  head_scores w d q k = head_scores w d q' k.
Proof. intros E. unfold head_scores. rewrite E. reflexivity. Qed.

Lemma scores_window (w d : Z) (Q Q' Kc : Tensor4 F) :
  seq_from (- w) Q = seq_from (- w) Q' ->
  map2 (map2 (head_scores w d)) Q Kc = map2 (map2 (head_scores w d)) Q' Kc.
Proof.
  unfold seq_from. revert Q' Kc; induction Q as [| x Q IH]; intros [| x' Q'] Kc E;
    simpl in E; try discriminate; [reflexivity |].
  injection E as Ex EQ. destruct Kc as [| y Kc]; [reflexivity |]. simpl.
  f_equal; [| apply IH; exact EQ].
  clear IH EQ. revert x' y Ex; induction x as [| m x IH]; intros [| m' x'] y Ex;
    simpl in Ex; try discriminate; [reflexivity |].
  injection Ex as Em Ex. destruct y as [| k y]; [reflexivity |]. simpl.
  f_equal; [apply head_scores_window; exact Em | apply IH; exact Ex].
Qed.

Lemma has_shape4_unique (b h q d b' h' q' d' : Z) (t : Tensor4 F) :
  has_shape4 b h q d t = true -> 0 < b -> 0 < h -> 0 < q ->
  has_shape4 b' h' q' d' t = true ->
  (b', h', q', d') = (b, h, q, d).
Proof.
  intros H Hb Hh Hq H'.
  pose proof (shape4_read b h q d t H Hb Hh Hq) as E.
  apply has_shape4_Shape4 in H, H'.
  destruct H as [H1 H2]. destruct H' as [H1' H2'].
  destruct t as [| x t]; [unfold len in H1; simpl in H1; lia |].
  inversion H2 as [| ? ? [Hx1 Hx2] _]; inversion H2' as [| ? ? [Hx1' Hx2'] _]; subst.
  destruct x as [| m x]; [unfold len in Hh; simpl in Hh; lia |].
  inversion Hx2 as [| ? ? [Hm1 Hm2] _]; inversion Hx2' as [| ? ? [Hm1' Hm2'] _]; subst.
  destruct m as [| v m]; [unfold len in Hq; simpl in Hq; lia |].
  inversion Hm2; inversion Hm2'; subst. reflexivity.
Qed.

Lemma has_shape4_same (b h q d : Z) (t t' : Tensor4 F) :
  has_shape4 b h q d t = true -> has_shape4 b h q d t' = true ->
  0 < b -> 0 < h -> 0 < q ->
  forall b' h' q' d', has_shape4 b' h' q' d' t = has_shape4 b' h' q' d' t'.
Proof.
  intros H H' Hb Hh Hq b' h' q' d'.
  destruct (has_shape4 b' h' q' d' t) eqn:E1, (has_shape4 b' h' q' d' t') eqn:E2;
    try reflexivity.
  - pose proof (has_shape4_unique _ _ _ _ _ _ _ _ t H Hb Hh Hq E1) as E.
    inversion E; subst. congruence.
  - pose proof (has_shape4_unique _ _ _ _ _ _ _ _ t' H' Hb Hh Hq E2) as E.
    inversion E; subst. congruence.
Qed.

(** X18.  [update_kv] reads the queries of the window only: two calls whose
    queries have the same shape and agree on the last [window_size] positions
    do the same, whether they return or raise. *)
Theorem only_window_queries_matter (self : PyramidKVCluster) (K Q Q' V : Tensor4 F)
    (cap : option Z) (b h q d : Z) :
  has_shape4 b h q d Q = true -> has_shape4 b h q d Q' = true ->
  0 < b -> 0 < h -> 0 < q ->
  seq_from (- window_size self) Q = seq_from (- window_size self) Q' ->
  update_kv self K Q V cap = update_kv self K Q' V cap.
Proof.
  intros HQ HQ' Hb Hh Hq Hwin. unfold update_kv.
  rewrite (seq_len_read b h q d Q HQ Hb Hh Hq), (seq_len_read b h q d Q' HQ' Hb Hh Hq).
  rewrite (shape4_read b h q d Q HQ Hb Hh Hq), (shape4_read b h q d Q' HQ' Hb Hh Hq).
  destruct (assert (seq_len K =? q)); [reflexivity |]. simpl.
  assert (Hcache : forall b2 h2 q2 d2,
            attn_cache self b2 h2 q2 d2 K Q = attn_cache self b2 h2 q2 d2 K Q').
  { intros b2 h2 q2 d2. unfold attn_cache, scores_fit.
    rewrite (has_shape4_same b h q d Q Q' HQ HQ' Hb Hh Hq).
    rewrite (scores_window _ _ Q Q' _ Hwin). reflexivity. }
  destruct (match n_rep self with
            | Some _ => shape4 K
            | None => (b, h, q, d)
            end) as [[[b2 h2] q2] d2].
  destruct (schedule self (current_max_capacity self cap) q2); [reflexivity |]. simpl.
  rewrite Hcache. reflexivity.
Qed.

End Again.

(** * Runs of the further properties

    Each property above is applied to a concrete cluster and concrete tensors
    over the rationals, with its assumptions evaluated. *)

Module Runs.

Import RatScalar.

Lemma built_invariant_witness :
  Built (Some 0) 2 2 (small 0) /\
  window_size (small 0) < max_capacity_prompt (small 0) /\
  layer_idx (small 0) = Some 0 /\ num_hidden_layers (small 0) = 2 /\
  beta (small 0) = 2.
Proof.
  assert (H : Built (Some 0) 2 2 (small 0))
    by (eapply (Built_reset (Some 0) 2 2 _ 1 3 3 "avgpool" None);
        [ eapply (Built_init (Some 0) 2 2 64 320 5 "maxpool" None); reflexivity
        | reflexivity ]).
  split; [exact H |].
  exact (built_invariant (Some 0) 2 2 (small 0) H).
Defined.

Lemma failed_reset_degrades_witness :
  2 <= 2 /\
  snd (reset_inplace (small 0) 2 2 5 "maxpool" None) = inl AssertionError /\
  window_size (fst (reset_inplace (small 0) 2 2 5 "maxpool" None)) = 2 /\
  max_capacity_prompt (fst (reset_inplace (small 0) 2 2 5 "maxpool" None)) = 2 /\
  kernel_size (fst (reset_inplace (small 0) 2 2 5 "maxpool" None)) = 3 /\
  pooling (fst (reset_inplace (small 0) 2 2 5 "maxpool" None)) = "avgpool"%string /\
  update_kv (fst (reset_inplace (small 0) 2 2 5 "maxpool" None))
      keys5 queries5 values5 None
    = inr (column [4; 2], column [30; 40]).
Proof.
  assert (H : 2 <= 2) by lia.
  split; [exact H |].
  destruct (failed_reset_degrades (F := Q) (small 0) 2 2 5 "maxpool" None H)
    as (E & Ew & Em & Ek & Ep & _ & Hcall).
  split; [exact E | split; [exact Ew | split; [exact Em |
    split; [exact Ek | split; [exact Ep |]]]]].
  apply (Hcall keys5 queries5 values5 1 1 5 1 0).
  - reflexivity.
  - reflexivity.
  - lia.
  - lia.
  - vm_compute; discriminate.
  - reflexivity.
  - simpl; lia.
  - simpl; lia.
  - left; reflexivity.
  - simpl; lia.
  - lia.
Defined.

Lemma failures_before_regime_witness :
  (seq_len keys5 <> seq_len (column [1; 1; 1]) /\
   update_kv (small 0) keys5 (column [1; 1; 1]) values5 None = inl AssertionError) /\
  (seq_len keys5 = seq_len queries5 /\ beta beta_zero = 0 /\
   update_kv beta_zero keys5 queries5 values5 None = inl ZeroDivisionError) /\
  (seq_len keys5 = seq_len queries5 /\ beta unset_layer <> 0 /\
   num_hidden_layers unset_layer <> 1 /\ layer_idx unset_layer = None /\
   update_kv unset_layer keys5 queries5 values5 None = inl TypeError) /\
  (update_kv (small 0) keys5 queries5 values5 None
     = inr (column [3; 1; 4; 2], column [10; 20; 30; 40]) /\
   seq_len keys5 = seq_len queries5 /\ beta (small 0) <> 0 /\
   num_hidden_layers (small 0) <> 1 /\ layer_idx (small 0) <> None).
Proof.
  assert (H1 : seq_len keys5 <> seq_len (column [1; 1; 1]))
    by (vm_compute; discriminate).
  assert (H2 : seq_len keys5 = seq_len queries5) by reflexivity.
  assert (H3 : beta beta_zero = 0) by reflexivity.
  assert (H4 : beta unset_layer <> 0) by (simpl; lia).
  assert (H5 : num_hidden_layers unset_layer <> 1) by (simpl; lia).
  assert (H6 : layer_idx unset_layer = None) by reflexivity.
  assert (H7 : update_kv (small 0) keys5 queries5 values5 None
                 = inr (column [3; 1; 4; 2], column [10; 20; 30; 40]))
    by (vm_compute; reflexivity).
  split; [split; [exact H1 |] | split; [| split]].
  - exact (proj1 (failures_before_regime (small 0) keys5 (column [1; 1; 1])
                    values5 None) H1).
  - split; [exact H2 | split; [exact H3 |]].
    exact (proj1 (proj2 (failures_before_regime beta_zero keys5 queries5
                           values5 None)) H2 H3).
  - split; [exact H2 | split; [exact H4 | split; [exact H5 | split; [exact H6 |]]]].
    exact (proj1 (proj2 (proj2 (failures_before_regime unset_layer keys5 queries5
                                  values5 None))) H2 H4 H5 H6).
  - split; [exact H7 |].
    exact (proj2 (proj2 (proj2 (failures_before_regime (small 0) keys5 queries5
                                  values5 None))) _ _ H7).
Defined.

Lemma moderate_keeps_capacity_witness :
  (update_kv (small 0) keys5 queries5 values5 (Some 4)
     = inr (column [3; 1; 4; 2], column [10; 20; 30; 40]) /\
   regime (small 0) 4 (seq_len keys5) = MODERATE /\
   0 < kernel_size (small 0) /\ all_seq_len (seq_len keys5) values5) /\
  2 * window_size (small 0) < 4 /\
  all_seq_len 4 (column [3; 1; 4; 2]) /\ all_seq_len 4 (column [10; 20; 30; 40]).
Proof.
  assert (H1 : update_kv (small 0) keys5 queries5 values5 (Some 4)
                 = inr (column [3; 1; 4; 2], column [10; 20; 30; 40]))
    by (vm_compute; reflexivity).
  assert (H2 : regime (small 0) 4 (seq_len keys5) = MODERATE) by reflexivity.
  assert (H3 : 0 < kernel_size (small 0)) by (simpl; lia).
  assert (H4 : all_seq_len (seq_len keys5) values5) by (repeat constructor).
  split; [repeat split; assumption |].
  exact (moderate_keeps_capacity (small 0) keys5 queries5 values5 _ _ (Some 4)
           H1 H2 H3 H4).
Defined.

Lemma pyramid_conserves_total_witness :
  (schedule (scenario 0) 320 600
     = inr {| min_num := 12; max_num := 500; steps := 162; layer_budget := 500 |} /\
   2 <= num_hidden_layers (scenario 0) /\ 1 <= beta (scenario 0) /\
   window_size (scenario 0) < 320 /\ 320 <= 600) /\
  (forall i, schedule (at_layer (scenario 0) i) 320 600
             = inr {| min_num := 12; max_num := 500; steps := 162;
                      layer_budget := 500 - i * 162 |}) /\
  12 + 500 = 2 * (320 - 64) /\
  2 * 4 * (320 - 64) <= 2 * total_budget 500 162 4 <= 2 * 4 * (320 - 64) + 4 * (4 - 2).
Proof.
  assert (H1 : schedule (scenario 0) 320 600
                 = inr {| min_num := 12; max_num := 500; steps := 162;
                          layer_budget := 500 |}) by reflexivity.
  assert (H2 : 2 <= num_hidden_layers (scenario 0)) by (simpl; lia).
  assert (H3 : 1 <= beta (scenario 0)) by (simpl; lia).
  assert (H4 : window_size (scenario 0) < 320) by (simpl; lia).
  assert (H5 : 320 <= 600) by lia.
  split; [repeat split; assumption |].
  exact (pyramid_conserves_total (scenario 0) 320 600 _ H1 H2 H3 H4 H5).
Defined.

Lemma layer_budget_in_range_witness :
  (schedule (at_layer (scenario 0) 3) 320 600
     = inr {| min_num := 12; max_num := 500; steps := 162; layer_budget := 14 |} /\
   2 <= num_hidden_layers (scenario 0) /\ 1 <= beta (scenario 0) /\
   window_size (scenario 0) < 320 /\ 320 <= 600 /\
   0 <= 3 <= num_hidden_layers (scenario 0) - 1) /\
  0 <= 12 <= 14 /\ 14 <= 500 <= 600 - 64 /\
  (3 = 0 -> 14 = 500) /\
  (3 = num_hidden_layers (scenario 0) - 1 ->
   14 < 12 + (num_hidden_layers (scenario 0) - 1)).
Proof.
  assert (H1 : schedule (at_layer (scenario 0) 3) 320 600
                 = inr {| min_num := 12; max_num := 500; steps := 162;
                          layer_budget := 14 |}) by reflexivity.
  assert (H2 : 2 <= num_hidden_layers (scenario 0)) by (simpl; lia).
  assert (H3 : 1 <= beta (scenario 0)) by (simpl; lia).
  assert (H4 : window_size (scenario 0) < 320) by (simpl; lia).
  assert (H5 : 320 <= 600) by lia.
  assert (H6 : 0 <= 3 <= num_hidden_layers (scenario 0) - 1) by (simpl; lia).
  split; [repeat split; try assumption; lia |].
  exact (layer_budget_in_range (scenario 0) 320 600 3 _ H1 H2 H3 H4 H5 H6).
Defined.

Lemma whole_history_unchanged_witness :
  (update_kv (small 0) (column [0; 3; 1; 4]) (column [1; 1; 1; 1])
       (column [0; 10; 20; 30]) None
     = inr (column [0; 3; 1; 4], column [0; 10; 20; 30]) /\
   regime (small 0) 3 4 <> PASSTHROUGH /\ window_size (small 0) < 3 /\
   Z.odd (kernel_size (small 0)) = true /\
   schedule (small 0) 3 4
     = inr {| min_num := 1; max_num := 3; steps := 2; layer_budget := 3 |} /\
   4 - 1 <= 3 /\ all_seq_len 4 (column [0; 10; 20; 30])) /\
  column [0; 3; 1; 4] = column [0; 3; 1; 4] /\
  column [0; 10; 20; 30] = column [0; 10; 20; 30].
Proof.
  assert (H1 : update_kv (small 0) (column [0; 3; 1; 4]) (column [1; 1; 1; 1])
                 (column [0; 10; 20; 30]) None
               = inr (column [0; 3; 1; 4], column [0; 10; 20; 30]))
    by (vm_compute; reflexivity).
  assert (H2 : regime (small 0) 3 4 <> PASSTHROUGH) by (vm_compute; discriminate).
  assert (H3 : window_size (small 0) < 3) by (simpl; lia).
  assert (H4 : Z.odd (kernel_size (small 0)) = true) by reflexivity.
  assert (H5 : schedule (small 0) 3 4
                 = inr {| min_num := 1; max_num := 3; steps := 2; layer_budget := 3 |})
    by reflexivity.
  assert (H6 : 4 - 1 <= 3) by lia.
  assert (H7 : all_seq_len 4 (column [0; 10; 20; 30])) by (repeat constructor).
  split; [repeat split; assumption |].
  exact (whole_history_unchanged (small 0) (column [0; 3; 1; 4]) (column [1; 1; 1; 1])
           (column [0; 10; 20; 30]) _ _ None _ H1 H2 H3 H4 H5 H6 H7).
Defined.

Lemma layer_zero_unchanged_witness :
  (update_kv (small 0) (column [2; 0; 2; 1]) (column [1; 1; 1; 1])
       (column [5; 6; 7; 8]) None
     = inr (column [2; 0; 2; 1], column [5; 6; 7; 8]) /\
   layer_idx (small 0) = Some 0 /\ regime (small 0) 3 4 = AGGRESSIVE /\
   window_size (small 0) < 3 /\ Z.odd (kernel_size (small 0)) = true /\
   4 - 1 <= (3 - 1) * 2 - (3 - 1) / beta (small 0) /\
   all_seq_len 4 (column [5; 6; 7; 8])) /\
  column [2; 0; 2; 1] = column [2; 0; 2; 1] /\
  column [5; 6; 7; 8] = column [5; 6; 7; 8].
Proof.
  assert (H1 : update_kv (small 0) (column [2; 0; 2; 1]) (column [1; 1; 1; 1])
                 (column [5; 6; 7; 8]) None
               = inr (column [2; 0; 2; 1], column [5; 6; 7; 8]))
    by (vm_compute; reflexivity).
  assert (H2 : layer_idx (small 0) = Some 0) by reflexivity.
  assert (H3 : regime (small 0) 3 4 = AGGRESSIVE) by reflexivity.
  assert (H4 : window_size (small 0) < 3) by (simpl; lia).
  assert (H5 : Z.odd (kernel_size (small 0)) = true) by reflexivity.
  assert (H6 : 4 - 1 <= (3 - 1) * 2 - (3 - 1) / beta (small 0))
    by (vm_compute; discriminate).
  assert (H7 : all_seq_len 4 (column [5; 6; 7; 8])) by (repeat constructor).
  split; [repeat split; assumption |].
  exact (layer_zero_unchanged (small 0) (column [2; 0; 2; 1]) (column [1; 1; 1; 1])
           (column [5; 6; 7; 8]) _ _ None H1 H2 H3 H4 H5 H6 H7).
Defined.

Lemma outputs_are_subsequences_witness :
  update_kv (small 0) keys5 queries5 values5 None
    = inr (column [3; 1; 4; 2], column [10; 20; 30; 40]) /\
  Forall2 (Forall2 subseq) (column [3; 1; 4; 2]) keys5 /\
  Forall2 (Forall2 subseq) (column [10; 20; 30; 40]) values5.
Proof.
  assert (H1 : update_kv (small 0) keys5 queries5 values5 None
                 = inr (column [3; 1; 4; 2], column [10; 20; 30; 40]))
    by (vm_compute; reflexivity).
  split; [exact H1 |].
  exact (outputs_are_subsequences (small 0) keys5 queries5 values5 _ _ None H1).
Defined.

Lemma values_do_not_steer_witness :
  (update_kv (small 0) keys5 queries5 values5 None
     = inr (column [3; 1; 4; 2], column [10; 20; 30; 40]) /\
   update_kv (small 0) keys5 queries5 (column [7; 7; 7; 8; 9]) None
     = inr (column [3; 1; 4; 2], column [7; 7; 8; 9])) /\
  column [3; 1; 4; 2] = column [3; 1; 4; 2] /\
  ((column [10; 20; 30; 40] = values5 /\
    column [7; 7; 8; 9] = column [7; 7; 7; 8; 9]) \/
   (column [10; 20; 30; 40] = seq_from (- window_size (small 0)) values5 /\
    column [7; 7; 8; 9] = seq_from (- window_size (small 0)) (column [7; 7; 7; 8; 9])) \/
   exists indices,
     column [3; 1; 4; 2] = compressed_cache (window_size (small 0)) keys5 indices /\
     column [10; 20; 30; 40]
       = compressed_cache (window_size (small 0)) values5 indices /\
     column [7; 7; 8; 9]
       = compressed_cache (window_size (small 0)) (column [7; 7; 7; 8; 9]) indices).
Proof.
  assert (H1 : update_kv (small 0) keys5 queries5 values5 None
                 = inr (column [3; 1; 4; 2], column [10; 20; 30; 40]))
    by (vm_compute; reflexivity).
  assert (H2 : update_kv (small 0) keys5 queries5 (column [7; 7; 7; 8; 9]) None
                 = inr (column [3; 1; 4; 2], column [7; 7; 8; 9]))
    by (vm_compute; reflexivity).
  split; [split; assumption |].
  exact (values_do_not_steer (small 0) keys5 queries5 values5 (column [7; 7; 7; 8; 9])
           _ _ _ _ None H1 H2).
Defined.

Lemma unsupported_pooling_witness :
  (~ supported sum_pooled /\
   update_kv sum_pooled (column [0; 3]) (column [1; 1]) (column [0; 10]) None
     = inr (column [0; 3], column [0; 10])) /\
  regime sum_pooled (current_max_capacity sum_pooled None) (seq_len (column [0; 3]))
    = PASSTHROUGH /\
  column [0; 3] = column [0; 3] /\ column [0; 10] = column [0; 10].
Proof.
  assert (H1 : ~ supported sum_pooled)
    by (intros [H | H]; vm_compute in H; discriminate).
  assert (H2 : update_kv sum_pooled (column [0; 3]) (column [1; 1]) (column [0; 10]) None
                 = inr (column [0; 3], column [0; 10]))
    by (vm_compute; reflexivity).
  split; [split; assumption |].
  exact (unsupported_pooling_never_compresses sum_pooled (column [0; 3]) (column [1; 1])
           (column [0; 10]) _ _ None H1 H2).
Defined.

Lemma negative_budget_raises_witness :
  (has_shape4 1 1 5 1 keys5 = true /\
   has_shape4 1 (1 * rep_factor (small 2)) 5 1 queries5 = true /\
   supported (small 2) /\ 0 < kernel_size (small 2) /\
   0 < window_size (small 2) < 3 /\ 3 <= 5 /\ (3 - 1) * 2 <= 5 /\
   schedule (small 2) 3 5
     = inr {| min_num := 1; max_num := 3; steps := 2; layer_budget := -1 |} /\
   -1 < 0) /\
  update_kv (small 2) keys5 queries5 values5 None = inl RuntimeError.
Proof.
  assert (H1 : has_shape4 1 1 5 1 keys5 = true) by reflexivity.
  assert (H2 : has_shape4 1 (1 * rep_factor (small 2)) 5 1 queries5 = true)
    by reflexivity.
  assert (Hb : 0 < 1) by lia.
  assert (Hr : 1 <= rep_factor (small 2)) by (vm_compute; discriminate).
  assert (H3 : supported (small 2)) by (left; reflexivity).
  assert (H4 : 0 < kernel_size (small 2)) by (simpl; lia).
  assert (H5 : 0 < window_size (small 2) < 3) by (simpl; lia).
  assert (H6 : 3 <= 5) by lia.
  assert (H7 : (3 - 1) * 2 <= 5) by lia.
  assert (H8 : schedule (small 2) 3 5
                 = inr {| min_num := 1; max_num := 3; steps := 2; layer_budget := -1 |})
    by reflexivity.
  assert (H9 : -1 < 0) by lia.
  split; [repeat split; try assumption; lia |].
  exact (negative_budget_raises (small 2) keys5 queries5 values5 None 1 1 5 1 _
           H1 H2 Hb Hb Hr H3 H4 H5 H6 H7 H8 H9).
Defined.

Lemma maxpool_window_max_witness :
  (pooling max_pooled = "maxpool"%string /\ Z.odd (kernel_size max_pooled) = true /\
   0 < kernel_size max_pooled /\ 0 < len [3; 6; 9; 12]%Q) /\
  exists pool y,
    pool_scores max_pooled = inr pool /\ pool [3; 6; 9; 12]%Q = inr y /\
    len y = len [3; 6; 9; 12]%Q /\
    forall p, (p < 4)%nat ->
      nth p y 0%Q = window_max (kernel_size max_pooled) [3; 6; 9; 12]%Q p.
Proof.
  assert (H1 : pooling max_pooled = "maxpool"%string) by reflexivity.
  assert (H2 : Z.odd (kernel_size max_pooled) = true) by reflexivity.
  assert (H3 : 0 < kernel_size max_pooled) by (simpl; lia).
  assert (H4 : 0 < len [3; 6; 9; 12]%Q) by (vm_compute; reflexivity).
  split; [repeat split; assumption |].
  exact (maxpool_window_max max_pooled [3; 6; 9; 12]%Q H1 H2 H3 H4).
Defined.

(** The max-pooled scores of the example: the padding never shows. *)
Example maxpool_run :
  max_pool1d 3 1 [3; 6; 9; 12]%Q = inr [6; 9; 12; 12]%Q.
Proof. vm_compute. reflexivity. Qed.

Lemma even_kernel_shifts_witness :
  (pooling even_kernel = "avgpool"%string /\ Z.even (kernel_size even_kernel) = true /\
   0 < kernel_size even_kernel /\ 0 < len [3; 6; 9; 12]%Q) /\
  exists pool y,
    pool_scores even_kernel = inr pool /\ pool [3; 6; 9; 12]%Q = inr y /\
    len y = len [3; 6; 9; 12]%Q + 1 /\
    forall p, (p <= 4)%nat ->
      nth p y 0%Q = early_average (kernel_size even_kernel) [3; 6; 9; 12]%Q p.
Proof.
  assert (H1 : pooling even_kernel = "avgpool"%string) by reflexivity.
  assert (H2 : Z.even (kernel_size even_kernel) = true) by reflexivity.
  assert (H3 : 0 < kernel_size even_kernel) by (simpl; lia).
  assert (H4 : 0 < len [3; 6; 9; 12]%Q) by (vm_compute; reflexivity).
  split; [repeat split; assumption |].
  exact (even_kernel_shifts even_kernel [3; 6; 9; 12]%Q H1 H2 H3 H4).
Defined.

(** The pooled scores of the example with a kernel of two: five scores for
    four positions. *)
Example even_kernel_run :
  avg_pool1d true 2 1 [3; 6; 9; 12]%Q = inr [3 # 2; 9 # 2; 15 # 2; 21 # 2; 6]%Q.
Proof. vm_compute. reflexivity. Qed.

Lemma gqa_keeps_kv_heads_witness :
  (n_rep grouped = Some 2 /\ 1 <= 2 /\
   has_shape4 1 1 5 1 keys5 = true /\
   has_shape4 1 (1 * 2) 5 1 (constant 1%Q 1 2 5 1) = true /\
   has_shape4 1 1 5 1 values5 = true /\
   supported grouped /\ 0 < kernel_size grouped /\
   Z.odd (kernel_size grouped) = true /\
   0 < window_size grouped < 3 /\ 3 <= 5 /\
   schedule grouped 3 5
     = inr {| min_num := 1; max_num := 3; steps := 2; layer_budget := 3 |} /\
   0 <= 3) /\
  exists K' V',
    update_kv grouped keys5 (constant 1%Q 1 2 5 1) values5 None = inr (K', V') /\
    Shape3 1 1 (Z.min 3 (5 - 1) + 1) K' /\ Shape3 1 1 (Z.min 3 (5 - 1) + 1) V'.
Proof.
  assert (H1 : n_rep grouped = Some 2) by reflexivity.
  assert (H2 : 1 <= 2) by lia.
  assert (H3 : has_shape4 1 1 5 1 keys5 = true) by reflexivity.
  assert (H4 : has_shape4 1 (1 * 2) 5 1 (constant 1%Q 1 2 5 1) = true) by reflexivity.
  assert (H5 : has_shape4 1 1 5 1 values5 = true) by reflexivity.
  assert (Hb : 0 < 1) by lia.
  assert (H6 : supported grouped) by (left; reflexivity).
  assert (H7 : 0 < kernel_size grouped) by (simpl; lia).
  assert (H8 : Z.odd (kernel_size grouped) = true) by reflexivity.
  assert (H9 : 0 < window_size grouped < 3) by (simpl; lia).
  assert (H10 : 3 <= 5) by lia.
  assert (H11 : schedule grouped 3 5
                  = inr {| min_num := 1; max_num := 3; steps := 2; layer_budget := 3 |})
    by reflexivity.
  assert (H12 : 0 <= 3) by lia.
  split; [repeat split; try assumption; lia |].
  exact (gqa_keeps_kv_heads grouped keys5 (constant 1%Q 1 2 5 1) values5 None
           1 1 5 1 2 _ H1 H2 H3 H4 H5 Hb Hb H6 H7 H8 H9 H10 H11 H12).
Defined.

Lemma batch_elements_witness :
  (has_shape4 1 1 5 1 keys5 = true /\
   has_shape4 1 (1 * rep_factor (small 0)) 5 1 queries5 = true /\
   has_shape4 1 1 5 1 (column [4; 0; 2; 1; 3]) = true /\
   1 <= rep_factor (small 0) /\
   update_kv (small 0) keys5 queries5 values5 None
     = inr (column [3; 1; 4; 2], column [10; 20; 30; 40]) /\
   update_kv (small 0) (column [4; 0; 2; 1; 3]) queries5 (column [1; 2; 3; 4; 5]) None
     = inr (column [4; 0; 2; 3], column [1; 2; 3; 5])) /\
  update_kv (small 0) (keys5 ++ column [4; 0; 2; 1; 3]) (queries5 ++ queries5)
      (values5 ++ column [1; 2; 3; 4; 5]) None
    = inr (column [3; 1; 4; 2] ++ column [4; 0; 2; 3],
           column [10; 20; 30; 40] ++ column [1; 2; 3; 5]).
Proof.
  assert (H1 : has_shape4 1 1 5 1 keys5 = true) by reflexivity.
  assert (H2 : has_shape4 1 (1 * rep_factor (small 0)) 5 1 queries5 = true)
    by reflexivity.
  assert (H3 : has_shape4 1 1 5 1 (column [4; 0; 2; 1; 3]) = true) by reflexivity.
  assert (Hb : 0 < 1) by lia.
  assert (Hq : 0 < 5) by lia.
  assert (Hr : 1 <= rep_factor (small 0)) by (vm_compute; discriminate).
  assert (H4 : update_kv (small 0) keys5 queries5 values5 None
                 = inr (column [3; 1; 4; 2], column [10; 20; 30; 40]))
    by (vm_compute; reflexivity).
  assert (H5 : update_kv (small 0) (column [4; 0; 2; 1; 3]) queries5
                 (column [1; 2; 3; 4; 5]) None
               = inr (column [4; 0; 2; 3], column [1; 2; 3; 5]))
    by (vm_compute; reflexivity).
  split; [repeat split; assumption |].
  exact (batch_elements_are_independent (small 0) keys5 queries5 values5
           (column [4; 0; 2; 1; 3]) queries5 (column [1; 2; 3; 4; 5]) _ _ _ _ None
           1 1 1 5 1 H1 H2 H3 H2 Hb Hb Hb Hq Hr H4 H5).
Defined.

Lemma moderate_is_idempotent_witness :
  (update_kv (small 0) keys5 queries5 values5 (Some 4)
     = inr (column [3; 1; 4; 2], column [10; 20; 30; 40]) /\
   regime (small 0) (current_max_capacity (small 0) (Some 4)) (seq_len keys5)
     = MODERATE /\
   Z.odd (kernel_size (small 0)) = true /\
   all_seq_len (seq_len keys5) values5 /\
   update_kv (small 0) (column [3; 1; 4; 2]) (column [1; 1; 1; 1])
       (column [10; 20; 30; 40]) (Some 4)
     = inr (column [3; 1; 4; 2], column [10; 20; 30; 40])) /\
  column [3; 1; 4; 2] = column [3; 1; 4; 2] /\
  column [10; 20; 30; 40] = column [10; 20; 30; 40].
Proof.
  assert (H1 : update_kv (small 0) keys5 queries5 values5 (Some 4)
                 = inr (column [3; 1; 4; 2], column [10; 20; 30; 40]))
    by (vm_compute; reflexivity).
  assert (H2 : regime (small 0) (current_max_capacity (small 0) (Some 4))
                 (seq_len keys5) = MODERATE) by reflexivity.
  assert (H3 : Z.odd (kernel_size (small 0)) = true) by reflexivity.
  assert (H4 : all_seq_len (seq_len keys5) values5) by (repeat constructor).
  assert (H5 : update_kv (small 0) (column [3; 1; 4; 2]) (column [1; 1; 1; 1])
                 (column [10; 20; 30; 40]) (Some 4)
               = inr (column [3; 1; 4; 2], column [10; 20; 30; 40]))
    by (vm_compute; reflexivity).
  split; [repeat split; assumption |].
  exact (moderate_is_idempotent (small 0) keys5 queries5 values5 _ _
           (column [1; 1; 1; 1]) _ _ (Some 4) H1 H2 H3 H4 H5).
Defined.

Lemma only_window_queries_witness :
  (has_shape4 1 1 5 1 queries5 = true /\
   has_shape4 1 1 5 1 (column [9; 8; 7; 6; 1]) = true /\
   seq_from (- window_size (small 0)) queries5
     = seq_from (- window_size (small 0)) (column [9; 8; 7; 6; 1])) /\
  update_kv (small 0) keys5 queries5 values5 None
    = update_kv (small 0) keys5 (column [9; 8; 7; 6; 1]) values5 None.
Proof.
  assert (H1 : has_shape4 1 1 5 1 queries5 = true) by reflexivity.
  assert (H2 : has_shape4 1 1 5 1 (column [9; 8; 7; 6; 1]) = true) by reflexivity.
  assert (Hb : 0 < 1) by lia.
  assert (Hq : 0 < 5) by lia.
  assert (H3 : seq_from (- window_size (small 0)) queries5
                 = seq_from (- window_size (small 0)) (column [9; 8; 7; 6; 1]))
    by reflexivity.
  split; [repeat split; assumption |].
  exact (only_window_queries_matter (small 0) keys5 queries5 (column [9; 8; 7; 6; 1])
           values5 None 1 1 5 1 H1 H2 Hb Hb Hq H3).
Defined.

End Runs.
